(** * Ralph: the task-orchestration engine, embedded and verified

  A shallow embedding of the parts of [src/task/RalphLoop.mjs],
  [src/utils/UserConfig.mjs] and [src/tools/ClaudeTool.mjs] that decide the
  behaviour of the task graph resolver, the run/resume state machine, the
  agent invocation adapter, result extraction and the set-configuration
  validator.

  Layout:
  - [JS]       strings as UTF-16 code units, JSON-shaped values, completions;
  - [JSON]     [JSON.parse] as a one-pass lexer and a push-down parser;
  - [Extract]  [RalphLoop.extractJson];
  - [Resolver] [RalphLoop.findNextTask];
  - [Engine]   [RalphLoop.init] (progress record) and [RalphLoop.run];
  - [Adapter]  the close handler of [RalphLoop.callClaude], and
               [RalphLoop.executeTask] from the result of the invocation
               on, with the table rows it draws;
  - [ClaudeTool], [UserConfig]  the validators of the set configuration,
               [UserConfig.loadSetConfig], [UserConfig.getToolConfig] and
               [ClaudeTool.buildArgs];
  - [Print]    [Print.parseStreamChunk], the progress bar and the rows of
               the progress table;
  - [Prompt]   [RalphLoop.buildPrompt];
  - [CLI]      the batch loop of [CLI.#executeRun];
  - [Samples]  the inputs of the examples.

  The properties follow the definitions, one section per component. *)

From Stdlib Require Import ZArith NArith List Bool String Ascii DecimalString Lia.
From stdpp Require Import base list gmap sets strings pretty.
Import ListNotations.

(* ===================================================================== *)
(** * JavaScript data: strings, values, completions *)
(* ===================================================================== *)

Module JS.

(** A JavaScript string is a sequence of UTF-16 code units. *)
Definition char := N.
Definition jsstring := list char.

Definition ch (a : ascii) : char := N_of_ascii a.

(** Source literals are ASCII; [str] turns one into its code units. *)
Definition str (s : string) : jsstring := map N_of_ascii (list_ascii_of_string s).

(** JSON text and messages are full of quotation marks; [dq] writes each
    one as an apostrophe in the literal, so [dq "{'a':1}"] is the text of
    an object with the key [a]. *)
Definition dq (s : string) : jsstring :=
  map (fun c => if N.eqb c 39 then 34%N else c) (str s).

(** Line feed, the separator of the lines of a stream. *)
Definition LF : char := 10%N.

Fixpoint eqs (a b : jsstring) : bool :=
  match a, b with
  | [], [] => true
  | x :: a', y :: b' => N.eqb x y && eqs a' b'
  | _, _ => false
  end.

(** ECMAScript WhiteSpace and LineTerminator code units: what
    [String.prototype.trim] strips and what the regular expression class
    [\s] matches. *)
Definition is_space (c : char) : bool :=
  existsb (N.eqb c)
    [9; 10; 11; 12; 13; 32; 160; 5760; 8232; 8233; 8239; 8287; 12288; 65279]%N
  || (N.leb 8192 c && N.leb c 8202).

Fixpoint drop_spaces (s : jsstring) : jsstring :=
  match s with
  | c :: s' => if is_space c then drop_spaces s' else s
  | [] => []
  end.

(** [s.trim()] *)
Definition trim (s : jsstring) : jsstring :=
  rev (drop_spaces (rev (drop_spaces s))).

(** [s.split(sep)] for a one-unit separator: never the empty list. *)
Fixpoint split (sep : char) (s : jsstring) : list jsstring :=
  match s with
  | [] => [[]]
  | c :: s' =>
      if N.eqb c sep then [] :: split sep s'
      else match split sep s' with
           | l :: ls => (c :: l) :: ls
           | [] => [[c]]
           end
  end.

(** [s.startsWith(p)], returning the rest of [s] after [p]. *)
Fixpoint strip_prefix (p s : jsstring) : option jsstring :=
  match p, s with
  | [], _ => Some s
  | x :: p', y :: s' => if N.eqb x y then strip_prefix p' s' else None
  | _ :: _, [] => None
  end.

Definition startsWith (s p : jsstring) : bool :=
  match strip_prefix p s with Some _ => true | None => false end.

(** The first occurrence of [p] in [s]: the text before it and the text
    after it. *)
Fixpoint find_sub (p s : jsstring) : option (jsstring * jsstring) :=
  match strip_prefix p s with
  | Some rest => Some ([], rest)
  | None =>
      match s with
      | [] => None
      | c :: s' =>
          match find_sub p s' with
          | Some (pre, rest) => Some (c :: pre, rest)
          | None => None
          end
      end
  end.

(** [s] occurs in [text]. *)
Definition includes (text s : jsstring) : Prop :=
  exists before after, text = before ++ s ++ after.

(** Values as [JSON.parse] builds them, plus [undefined].  A number is
    kept as the exact decimal [m * 10^e] of its literal; an object is its
    list of own properties in insertion order, one entry per key. *)
#[warnings="-register-all"]
Inductive value : Type :=
| VUndefined
| VNull
| VBool (b : bool)
| VNum (m e : Z)
| VStr (s : jsstring)
| VArr (elems : list value)
| VObj (props : list (jsstring * value)).

(** A literal denotes the double 0 when its digits are all zero or when it
    underflows: [|m * 10^e| <= 2^-1075] rounds to zero (ties to even). *)
Definition num_is_zero (m e : Z) : bool :=
  Z.eqb m 0 || (Z.ltb e 0 && Z.leb (Z.abs m * 2 ^ 1075) (10 ^ (- e))).

(** ToBoolean *)
Definition truthy (v : value) : bool :=
  match v with
  | VUndefined | VNull => false
  | VBool b => b
  | VNum m e => negb (num_is_zero m e)
  | VStr s => match s with [] => false | _ => true end
  | VArr _ | VObj _ => true
  end.

(** [a || b] *)
Definition or_else (a b : value) : value := if truthy a then a else b.

Inductive jstype := TUndefined | TObject | TBoolean | TNumber | TString.

(** [typeof v] *)
Definition typeof (v : value) : jstype :=
  match v with
  | VUndefined => TUndefined
  | VNull | VArr _ | VObj _ => TObject
  | VBool _ => TBoolean
  | VNum _ _ => TNumber
  | VStr _ => TString
  end.

Definition typeof_name (t : jstype) : jsstring :=
  match t with
  | TUndefined => str "undefined"
  | TObject => str "object"
  | TBoolean => str "boolean"
  | TNumber => str "number"
  | TString => str "string"
  end.

Definition isArray (v : value) : bool :=
  match v with VArr _ => true | _ => false end.

Definition is_nullish (v : value) : bool :=
  match v with VUndefined | VNull => true | _ => false end.

Fixpoint lookup_prop (k : jsstring) (props : list (jsstring * value)) : value :=
  match props with
  | [] => VUndefined
  | (k', v) :: ps => if eqs k k' then v else lookup_prop k ps
  end.

(** Defining a property again keeps its place and replaces its value. *)
Fixpoint set_prop (k : jsstring) (v : value) (props : list (jsstring * value))
  : list (jsstring * value) :=
  match props with
  | [] => [(k, v)]
  | (k', v') :: ps => if eqs k k' then (k, v) :: ps else (k', v') :: set_prop k v ps
  end.

(** [v.k] on a value that is neither [null] nor [undefined], for a key [k]
    that names no built-in property ([length], an index, a prototype
    method): every key read in this development is such a key.  Only an
    object has such a property of its own. *)
Definition prop (v : value) (k : jsstring) : value :=
  match v with
  | VObj props => lookup_prop k props
  | _ => VUndefined
  end.

(** What a JavaScript evaluation ends in: a value or a thrown exception.
    The texts of the runtime's own TypeError and SyntaxError messages are
    not fixed by the language and are left out. *)
Inductive exn :=
| TypeError
| SyntaxError
| RangeError
| Error (message : jsstring).

Inductive completion (A : Type) :=
| Normal (a : A)
| Throw (e : exn).
Arguments Normal {A} a.
Arguments Throw {A} e.

Definition bind {A B} (c : completion A) (k : A -> completion B) : completion B :=
  match c with
  | Normal a => k a
  | Throw e => Throw e
  end.

(** [v.k]: reading a property of [null] or [undefined] throws. *)
Definition get (v : value) (k : jsstring) : completion value :=
  if is_nullish v then Throw TypeError else Normal (prop v k).

(** [v?.k] *)
Definition get_opt (v : value) (k : jsstring) : value :=
  if is_nullish v then VUndefined else prop v k.

(** [v === 'literal'] *)
Definition is_str (v : value) (s : jsstring) : bool :=
  match v with VStr s' => eqs s' s | _ => false end.

Definition is_digit (c : char) : bool := N.leb 48 c && N.leb c 57.

(** [l.join( sep )] for texts *)
Fixpoint join (sep : jsstring) (l : list jsstring) : jsstring :=
  match l with
  | [] => []
  | [x] => x
  | x :: l' => x ++ sep ++ join sep l'
  end.

(** ** Property order *)

(** The array index a property key spells, if any: decimal digits without
    a leading zero, at most [2^32 - 2]. *)
Definition index_of_key (k : jsstring) : option N :=
  match k with
  | [] => None
  | c :: rest =>
      if forallb is_digit k
         && match rest with [] => true | _ => negb (N.eqb c 48) end
      then
        let n := fold_left (fun acc d => (10 * acc + (d - 48))%N) k 0%N in
        if N.leb n 4294967294 then Some n else None
      else None
  end.

Fixpoint insert_indexed {A} (n : N) (x : A) (l : list (N * A)) : list (N * A) :=
  match l with
  | [] => [(n, x)]
  | (n', x') :: l' =>
      if N.leb n n' then (n, x) :: l else (n', x') :: insert_indexed n x l'
  end.

(** The order in which [Object.entries], [Object.keys] and
    [JSON.stringify] visit the own properties: array indices first, in
    ascending order, then the other keys as they were inserted. *)
Definition own_entries {A} (props : list (jsstring * A)) : list (jsstring * A) :=
  let indexed :=
    fold_right (fun kv acc =>
                  match index_of_key (fst kv) with
                  | Some n => insert_indexed n kv acc
                  | None => acc
                  end) [] props in
  map snd indexed
  ++ List.filter
       (fun kv => match index_of_key (fst kv) with Some _ => false | None => true end)
       props.

(** ** Built-in properties *)

(** [v.length] of a truthy value: the number of code units of a text, the
    number of elements of an array, the own property of an object. *)
Definition length_of (v : value) : value :=
  match v with
  | VStr s => VNum (Z.of_nat (length s)) 0
  | VArr elems => VNum (Z.of_nat (length elems)) 0
  | VObj props => lookup_prop (str "length") props
  | _ => VUndefined
  end.

(** [v[ 0 ]] of a truthy value: the first code unit of a text, the first
    element of an array, the own property [0] of an object. *)
Definition item0 (v : value) : value :=
  match v with
  | VStr (c :: _) => VStr [c]
  | VArr (x :: _) => x
  | VObj props => lookup_prop (str "0") props
  | _ => VUndefined
  end.

(** The object has a property of its own under the key. *)
Definition has_own (k : jsstring) (props : list (jsstring * value)) : bool :=
  existsb (fun kv => eqs k (fst kv)) props.

(** ** Numbers from text *)

Fixpoint take_while (f : char -> bool) (s : jsstring) : jsstring * jsstring :=
  match s with
  | c :: s' =>
      if f c then let (taken, rest) := take_while f s' in (c :: taken, rest)
      else ([], s)
  | [] => ([], [])
  end.

Definition decimal_value (digits : jsstring) : Z :=
  fold_left (fun acc d => (10 * acc + Z.of_N (d - 48))%Z) digits 0%Z.

(** ExponentPart, or nothing, up to the end of the text: the exponent. *)
Definition exponent_part (s : jsstring) : option Z :=
  match s with
  | [] => Some 0%Z
  | c :: s' =>
      if N.eqb c (ch "e") || N.eqb c (ch "E") then
        let (negative, digits) :=
          match s' with
          | d :: s'' =>
              if N.eqb d (ch "-") then (true, s'')
              else if N.eqb d (ch "+") then (false, s'')
              else (false, s')
          | [] => (false, [])
          end in
        match digits with
        | [] => None
        | _ =>
            if forallb is_digit digits
            then Some (if negative then (- decimal_value digits)%Z else decimal_value digits)
            else None
        end
      else None
  end.

(** StrUnsignedDecimalLiteral other than [Infinity], as the whole text:
    digits, a point and digits, an exponent part, with a digit before the
    exponent.  The literal denotes [m * 10^e]. *)
Definition unsigned_decimal (s : jsstring) : option (Z * Z) :=
  let (int, r1) := take_while is_digit s in
  let (frac, r2) :=
    match r1 with
    | c :: r => if N.eqb c (ch ".") then take_while is_digit r else ([], r1)
    | [] => ([], [])
    end in
  match int ++ frac with
  | [] => None
  | digits =>
      match exponent_part r2 with
      | Some x => Some (decimal_value digits, (x - Z.of_nat (length frac))%Z)
      | None => None
      end
  end.

Definition in_range (lo hi c : char) : bool := N.leb lo c && N.leb c hi.

(** NonDecimalIntegerLiteral as the whole text: whether the text has the
    prefix of one and, if so, whether it is one that denotes a number
    other than zero. *)
Definition non_decimal (s : jsstring) : option bool :=
  match s with
  | z :: x :: digits =>
      let digit :=
        if N.eqb x (ch "x") || N.eqb x (ch "X")
        then Some (fun c => is_digit c || in_range 97%N 102%N c || in_range 65%N 70%N c)
        else if N.eqb x (ch "o") || N.eqb x (ch "O") then Some (in_range 48%N 55%N)
        else if N.eqb x (ch "b") || N.eqb x (ch "B") then Some (in_range 48%N 49%N)
        else None in
      match digit with
      | Some f =>
          if N.eqb z 48%N then
            Some (match digits with
                  | [] => false
                  | _ => forallb f digits && existsb (fun c => negb (N.eqb c 48%N)) digits
                  end)
          else None
      | None => None
      end
  | _ => None
  end.

(** [s > 0] for a text: StringToNumber gives a number above zero.  White
    space around the literal is dropped; a text that is no numeric literal
    is NaN, the empty text is zero, and a decimal literal is zero when its
    digits are or when it underflows. *)
Definition string_positive (s : jsstring) : bool :=
  let t := trim s in
  if eqs t (str "Infinity") || eqs t (str "+Infinity") then true
  else
    match non_decimal t with
    | Some positive => positive
    | None =>
        let u := match t with
                 | c :: t' => if N.eqb c (ch "+") then t' else t
                 | [] => []
                 end in
        match unsigned_decimal u with
        | Some (m, e) => negb (num_is_zero m e)
        | None => false
        end
    end.

(** ** Values as text *)

(** A literal denotes a finite double when it is below the midpoint
    between the largest double and [2^1024]. *)
Definition num_is_finite (m e : Z) : bool :=
  if Z.leb 0 e then Z.ltb (Z.abs m * 10 ^ e) (2 ^ 1024 - 2 ^ 970)
  else Z.ltb (Z.abs m) ((2 ^ 1024 - 2 ^ 970) * 10 ^ (- e)).

Section Text.

(** [String(x)] for the number that the literal [m * 10^e] denotes: the
    runtime's shortest text of the nearest double, not modelled here. *)
Variable number_text : Z -> Z -> jsstring.

(** ToString, as a template literal and a property key apply it. *)
Fixpoint toString (v : value) : jsstring :=
  match v with
  | VUndefined => str "undefined"
  | VNull => str "null"
  | VBool true => str "true"
  | VBool false => str "false"
  | VNum m e => number_text m e
  | VStr s => s
  | VArr elems =>
      (fix items (l : list value) : jsstring :=
         match l with
         | [] => []
         | x :: l' =>
             match x with
             | VUndefined | VNull => []
             | _ => toString x
             end
             ++ match l' with [] => [] | _ => ch "," :: items l' end
         end) elems
  | VObj _ => str "[object Object]"
  end.

(** ToString where it may throw: [String( v )], a template literal, a
    property key, the replacement of [replaceAll].  A value of [JSON.parse]
    has no callable property of its own.  An object with an own [toString]
    has no method to convert it: that property is not callable, and the
    inherited [valueOf] returns the object itself, so the conversion throws
    a TypeError.  An array is joined, which converts its elements. *)
Fixpoint to_text (v : value) : completion jsstring :=
  match v with
  | VArr elems =>
      (fix items (l : list value) : completion jsstring :=
         match l with
         | [] => Normal []
         | x :: l' =>
             bind (match x with
                   | VUndefined | VNull => Normal []
                   | _ => to_text x
                   end)
                  (fun here =>
                     bind (items l')
                          (fun there =>
                             Normal (here ++ match l' with
                                             | [] => []
                                             | _ => ch "," :: there
                                             end)))
         end) elems
  | VObj props =>
      if has_own (str "toString") props then Throw TypeError
      else Normal (str "[object Object]")
  | _ => Normal (toString v)
  end.

(** [v > 0]: the value is converted to a primitive, with [valueOf] first,
    which gives nothing for an object or an array of [JSON.parse], and then
    as for ToString; the primitive is converted to a number.  [undefined]
    and a text that is no number are NaN. *)
Definition gt_zero (v : value) : completion bool :=
  match v with
  | VUndefined | VNull => Normal false
  | VBool b => Normal b
  | VNum m e => Normal (Z.ltb 0 m && negb (num_is_zero m e))
  | VStr s => Normal (string_positive s)
  | VArr _ | VObj _ => bind (to_text v) (fun s => Normal (string_positive s))
  end.

End Text.

(** Decimal digits of a natural number, as [String(n)] prints an index. *)
Definition digits_of_N (n : N) : jsstring :=
  map N_of_ascii (list_ascii_of_string (NilEmpty.string_of_uint (N.to_uint n))).

End JS.

Notation "'let*' x ':=' c 'in' k" := (JS.bind c (fun x => k))
  (at level 10, x name, c at level 100, k at level 200).

(* ===================================================================== *)
(** * [JSON.parse] *)
(* ===================================================================== *)

(** The JSON grammar of ECMA-404, read in one pass over the code units: a
    lexer that is a finite automaton, then a push-down parser over the
    tokens.  Both recurse on the input only, so parsing is total. *)

Module JSON.
Import JS.

Inductive token :=
| TLBrace | TRBrace | TLBracket | TRBracket | TColon | TComma
| TString (s : jsstring)
| TNumber (m e : Z)
| TTrue | TFalse | TNull.

(** ** Numbers *)

Fixpoint span_digits (s : jsstring) : jsstring * jsstring :=
  match s with
  | c :: s' =>
      if is_digit c then let (d, r) := span_digits s' in (c :: d, r) else ([], s)
  | [] => ([], [])
  end.

Definition digits_value (d : jsstring) : Z :=
  fold_left (fun acc c => (10 * acc + Z.of_N (c - 48))%Z) d 0%Z.

(** The whole lexeme of a number: an optional minus sign; an integer part
    that is a single zero or starts with a nonzero digit; optionally a point
    and one or more digits; optionally [e] or [E], an optional sign and one
    or more digits. *)
Definition parse_number (lexeme : jsstring) : option (Z * Z) :=
  let (neg, r) :=
    match lexeme with
    | c :: r' => if N.eqb c (ch "-") then (true, r') else (false, lexeme)
    | [] => (false, lexeme)
    end in
  let (ip, r1) := span_digits r in
  let int_ok :=
    match ip with
    | [] => false
    | [_] => true
    | c :: _ => negb (N.eqb c (ch "0"))
    end in
  let frac :=
    match r1 with
    | c :: r' =>
        if N.eqb c (ch ".") then
          let (fp, r2) := span_digits r' in
          match fp with [] => None | _ => Some (fp, r2) end
        else Some ([], r1)
    | [] => Some ([], r1)
    end in
  match frac with
  | None => None
  | Some (fp, r2) =>
      let expo :=
        match r2 with
        | [] => Some 0%Z
        | c :: r' =>
            if N.eqb c (ch "e") || N.eqb c (ch "E") then
              let (eneg, r3) :=
                match r' with
                | s :: r'' =>
                    if N.eqb s (ch "-") then (true, r'')
                    else if N.eqb s (ch "+") then (false, r'')
                    else (false, r')
                | [] => (false, r')
                end in
              match span_digits r3 with
              | ((_ :: _) as ed, []) =>
                  Some (if eneg then (- digits_value ed)%Z else digits_value ed)
              | _ => None
              end
            else None
        end in
      match expo with
      | None => None
      | Some ex =>
          if int_ok then
            let m := digits_value (ip ++ fp) in
            Some (if neg then (- m)%Z else m, (ex - Z.of_nat (length fp))%Z)
          else None
      end
  end.

(** ** Lexer *)

Inductive lstate :=
| LDefault
| LString (acc : jsstring)                       (* units so far, reversed *)
| LEscape (acc : jsstring)                       (* after a backslash *)
| LUnicode (acc : jsstring) (n : nat) (code : N) (* [n] hex digits still due *)
| LNumber (acc : jsstring)                       (* lexeme so far, reversed *)
| LLiteral (rest : jsstring) (t : token).        (* rest of true/false/null *)

Definition is_json_space (c : char) : bool :=
  N.eqb c 32 || N.eqb c 9 || N.eqb c 10 || N.eqb c 13.

Definition is_number_char (c : char) : bool :=
  is_digit c || N.eqb c (ch "-") || N.eqb c (ch "+") || N.eqb c (ch ".")
  || N.eqb c (ch "e") || N.eqb c (ch "E").

Definition hex_value (c : char) : option N :=
  if is_digit c then Some (c - 48)%N
  else if N.leb 97 c && N.leb c 102 then Some (c - 87)%N
  else if N.leb 65 c && N.leb c 70 then Some (c - 55)%N
  else None.

Definition escape_char (c : char) : option char :=
  if N.eqb c 34 then Some 34%N            (* quotation mark *)
  else if N.eqb c 92 then Some 92%N       (* backslash *)
  else if N.eqb c 47 then Some 47%N       (* solidus *)
  else if N.eqb c 98 then Some 8%N        (* b: backspace *)
  else if N.eqb c 102 then Some 12%N      (* f: form feed *)
  else if N.eqb c 110 then Some 10%N      (* n: line feed *)
  else if N.eqb c 114 then Some 13%N      (* r: carriage return *)
  else if N.eqb c 116 then Some 9%N       (* t: tab *)
  else None.

(** A code unit read outside a string, a number and a literal. *)
Definition lex_default (toks : list token) (c : char) : option (lstate * list token) :=
  if is_json_space c then Some (LDefault, toks)
  else if N.eqb c (ch "{") then Some (LDefault, TLBrace :: toks)
  else if N.eqb c (ch "}") then Some (LDefault, TRBrace :: toks)
  else if N.eqb c (ch "[") then Some (LDefault, TLBracket :: toks)
  else if N.eqb c (ch "]") then Some (LDefault, TRBracket :: toks)
  else if N.eqb c (ch ":") then Some (LDefault, TColon :: toks)
  else if N.eqb c (ch ",") then Some (LDefault, TComma :: toks)
  else if N.eqb c 34 then Some (LString [], toks)
  else if is_digit c || N.eqb c (ch "-") then Some (LNumber [c], toks)
  else if N.eqb c (ch "t") then Some (LLiteral (str "rue") TTrue, toks)
  else if N.eqb c (ch "f") then Some (LLiteral (str "alse") TFalse, toks)
  else if N.eqb c (ch "n") then Some (LLiteral (str "ull") TNull, toks)
  else None.

(** One code unit; the tokens are accumulated in reverse. *)
Definition lex_step (st : lstate) (toks : list token) (c : char)
  : option (lstate * list token) :=
  match st with
  | LDefault => lex_default toks c
  | LString acc =>
      if N.eqb c 34 then Some (LDefault, TString (rev acc) :: toks)
      else if N.eqb c 92 then Some (LEscape acc, toks)
      else if N.ltb c 32 then None
      else Some (LString (c :: acc), toks)
  | LEscape acc =>
      if N.eqb c (ch "u") then Some (LUnicode acc 4 0%N, toks)
      else match escape_char c with
           | Some u => Some (LString (u :: acc), toks)
           | None => None
           end
  | LUnicode acc n code =>
      match hex_value c with
      | None => None
      | Some h =>
          let code' := (16 * code + h)%N in
          match n with
          | S ((S _) as n') => Some (LUnicode acc n' code', toks)
          | _ => Some (LString (code' :: acc), toks)
          end
      end
  | LNumber acc =>
      if is_number_char c then Some (LNumber (c :: acc), toks)
      else match parse_number (rev acc) with
           | Some (m, e) => lex_default (TNumber m e :: toks) c
           | None => None
           end
  | LLiteral rest t =>
      match rest with
      | [x] => if N.eqb c x then Some (LDefault, t :: toks) else None
      | x :: rest' => if N.eqb c x then Some (LLiteral rest' t, toks) else None
      | [] => None
      end
  end.

Fixpoint lex (st : lstate) (toks : list token) (s : jsstring) : option (list token) :=
  match s with
  | c :: s' =>
      match lex_step st toks c with
      | Some (st', toks') => lex st' toks' s'
      | None => None
      end
  | [] =>
      match st with
      | LDefault => Some (rev toks)
      | LNumber acc =>
          match parse_number (rev acc) with
          | Some (m, e) => Some (rev (TNumber m e :: toks))
          | None => None
          end
      | _ => None
      end
  end.

(** ** Parser *)

(** A container under construction: the elements of an array in reverse, or
    the properties of an object and the key whose value is being read. *)
Inductive frame :=
| FArr (elems : list value)
| FObj (props : list (jsstring * value)) (key : option jsstring).

Inductive mode :=
| MValue              (* a value is due *)
| MArrStart           (* after an opening bracket: a value or the closing one *)
| MObjStart           (* after an opening brace: a key or the closing one *)
| MKey                (* after a comma in an object: a key *)
| MColon              (* after a key: the colon *)
| MAfter              (* after a value in a container: a comma or the close *)
| MDone (v : value).  (* the document is complete *)

(** A value is complete: it is the document, or goes into the innermost
    open container. *)
Definition complete (v : value) (stack : list frame) : option (mode * list frame) :=
  match stack with
  | [] => Some (MDone v, [])
  | FArr es :: st => Some (MAfter, FArr (v :: es) :: st)
  | FObj ps (Some k) :: st => Some (MAfter, FObj (set_prop k v ps) None :: st)
  | FObj _ None :: _ => None
  end.

Definition start_value (t : token) (stack : list frame) : option (mode * list frame) :=
  match t with
  | TLBracket => Some (MArrStart, FArr [] :: stack)
  | TLBrace => Some (MObjStart, FObj [] None :: stack)
  | TString s => complete (VStr s) stack
  | TNumber m e => complete (VNum m e) stack
  | TTrue => complete (VBool true) stack
  | TFalse => complete (VBool false) stack
  | TNull => complete VNull stack
  | _ => None
  end.

Definition close_array (stack : list frame) : option (mode * list frame) :=
  match stack with
  | FArr es :: st => complete (VArr (rev es)) st
  | _ => None
  end.

Definition close_object (stack : list frame) : option (mode * list frame) :=
  match stack with
  | FObj ps None :: st => complete (VObj ps) st
  | _ => None
  end.

Definition read_key (t : token) (stack : list frame) : option (mode * list frame) :=
  match t, stack with
  | TString k, FObj ps None :: st => Some (MColon, FObj ps (Some k) :: st)
  | _, _ => None
  end.

Definition parse_step (m : mode) (stack : list frame) (t : token)
  : option (mode * list frame) :=
  match m with
  | MValue => start_value t stack
  | MArrStart =>
      match t with TRBracket => close_array stack | _ => start_value t stack end
  | MObjStart =>
      match t with TRBrace => close_object stack | _ => read_key t stack end
  | MKey => read_key t stack
  | MColon => match t with TColon => Some (MValue, stack) | _ => None end
  | MAfter =>
      match t, stack with
      | TComma, FArr _ :: _ => Some (MValue, stack)
      | TComma, FObj _ _ :: _ => Some (MKey, stack)
      | TRBracket, _ => close_array stack
      | TRBrace, _ => close_object stack
      | _, _ => None
      end
  | MDone _ => None
  end.

Fixpoint parse_tokens (m : mode) (stack : list frame) (ts : list token) : option value :=
  match ts with
  | t :: ts' =>
      match parse_step m stack t with
      | Some (m', stack') => parse_tokens m' stack' ts'
      | None => None
      end
  | [] => match m with MDone v => Some v | _ => None end
  end.

(** [JSON.parse(text)]: [None] stands for the SyntaxError it throws. *)
Definition parse (text : jsstring) : option value :=
  match lex LDefault [] text with
  | Some ts => parse_tokens MValue [] ts
  | None => None
  end.

(** ** [JSON.stringify] *)

Definition hex_digit (n : N) : char := if N.ltb n 10 then (48 + n)%N else (87 + n)%N.

Definition hex4 (c : char) : jsstring :=
  [hex_digit (c / 4096 mod 16); hex_digit (c / 256 mod 16);
   hex_digit (c / 16 mod 16); hex_digit (c mod 16)]%N.

Definition is_high_surrogate (c : char) : bool := N.leb 55296 c && N.leb c 56319.
Definition is_low_surrogate (c : char) : bool := N.leb 56320 c && N.leb c 57343.

Definition escaped (c : char) : jsstring := str "\u" ++ hex4 c.

(** The code units of a quoted string: the short escapes, the other
    control characters and the lone surrogates in hexadecimal. *)
Fixpoint quote_units (s : jsstring) : jsstring :=
  match s with
  | [] => []
  | c :: s' =>
      if N.eqb c 8 then str "\b" ++ quote_units s'
      else if N.eqb c 9 then str "\t" ++ quote_units s'
      else if N.eqb c 10 then str "\n" ++ quote_units s'
      else if N.eqb c 12 then str "\f" ++ quote_units s'
      else if N.eqb c 13 then str "\r" ++ quote_units s'
      else if N.eqb c 34 then 92%N :: 34%N :: quote_units s'
      else if N.eqb c 92 then 92%N :: 92%N :: quote_units s'
      else if N.ltb c 32 then escaped c ++ quote_units s'
      else if is_high_surrogate c then
        match s' with
        | d :: s'' =>
            if is_low_surrogate d then c :: d :: quote_units s''
            else escaped c ++ quote_units s'
        | [] => escaped c
        end
      else if is_low_surrogate c then escaped c ++ quote_units s'
      else c :: quote_units s'
  end.

Definition quote (s : jsstring) : jsstring := 34%N :: quote_units s ++ [34%N].

Section Stringify.

Variable number_text : Z -> Z -> jsstring.

(** The indentation unit; empty for the compact form. *)
Variable gap : jsstring.

(** A bracketed list of parts at the indentation [indent]. *)
Definition wrap (opening closing : char) (indent : jsstring) (parts : list jsstring)
  : jsstring :=
  match parts, gap with
  | [], _ => [opening; closing]
  | _, [] => opening :: join [ch ","] parts ++ [closing]
  | _, _ =>
      opening :: LF :: (indent ++ gap)
      ++ join (ch "," :: LF :: indent ++ gap) parts
      ++ LF :: indent ++ [closing]
  end.

Definition member (key value : jsstring) : jsstring :=
  quote key ++ match gap with [] => [ch ":"] | _ => [ch ":"; ch " "] end ++ value.

(** SerializeJSONProperty: [None] is [undefined]. *)
Fixpoint serialize (indent : jsstring) (v : value) : option jsstring :=
  match v with
  | VUndefined => None
  | VNull => Some (str "null")
  | VBool true => Some (str "true")
  | VBool false => Some (str "false")
  | VNum m e => Some (if num_is_finite m e then number_text m e else str "null")
  | VStr s => Some (quote s)
  | VArr elems =>
      Some (wrap (ch "[") (ch "]") indent
              ((fix items (l : list value) : list jsstring :=
                  match l with
                  | [] => []
                  | x :: l' =>
                      match serialize (indent ++ gap) x with
                      | Some t => t
                      | None => str "null"
                      end :: items l'
                  end) elems))
  | VObj props =>
      let texts :=
        (fix members (l : list (jsstring * value)) : list (jsstring * option jsstring) :=
           match l with
           | [] => []
           | (k, x) :: l' => (k, serialize (indent ++ gap) x) :: members l'
           end) props in
      Some (wrap (ch "{") (ch "}") indent
              (flat_map (fun kt =>
                           match snd kt with
                           | Some t => [member (fst kt) t]
                           | None => []
                           end) (own_entries texts)))
  end.

End Stringify.

(** [JSON.stringify( v, null, n )] for [n] up to ten. *)
Definition stringify (number_text : Z -> Z -> jsstring) (n : nat) (v : value)
  : option jsstring :=
  serialize number_text (repeat 32%N n) [] v.


End JSON.


(* ===================================================================== *)
(** * [RalphLoop.extractJson] *)
(* ===================================================================== *)

Module Extract.
Import JS.

Definition fence : jsstring := str "```".

(** Capture group 1 of the fence pattern (three backquotes, an optional
    [json] tag, greedy white space, a lazy group, three backquotes) at its
    leftmost match.  The match starts at the first fence; the tag and the
    white space hold no backquote, so backtracking into them finds no other
    closing fence, and the lazy group ends at the first fence after them.
    When there is none, no later start matches either. *)
Definition match_fence (s : jsstring) : option jsstring :=
  match find_sub fence s with
  | None => None
  | Some (_, r) =>
      let r1 := match strip_prefix (str "json") r with Some r' => r' | None => r end in
      match find_sub fence (drop_spaces r1) with
      | Some (body, _) => Some body
      | None => None
      end
  end.

(** The prefix of [s] through the last occurrence of [c]. *)
Fixpoint through_last (c : char) (s : jsstring) : option jsstring :=
  match s with
  | [] => None
  | x :: s' =>
      match through_last c s' with
      | Some r => Some (x :: r)
      | None => if N.eqb x c then Some [x] else None
      end
  end.

(** Capture group 1 of the object pattern (an opening brace, a greedy run
    of any code units, a closing brace): the match starts at the first
    opening brace and runs to the last closing brace after it. *)
Definition match_object (s : jsstring) : option jsstring :=
  match find_sub [ch "{"] s with
  | None => None
  | Some (_, r) =>
      match through_last (ch "}") r with
      | Some body => Some (ch "{" :: body)
      | None => None
      end
  end.

(** [content.find( ( c ) => c.type === 'text' )] on the elements of an
    array: the callback throws on a [null] element it reaches. *)
Fixpoint find_text (content : list value) : completion value :=
  match content with
  | [] => Normal VUndefined
  | c :: cs =>
      let* ty := get c (str "type") in
      if is_str ty (str "text") then Normal c else find_text cs
  end.

(** The body of the [try] block for one line: the text it pushes, if any. *)
Definition line_text (line : jsstring) : completion (option value) :=
  match JSON.parse line with
  | None => Throw SyntaxError
  | Some parsed =>
      let* ty := get parsed (str "type") in
      if is_str ty (str "assistant") then
        let content :=
          or_else (get_opt (get_opt parsed (str "message")) (str "content")) (VArr []) in
        match content with
        | VArr cs =>
            let* textContent := find_text cs in
            let text := get_opt textContent (str "text") in
            Normal (if truthy text then Some text else None)
        | _ => Throw TypeError
        end
      else Normal None
  end.

(** [try { ... } catch { }]: a line that throws pushes nothing. *)
Definition pushed (line : jsstring) : list value :=
  match line_text line with
  | Normal (Some t) => [t]
  | _ => []
  end.

(** [lines.forEach( ... assistantTexts.push( ... ) )] *)
Definition assistantTexts (lines : list jsstring) : list value :=
  fold_left (fun acc line => acc ++ pushed line) lines [].

Definition lines_of (text : jsstring) : list jsstring := split LF (trim text).

Definition isStreamJson (text : jsstring) : bool :=
  (1 <? length (lines_of text))%nat
  && startsWith (hd [] (lines_of text)) (dq "{'type':").

(** The value of [contentText] after the stream branch. *)
Definition contentText (text : jsstring) : value :=
  if isStreamJson text then List.last (assistantTexts (lines_of text)) (VStr text)
  else VStr text.

Record extraction := { json : value; error : option exn }.

(** [jsonStr] after the two matches: the body of the fence if there is
    one, then the object in it if there is one. *)
Definition locate (candidate : jsstring) : jsstring :=
  let jsonStr := match match_fence candidate with Some b => b | None => candidate end in
  match match_object jsonStr with Some o => o | None => jsonStr end.

(** From the candidate text on: fence, object, trim, parse. *)
Definition parse_candidate (candidate : jsstring) : extraction :=
  match JSON.parse (trim (locate candidate)) with
  | Some parsed => {| json := parsed; error := None |}
  | None => {| json := VNull; error := Some SyntaxError |}
  end.

(** [extractJson( { text } )].  The last assistant text is used as it is:
    when it is not a string, [contentText.match] is not a function and the
    call throws outside the [try]. *)
Definition extractJson (text : jsstring) : completion extraction :=
  match contentText text with
  | VStr candidate => Normal (parse_candidate candidate)
  | _ => Throw TypeError
  end.

(** ** The specification's reading, for comparison *)





End Extract.

(* ===================================================================== *)
(** * [Print]: the stream buffer and the rows of the progress table *)
(* ===================================================================== *)

Module Print.
Import JS.

(** The callback of [completeLines.forEach]: a blank line and a line that
    is not JSON push nothing. *)
Definition line_events (line : jsstring) : list value :=
  match trim line with
  | [] => []
  | _ =>
      match JSON.parse line with
      | Some event => [event]
      | None => []
      end
  end.

(** [Print.parseStreamChunk( { chunk, buffer } )]: the events of the lines
    that are complete, and the rest as the new buffer. *)
Definition parseStreamChunk (chunk buffer : jsstring) : list value * jsstring :=
  let lines := split LF (buffer ++ chunk) in
  (flat_map line_events (removelast lines), List.last lines []).

Section Stream.

(** [data.toString()]: the runtime's UTF-8 decoder, applied to one chunk of
    bytes.  Bytes that are no complete character of their own come out as
    replacement characters, so a chunk that ends inside a character and
    the next one do not decode to the text of the two together. *)
Variable decode : list Byte.byte -> jsstring.

(** The stream buffer of [callClaude] over the chunks of the output as the
    process delivers them, each decoded on its own, from the buffer it
    holds so far (empty at the start): the events of all chunks in order,
    and the buffer left. *)
Fixpoint feed (chunks : list (list Byte.byte)) (buffer : jsstring)
  : list value * jsstring :=
  match chunks with
  | [] => ([], buffer)
  | chunk :: rest =>
      let (events, buffer') := parseStreamChunk (decode chunk) buffer in
      let (more, final) := feed rest buffer' in
      (events ++ more, final)
  end.

End Stream.

(** ** The rows of the progress table

    What is written to the terminal is not modelled; what is modelled is
    where drawing a row throws. *)

(** [#renderProgressBar( { percentage, width } )] from its second line on,
    for the number [filled] of cells that its first line computes:
    [repeat] throws a RangeError for a negative count, and the count of the
    empty cells is the width less the filled ones. *)
Definition renderProgressBar (filled width : Z) : completion unit :=
  if Z.ltb filled 0 then Throw RangeError
  else if Z.ltb (width - filled) 0 then Throw RangeError
  else Normal tt.

(** [formatProgress( { percentage, tokens, contextWindow } )]: the bar of
    width 30 that its text starts with; the numbers after it are printed
    without a throw. *)
Definition formatProgress (filled : Z) : completion unit :=
  renderProgressBar filled 30.

(** [notes.length === 0] *)
Definition is_zero (v : value) : bool :=
  match v with VNum m e => num_is_zero m e | _ => false end.

Section Rows.

Variable number_text : Z -> Z -> jsstring.

(** [tableRow( { label, value } )]: [String( value )] may throw. *)
Definition tableRow (value : value) : completion unit :=
  let* valueStr := to_text number_text value in
  Normal tt.

(** [tableTaskFailed( { percentage, tokens, contextWindow, message } )] *)
Definition tableTaskFailed (filled : Z) (message : value) : completion unit :=
  let* progress := formatProgress filled in
  if truthy message then tableRow message else Normal tt.

(** [tableTaskDone( { ..., commitHash, changedFiles } )]: [substring] is a
    method of a text only. *)
Definition tableTaskDone (filled : Z) (commitHash changedFiles : value)
  : completion unit :=
  let* progress := formatProgress filled in
  let* commit :=
    if truthy commitHash then
      match commitHash with
      | VStr s => Normal (firstn 7 s)
      | _ => Throw TypeError
      end
    else Normal [] in
  match changedFiles with
  | VUndefined => Normal tt
  | _ =>
      let* filesText := to_text number_text changedFiles in
      Normal tt
  end.

(** [tableConversionUpdate( { percentage, tokens, contextWindow, status,
    spinnerFrame } )], for a status and a frame that are texts. *)
Definition tableConversionUpdate (filled : Z) : completion unit :=
  let* progress := formatProgress filled in
  Normal tt.

(** The callback of [notes.forEach] in [criticalNotes]: the parameter is
    destructured, which throws for [null], and both parts are printed. *)
Definition print_note (item : value) : completion unit :=
  let* type := get item (str "type") in
  let* note := get item (str "note") in
  let* label := to_text number_text type in
  let* text := to_text number_text note in
  Normal tt.

Fixpoint print_notes (notes : list value) : completion unit :=
  match notes with
  | [] => Normal tt
  | item :: rest =>
      let* here := print_note item in
      print_notes rest
  end.

(** [criticalNotes( { notes } )]: only an array has [forEach]. *)
Definition criticalNotes (notes : value) : completion unit :=
  if negb (truthy notes) || is_zero (length_of notes) then Normal tt
  else
    match notes with
    | VArr items => print_notes items
    | _ => Throw TypeError
    end.

End Rows.

End Print.

(* ===================================================================== *)
(** * [RalphLoop.buildPrompt] *)
(* ===================================================================== *)

Module Prompt.
Import JS.

Definition dollar : char := ch "$".

(** GetSubstitution for a pattern that is a text, which has no capture
    groups: in the replacement, a dollar sign followed by a dollar sign,
    an ampersand, a backquote or an apostrophe stands for a dollar sign, the
    matched text, the text before the match and the text after it; every
    other code unit stands for itself. *)
Fixpoint getSubstitution (matched before after replacement : jsstring) : jsstring :=
  match replacement with
  | [] => []
  | c :: rest =>
      if N.eqb c dollar then
        match rest with
        | d :: rest' =>
            if N.eqb d dollar
            then dollar :: getSubstitution matched before after rest'
            else if N.eqb d (ch "&")
            then matched ++ getSubstitution matched before after rest'
            else if N.eqb d (ch "`")
            then before ++ getSubstitution matched before after rest'
            else if N.eqb d (ch "'")
            then after ++ getSubstitution matched before after rest'
            else c :: getSubstitution matched before after rest
        | [] => [c]
        end
      else c :: getSubstitution matched before after rest
  end.

(** [string.replaceAll( search, replacement )] for a [search] that is not
    empty, from a position on: [before] is the text up to the position,
    [skip] the number of code units of a match still to pass over.  The
    search goes on after each match, so the matches do not overlap. *)
Fixpoint replace_from (search replacement before : jsstring) (skip : nat) (s : jsstring)
  : jsstring :=
  match s with
  | [] => []
  | c :: s' =>
      match skip with
      | S n => replace_from search replacement (before ++ [c]) n s'
      | O =>
          match strip_prefix search s with
          | Some after =>
              getSubstitution search before after replacement
              ++ replace_from search replacement (before ++ [c]) (length search - 1) s'
          | None => c :: replace_from search replacement (before ++ [c]) 0 s'
          end
      end
  end.

Definition replaceAll (search replacement s : jsstring) : jsstring :=
  replace_from search replacement [] 0 s.

(** The placeholder of a key: the key in double braces. *)
Definition placeholder (key : jsstring) : jsstring := str "{{" ++ key ++ str "}}".

Section Text.

Variable number_text : Z -> Z -> jsstring.

(** The callback of [forEach], entry after entry: [replaceAll] converts
    the replacement to a text before it searches, and a conversion that
    throws ends the loop. *)
Fixpoint replace_each (prompt : jsstring) (entries : list (jsstring * value))
  : completion jsstring :=
  match entries with
  | [] => Normal prompt
  | (key, value) :: rest =>
      let* replacement := to_text number_text value in
      replace_each (replaceAll (placeholder key) replacement prompt) rest
  end.

(** [buildPrompt( { template, replacements } )]: the keys are taken in the
    order of [Object.entries]. *)
Definition buildPrompt (template : jsstring) (replacements : list (jsstring * value))
  : completion jsstring :=
  replace_each template (own_entries replacements).

End Text.

End Prompt.


(* ===================================================================== *)
(** * [RalphLoop.findNextTask] *)
(* ===================================================================== *)

Module EXIT_CODES.
Definition SUCCESS : Z := 0.
Definition INIT_FAILED : Z := 1.
Definition SCHEMA_INVALID : Z := 2.
Definition TASK_FAILED : Z := 3.
Definition TASK_BLOCKED : Z := 4.
Definition NETWORK_ERROR : Z := 5.
Definition CLAUDE_ERROR : Z := 6.
Definition FILE_NOT_FOUND : Z := 7.
Definition INVALID_ARGS : Z := 8.
Definition UNKNOWN : Z := 99.
End EXIT_CODES.

Module Resolver.

(** A subtask (user story) of the work item document, with the fields the
    engine reads. *)
Record Subtask := {
  id : string;
  title : string;
  status : string;
  dependencies : list string;
  passes : bool;
  notes : string;
  commits : list string
}.

(** The callback of [userStories.find]. *)
Definition eligible (completedSet : gset string) (story : Subtask) : bool :=
  if bool_decide (id story ∈ completedSet) then false
  else if String.eqb (status story) "completed" || String.eqb (status story) "failed"
  then false
  else forallb (fun depId => bool_decide (depId ∈ completedSet)) (dependencies story).

(** [findNextTask( { userStories, completedIds } )]: [None] is [null]. *)
Definition findNextTask (userStories : list Subtask) (completedIds : list string)
  : option Subtask :=
  let completedSet : gset string := list_to_set completedIds in
  List.find (eligible completedSet) userStories.

(** The three conditions of the contract, as propositions: (a) the id is
    not completed, (b) the status is neither [completed] nor [failed],
    (c) every dependency is completed. *)
Definition qualifies (completedIds : list string) (story : Subtask) : Prop :=
  (id story ∉ completedIds)
  ∧ status story ≠ "completed" ∧ status story ≠ "failed"
  ∧ ∀ depId, depId ∈ dependencies story → depId ∈ completedIds.

Definition pending (i : string) (deps : list string) : Subtask :=
  {| id := i; title := i; status := "pending"; dependencies := deps;
     passes := false; notes := EmptyString; commits := [] |}.

End Resolver.

(* ===================================================================== *)
(** * [RalphLoop.run]: the run and resume state machine *)
(* ===================================================================== *)

Module Engine.
Import Resolver.

(** The work item document ([prd.json]). *)
Record PRD := {
  prd_id : string;
  prdId : option string;
  prd_title : string;
  branchName : string;
  workingDir : string;
  targetDirs : list string;
  userStories : list Subtask
}.

Record LastError := {
  taskId : string;
  message : string;
  timestamp : string
}.

(** The progress record ([progress.json]).  [templateSet] and [configPath]
    are [None] where the document has [null] or no such key. *)
Record Progress := {
  progress_prdId : string;
  startedAt : string;
  completedAt : option string;
  completedTasks : list string;
  currentTask : option string;
  progress_status : string;
  totalTasks : nat;
  lastError : option LastError;
  summary : option string;
  templateSet : option string;
  configPath : option string
}.

(** The state directory of one work item: whether it exists, and the two
    documents as [JSON.parse] reads them ([None]: no file, or no valid
    document in it). *)
Record Store := {
  dirExists : bool;
  prdFile : option PRD;
  progressFile : option Progress
}.

Inductive phase := Conversion | Task.

(** What the engine does to the outside, in order. *)
Inductive event :=
| Saved (prd : PRD) (progress : Progress)           (* saveState *)
| Invoked (ph : phase) (task : option string).      (* callClaude *)

Record World := {
  store : Store;
  trace : list event;       (* latest first *)
  clock : nat               (* how often the time was read *)
}.

(** What [executeTask] returns for one subtask, or the exception it
    throws. *)
Record TaskResult := {
  success : bool;
  updatedTask : option Subtask;
  exitCode : Z
}.

(** [Threw e invoked]: [executeTask] threw, before the agent was invoked (a
    template or the set configuration failed to load) or after it. *)
Inductive TaskOutcome :=
| Returned (r : TaskResult)
| Threw (e : JS.exn) (invoked : bool).

(** What the conversion phase of [init] comes to: the work item document
    cannot be read; a template or the set configuration fails to load; the
    agent was invoked and the phase failed with an exit code; or the agent
    was invoked and a valid work item came out of it. *)
Inductive ConversionOutcome :=
| PrdUnreadable
| LoadFailed (e : JS.exn)
| ConversionFailed (code : Z)
| Converted (prd : PRD).

(** The template set and configuration path a run works with. *)
Record Active := {
  activeTemplateSet : string;
  activeConfigPath : option string
}.

(** The outside world of one run: the clock, the conversion, and the
    outcome of the [n]-th subtask execution of the run.  [execute] is the
    typed view of [executeTask]: what it returns depends on the agent. *)
Record Env := {
  now : nat -> string;
  conversion : ConversionOutcome;
  execute : nat -> Active -> Subtask -> PRD -> Progress -> TaskOutcome
}.

Record Request := {
  dryRun : bool;
  req_configPath : option string;
  req_templateSet : string
}.

Inductive Outcome :=
| Exit (code : Z)
| Rejected (e : JS.exn)
| OutOfFuel.

(** ** State store *)

Definition checkExistingProject (s : Store) : bool * option PRD * option Progress :=
  if dirExists s then
    match prdFile s with
    | Some prd => (true, Some prd, progressFile s)
    | None => (true, None, None)
    end
  else (false, None, None).

Definition saveState (prd : PRD) (progress : Progress) (w : World) : World :=
  {| store := {| dirExists := true; prdFile := Some prd; progressFile := Some progress |};
     trace := Saved prd progress :: trace w;
     clock := clock w |}.

Definition mkdir (w : World) : World :=
  {| store := {| dirExists := true;
                 prdFile := prdFile (store w);
                 progressFile := progressFile (store w) |};
     trace := trace w;
     clock := clock w |}.

Definition invoke (ph : phase) (task : option string) (w : World) : World :=
  {| store := store w; trace := Invoked ph task :: trace w; clock := clock w |}.

(** [new Date().toISOString()] *)
Definition read_clock (env : Env) (w : World) : string * World :=
  (now env (clock w),
   {| store := store w; trace := trace w; clock := S (clock w) |}).

(** ** Progress updates *)

Definition set_status (st : string) (p : Progress) : Progress :=
  {| progress_prdId := progress_prdId p; startedAt := startedAt p;
     completedAt := completedAt p; completedTasks := completedTasks p;
     currentTask := currentTask p; progress_status := st;
     totalTasks := totalTasks p; lastError := lastError p; summary := summary p;
     templateSet := templateSet p; configPath := configPath p |}.

Definition set_currentTask (t : option string) (p : Progress) : Progress :=
  {| progress_prdId := progress_prdId p; startedAt := startedAt p;
     completedAt := completedAt p; completedTasks := completedTasks p;
     currentTask := t; progress_status := progress_status p;
     totalTasks := totalTasks p; lastError := lastError p; summary := summary p;
     templateSet := templateSet p; configPath := configPath p |}.

Definition push_completed (i : string) (p : Progress) : Progress :=
  {| progress_prdId := progress_prdId p; startedAt := startedAt p;
     completedAt := completedAt p; completedTasks := completedTasks p ++ [i];
     currentTask := currentTask p; progress_status := progress_status p;
     totalTasks := totalTasks p; lastError := lastError p; summary := summary p;
     templateSet := templateSet p; configPath := configPath p |}.

Definition set_lastError (e : LastError) (p : Progress) : Progress :=
  {| progress_prdId := progress_prdId p; startedAt := startedAt p;
     completedAt := completedAt p; completedTasks := completedTasks p;
     currentTask := currentTask p; progress_status := progress_status p;
     totalTasks := totalTasks p; lastError := Some e; summary := summary p;
     templateSet := templateSet p; configPath := configPath p |}.

Definition set_completion (at_ : string) (sum : string) (p : Progress) : Progress :=
  {| progress_prdId := progress_prdId p; startedAt := startedAt p;
     completedAt := Some at_; completedTasks := completedTasks p;
     currentTask := currentTask p; progress_status := progress_status p;
     totalTasks := totalTasks p; lastError := lastError p; summary := Some sum;
     templateSet := templateSet p; configPath := configPath p |}.

Definition set_userStories (l : list Subtask) (d : PRD) : PRD :=
  {| prd_id := prd_id d; prdId := prdId d; prd_title := prd_title d;
     branchName := branchName d; workingDir := workingDir d;
     targetDirs := targetDirs d; userStories := l |}.

(** ** Initialization *)

Record InitResult := {
  init_success : bool;
  init_exitCode : Z;
  init_state : option (PRD * Progress)
}.

Definition init_failed (code : Z) : InitResult :=
  {| init_success := false; init_exitCode := code; init_state := None |}.

(** The progress object [init] creates. *)
Definition initial_progress (req : Request) (prd : PRD) (startedAt : string) : Progress :=
  {| progress_prdId := prd_id prd;
     startedAt := startedAt;
     completedAt := None;
     completedTasks := [];
     currentTask := None;
     progress_status := "initialized";
     totalTasks := length (userStories prd);
     lastError := None;
     summary := None;
     templateSet := Some (req_templateSet req);
     configPath := req_configPath req |}.

(** [init]: the state directory is created before the agent is invoked;
    the two documents are written once, after a valid work item came out. *)
Definition init (env : Env) (req : Request) (w : World) : JS.completion InitResult * World :=
  match conversion env with
  | PrdUnreadable => (JS.Normal (init_failed EXIT_CODES.FILE_NOT_FOUND), w)
  | LoadFailed e => (JS.Throw e, w)
  | ConversionFailed code =>
      (JS.Normal (init_failed code), invoke Conversion None (mkdir w))
  | Converted prd =>
      let w1 := invoke Conversion None (mkdir w) in
      let (t, w2) := read_clock env w1 in
      let progress := initial_progress req prd t in
      (JS.Normal {| init_success := true; init_exitCode := EXIT_CODES.SUCCESS;
                    init_state := Some (prd, progress) |},
       saveState prd progress w2)
  end.

(** ** The main loop *)

Record LoopState := {
  prd : PRD;
  progress : Progress;
  loop_exitCode : Z;
  iteration : nat;
  active : Active
}.

Inductive Step :=
| Continue (s : LoopState) (w : World)
| Break (s : LoopState) (w : World)
| Raise (e : JS.exn) (s : LoopState) (w : World).

(** [every( ( s ) => s.status === 'completed' || completedTasks.includes( s.id ) )] *)
Definition allDone (stories : list Subtask) (completed : list string) : bool :=
  forallb (fun s => String.eqb (status s) "completed" || bool_decide (id s ∈ completed))
          stories.

Definition summary_text (d : PRD) (p : Progress) : string :=
  let allCommits := flat_map commits (userStories d) in
  ("All " +:+ pretty (totalTasks p) +:+ " tasks completed. "
   +:+ pretty (length allCommits) +:+ " commits across "
   +:+ pretty (length (targetDirs d)) +:+ " repos.")%string.

(** The branch of the loop body taken when no subtask is eligible. *)
Definition no_next_task (env : Env) (s : LoopState) (w : World) : Step :=
  if allDone (userStories (prd s)) (completedTasks (progress s)) then
    let (t, w1) := read_clock env w in
    let p1 := set_status "completed" (progress s) in
    let p2 := set_completion t (summary_text (prd s) p1) p1 in
    let s' := {| prd := prd s; progress := p2;
                 loop_exitCode := loop_exitCode s; iteration := iteration s;
                 active := active s |} in
    Break s' (saveState (prd s) p2 w1)
  else
    let p1 := set_status "blocked" (progress s) in
    let s' := {| prd := prd s; progress := p1;
                 loop_exitCode := loop_exitCode s; iteration := iteration s;
                 active := active s |} in
    Break s' (saveState (prd s) p1 w).

(** [if( updatedTask ) { prd.userStories[ taskIndex ] = updatedTask }];
    [None] for [taskIndex] is the [-1] of [findIndex], which names no
    element. *)
Definition write_back (updatedTask : option Subtask) (taskIndex : option nat) (d : PRD)
  : PRD :=
  match updatedTask, taskIndex with
  | Some u, Some i => set_userStories (<[i := u]> (userStories d)) d
  | _, _ => d
  end.

(** The rest of the loop body, for the subtask the resolver returned. *)
Definition run_task (env : Env) (nextTask : Subtask) (s : LoopState) (w : World) : Step :=
  let taskIndex := fst <$> list_find (fun u => id u = id nextTask) (userStories (prd s)) in
  let p1 := set_currentTask (Some (id nextTask)) (progress s) in
  let w1 := saveState (prd s) p1 w in
  let w2 := invoke Task (Some (id nextTask)) w1 in
  match execute env (iteration s) (active s) nextTask (prd s) p1 with
  | Threw e invoked =>
      Raise e {| prd := prd s; progress := p1;
                 loop_exitCode := loop_exitCode s; iteration := iteration s;
                 active := active s |}
            (if invoked then w2 else w1)
  | Returned r =>
      let d1 := write_back (updatedTask r) taskIndex (prd s) in
      if success r then
        let p2 := set_currentTask None (push_completed (id nextTask) p1) in
        Continue {| prd := d1; progress := p2;
                    loop_exitCode := loop_exitCode s; iteration := S (iteration s);
                    active := active s |}
                 (saveState d1 p2 w2)
      else
        let p2 := set_currentTask None p1 in
        let p3 := set_status
                    (if Z.eqb (exitCode r) EXIT_CODES.TASK_BLOCKED then "blocked" else "paused")
                    p2 in
        let (t, w3) := read_clock env w2 in
        let msg :=
          match updatedTask r with
          | Some u => if String.eqb (notes u) EmptyString then "Task failed" else notes u
          | None => "Task failed"
          end in
        let p4 := set_lastError {| taskId := id nextTask; message := msg; timestamp := t |} p3 in
        Break {| prd := d1; progress := p4;
                 loop_exitCode := exitCode r; iteration := S (iteration s);
                 active := active s |}
              (saveState d1 p4 w3)
  end.

(** One pass through the body of [while( continueLoop )]. *)
Definition loop_body (env : Env) (s : LoopState) (w : World) : Step :=
  match findNextTask (userStories (prd s)) (completedTasks (progress s)) with
  | None => no_next_task env s w
  | Some nextTask => run_task env nextTask s w
  end.

Fixpoint loop (env : Env) (fuel : nat) (s : LoopState) (w : World) : Outcome * World :=
  match fuel with
  | O => (OutOfFuel, w)
  | S fuel' =>
      match loop_body env s w with
      | Continue s' w' => loop env fuel' s' w'
      | Break s' w' => (Exit (loop_exitCode s'), w')
      | Raise e _ w' => (Rejected e, w')
      end
  end.

(** [progress.templateSet] is truthy. *)
Definition pinned (p : Progress) : option string :=
  match templateSet p with
  | Some name => if String.eqb name EmptyString then None else Some name
  | None => None
  end.

(** The guard of the resume branch: the request names a set that is neither
    the default nor the pinned one. *)
Definition changes_set (req : Request) (name : string) : bool :=
  negb (String.eqb (req_templateSet req) "default")
  && negb (String.eqb (req_templateSet req) name).

(** What [run] does before the loop: an early return, or the state the loop
    starts from. *)
Inductive Prelude :=
| Return (o : Outcome) (w : World)
| Enter (s : LoopState) (w : World).

Definition start_loop (a : Active) (d : PRD) (p : Progress) (w : World) : Prelude :=
  let p1 := set_status "running" p in
  Enter {| prd := d; progress := p1; loop_exitCode := EXIT_CODES.SUCCESS;
           iteration := 0; active := a |}
        (saveState d p1 w).

(** [progress.configPath || configPath] *)
Definition or_path (a b : option string) : option string :=
  match a with
  | Some x => if String.eqb x EmptyString then b else a
  | None => b
  end.

Definition requested (req : Request) : Active :=
  {| activeTemplateSet := req_templateSet req; activeConfigPath := req_configPath req |}.

(** The set and path used on resume: the pinned ones when a set is pinned. *)
Definition resumed (req : Request) (p : Progress) : Active :=
  match pinned p with
  | Some name =>
      {| activeTemplateSet := name;
         activeConfigPath := or_path (configPath p) (req_configPath req) |}
  | None => requested req
  end.

Definition prelude (env : Env) (req : Request) (w : World) : Prelude :=
  match checkExistingProject (store w) with
  | (true, Some existingPrd, Some existingProgress) =>
      let rejected :=
        match pinned existingProgress with
        | Some name => changes_set req name
        | None => false
        end in
      if rejected then Return (Exit EXIT_CODES.INVALID_ARGS) w
      else if String.eqb (progress_status existingProgress) "completed"
      then Return (Exit EXIT_CODES.SUCCESS) w
      else if dryRun req then Return (Exit EXIT_CODES.SUCCESS) w
      else start_loop (resumed req existingProgress) existingPrd existingProgress w
  | _ =>
      match init env req w with
      | (JS.Throw e, w1) => Return (Rejected e) w1
      | (JS.Normal r, w1) =>
          match init_success r, init_state r with
          | true, Some (d, p) =>
              if dryRun req then Return (Exit EXIT_CODES.SUCCESS) w1
              else start_loop (requested req) d p w1
          | _, _ => Return (Exit (init_exitCode r)) w1
          end
      end
  end.

(** [run( { prdPath, workingDir, dryRun, configPath, templateSet } )] *)
Definition run (env : Env) (fuel : nat) (req : Request) (w : World) : Outcome * World :=
  match prelude env req w with
  | Return o w' => (o, w')
  | Enter s w' => loop env fuel s w'
  end.

(** ** Reachable states *)

(** The ids of the subtasks of the work item. *)
Definition subtask_ids (d : PRD) : list string := map id (userStories d).

(** One pass through the loop body takes [s] to [s']: the loop goes on,
    stops, or [executeTask] throws. *)
Definition passes_to (env : Env) (s : LoopState) (w : World)
  (s' : LoopState) (w' : World) : Prop :=
  loop_body env s w = Continue s' w'
  \/ loop_body env s w = Break s' w'
  \/ exists e, loop_body env s w = Raise e s' w'.

(** The store holds the documents of the state. *)
Definition persisted (s : LoopState) (w : World) : Prop :=
  store w = {| dirExists := true; prdFile := Some (prd s);
               progressFile := Some (progress s) |}.

(** The states of the loop the engine can be in, over any number of runs,
    when every run works in an outside world that satisfies [P]: a run
    starts from a progress record with no completed subtask; the loop body
    is passed once more; or a later run resumes from what was saved. *)
Inductive reachable (P : Env -> Prop) : LoopState -> World -> Prop :=
| reach_start a d p w s w' :
    completedTasks p = [] ->
    start_loop a d p w = Enter s w' ->
    reachable P s w'
| reach_pass env s w s' w' :
    P env -> reachable P s w ->
    passes_to env s w s' w' ->
    reachable P s' w'
| reach_resume env req s w s' w' :
    P env -> reachable P s w ->
    prelude env req w = Enter s' w' ->
    reachable P s' w'.

(** The agent hands back the subtask it was given: a structured result
    that is written back carries the id of the subtask it replaces. *)
Definition keeps_ids (env : Env) : Prop :=
  forall n a task d p r u,
    execute env n a task d p = Returned r ->
    updatedTask r = Some u ->
    id u = id task.

(** ** Traces *)

(** The subtasks handed to the agent in a trace, latest first. *)
Definition invoked_tasks (t : list event) : list string :=
  flat_map (fun e => match e with Invoked Task (Some i) => [i] | _ => [] end) t.

(** Every invocation of the agent for a subtask comes right after a save
    of a progress record that names this subtask as the current one. *)
Fixpoint announced (t : list event) : bool :=
  match t with
  | [] => true
  | Invoked Task task :: rest =>
      match rest with
      | Saved _ p :: _ =>
          match task with
          | Some i => bool_decide (currentTask p = Some i)
          | None => false
          end
      | _ => false
      end
      && announced rest
  | _ :: rest => announced rest
  end.

(** The subtasks the resolver can still return in some later pass: those
    whose id is not among the completed ones. *)
Definition open_tasks (s : LoopState) : nat :=
  length (subtask_ids (prd s)) - length (completedTasks (progress s)).

(** An agent that never gets done: whatever subtask it is given, it
    reports success and hands the subtask back pending, without
    dependencies, under a longer id. *)
Definition restless (env : Env) : Prop :=
  forall n a task d p,
    exists r u,
      execute env n a task d p = Returned r
      /\ success r = true
      /\ updatedTask r = Some u
      /\ status u = "pending"
      /\ dependencies u = []
      /\ String.length (id task) < String.length (id u).

(** A work item with one subtask, pending and free to start, whose id is
    longer than every completed id. *)
Definition one_open_subtask (s : LoopState) : Prop :=
  exists t,
    userStories (prd s) = [t]
    /\ status t = "pending"
    /\ dependencies t = []
    /\ forall i, i ∈ completedTasks (progress s) -> String.length i < String.length (id t).

(** The fields of the work item the engine hands on as they are. *)
Definition same_item (d d' : PRD) : Prop :=
  prd_id d' = prd_id d /\ prdId d' = prdId d /\ prd_title d' = prd_title d
  /\ branchName d' = branchName d /\ workingDir d' = workingDir d
  /\ targetDirs d' = targetDirs d
  /\ length (userStories d') = length (userStories d).

(** The fields of the progress record the loop hands on as they are. *)
Definition same_run (p p' : Progress) : Prop :=
  progress_prdId p' = progress_prdId p /\ startedAt p' = startedAt p
  /\ totalTasks p' = totalTasks p /\ templateSet p' = templateSet p
  /\ configPath p' = configPath p.

(** ** The specification's reading, for comparison *)

(** Following the spec's words: a subtask is terminal when its status is
    [completed] or [failed], or its id is among the completed ones. *)
Definition spec_terminal (completed : list string) (story : Subtask) : Prop :=
  status story = "completed" ∨ status story = "failed" ∨ id story ∈ completed.

End Engine.

(* ===================================================================== *)
(** * [RalphLoop.callClaude] and [RalphLoop.executeTask] *)
(* ===================================================================== *)

(** The rows [executeTask] and [init] draw in the progress table are those
    of [Print]; the message handed to the table on a failure is kept in the
    report. *)

Module Adapter.
Import JS.

(** The variables of the [callClaude] closure that its handlers share. *)
Record Capture := {
  stdout : jsstring;
  stderr : jsstring;
  taskUsage : value;
  cap_contextManagement : value;
  cap_structuredOutput : value
}.

(** At spawn time. *)
Definition fresh : Capture :=
  {| stdout := []; stderr := []; taskUsage := VNull;
     cap_contextManagement := VNull; cap_structuredOutput := VNull |}.

(** What the promise of [callClaude] resolves to. *)
Record CallResult := {
  output : option jsstring;
  error : option exn;
  usage : value;
  contextManagement : value;
  structuredOutput : value
}.


(** The part of the [data] handler that keeps the context-management
    signal of an [assistant] event. *)
Definition on_assistant_event (event : value) (c : Capture) : Capture :=
  if is_str (prop event (str "type")) (str "assistant")
     && truthy (get_opt (prop event (str "message")) (str "context_management"))
  then {| stdout := stdout c; stderr := stderr c; taskUsage := taskUsage c;
          cap_contextManagement :=
            get_opt (prop event (str "message")) (str "context_management");
          cap_structuredOutput := cap_structuredOutput c |}
  else c.

(** [String(code)] for an exit code; [None] is the [null] of a process
    ended by a signal. *)
Definition code_text (code : option Z) : jsstring :=
  match code with
  | None => str "null"
  | Some z =>
      if Z.ltb z 0 then ch "-" :: digits_of_N (Z.to_N (- z))
      else digits_of_N (Z.to_N z)
  end.

(** The [close] handler. *)
Definition on_close (code : option Z) (c : Capture) : CallResult :=
  match code with
  | Some 0%Z =>
      {| output := Some (stdout c); error := None; usage := taskUsage c;
         contextManagement := cap_contextManagement c;
         structuredOutput := cap_structuredOutput c |}
  | _ =>
      {| output := Some (stdout c);
         error := Some (Error (str "Claude exited with code " ++ code_text code
                               ++ str ": " ++ stderr c));
         usage := taskUsage c;
         contextManagement := cap_contextManagement c;
         structuredOutput := cap_structuredOutput c |}
  end.

(** The [error] handler: the process could not be started. *)
Definition on_error (err : exn) : CallResult :=
  {| output := None; error := Some err; usage := VNull;
     contextManagement := VNull; structuredOutput := VNull |}.

(** [err.message] of an [Error] the code itself makes; the runtime's own
    errors carry a text this model does not fix. *)
Definition message_of (runtime_message : exn -> jsstring) (e : exn) : jsstring :=
  match e with
  | Error m => m
  | _ => runtime_message e
  end.

(** The [return] statement a report comes from. *)
Inductive cause :=
| ContextCompacted    (* the agent signalled context management *)
| TransportFailed     (* an error and no structured result *)
| ParseFailed         (* no JSON could be extracted from the output *)
| SecurityFailed      (* the security check did not pass *)
| Passed              (* the subtask passes *)
| Blocked             (* the subtask reports itself blocked *)
| Failed.             (* anything else *)

(** What [executeTask] returns: [success], [updatedTask] and [exitCode].
    Beside it, and no part of the returned object: the [return] statement
    it comes from, the message drawn in the table on failure, and the error
    written to the error log. *)
Record TaskReport := {
  success : bool;
  updatedTask : value;
  exitCode : Z;
  why : cause;
  failure : option value;
  logged : option jsstring
}.

Section Runtime.

(** [String(x)] of a number, see [JS.toString]. *)
Variable number_text : Z -> Z -> jsstring.

(** The message texts of the runtime's own errors. *)
Variable runtime_message : exn -> jsstring.

(** The arithmetic on the numbers of a usage record is the runtime's and
    is not modelled: in [executeTask] and [init] the tokens, the context
    window, the percentage and the sums of the usage statistics, and in
    [#renderProgressBar] the rounding of the percentage to cells of the bar
    of width 30.  [usage_cells usage] is the exception of the former, for a
    field that cannot be converted to a number, or else the number [filled]
    of the latter.  NaN is counted as 0, which is how [repeat] takes it, and
    an infinite number as a count beyond the width on its side. *)
Variable usage_cells : value -> completion Z.

(** [usage ? ... : 0] and [usage?.contextWindow || 200000]: without a usage
    record there are no tokens, and the bar is empty. *)
Definition progress_cells (usage : value) : completion Z :=
  if truthy usage then usage_cells usage else Normal 0%Z.

(** The arguments [commitHash] and [changedFiles] of [tableTaskDone]. *)
Definition done_row (filled : Z) (updatedTask : value) : completion unit :=
  let commits := or_else (prop updatedTask (str "commits")) (VArr []) in
  let changedFiles := or_else (prop updatedTask (str "changedFiles")) (VArr []) in
  let* some := gt_zero number_text (length_of commits) in
  let firstCommit := if some then item0 commits else VNull in
  Print.tableTaskDone number_text filled
    (or_else (get_opt firstCommit (str "commitHash")) VNull)
    (length_of changedFiles).

(** [// Show critical notes (outside table)] *)
Definition notes_row (updatedTask : value) : completion unit :=
  let criticalNotes := or_else (prop updatedTask (str "criticalNotes")) (VArr []) in
  let* some := gt_zero number_text (length_of criticalNotes) in
  if some then Print.criticalNotes number_text criticalNotes else Normal tt.

(** From [// Check security check first] on: the structured result
    decides, and each outcome is drawn before it is returned. *)
Definition judge (filled : Z) (updatedTask : value) : completion TaskReport :=
  let* sc := get updatedTask (str "securityCheck") in
  let securityCheck :=
    or_else sc (VObj [(str "passed", VBool true); (str "issues", VArr [])]) in
  if negb (truthy (prop securityCheck (str "passed"))) then
    let* shown := Print.tableTaskFailed number_text filled
                    (VStr (str "Security check failed")) in
    Normal {| success := false; updatedTask := updatedTask;
              exitCode := EXIT_CODES.TASK_FAILED; why := SecurityFailed;
              failure := Some (VStr (str "Security check failed")); logged := None |}
  else if truthy (prop updatedTask (str "passes")) then
    let* shown := done_row filled updatedTask in
    let* noted := notes_row updatedTask in
    Normal {| success := true; updatedTask := updatedTask;
              exitCode := EXIT_CODES.SUCCESS; why := Passed;
              failure := None; logged := None |}
  else if is_str (prop updatedTask (str "status")) (str "blocked") then
    let message := or_else (prop updatedTask (str "notes")) (VStr (str "Blocked")) in
    let* shown := Print.tableTaskFailed number_text filled message in
    Normal {| success := false; updatedTask := updatedTask;
              exitCode := EXIT_CODES.TASK_BLOCKED; why := Blocked;
              failure := Some message; logged := None |}
  else
    let message := or_else (prop updatedTask (str "notes")) (VStr (str "Failed")) in
    let* shown := Print.tableTaskFailed number_text filled message in
    Normal {| success := false; updatedTask := updatedTask;
              exitCode := EXIT_CODES.TASK_FAILED; why := Failed;
              failure := Some message; logged := None |}.

(** [executeTask] from the return of [callClaude] on.  The writes of the
    task log and the error log are the file system's and are taken to
    succeed; [Print.contextManagementInfo] prints the signal as JSON and
    does not throw. *)
Definition executeTask (r : CallResult) : completion TaskReport :=
  let* filled := progress_cells (usage r) in
  if truthy (contextManagement r) then
    let* shown := Print.tableTaskFailed number_text filled
                    (VStr (str "Context compacted - task too large")) in
    Normal {| success := false; updatedTask := VNull;
              exitCode := EXIT_CODES.TASK_FAILED; why := ContextCompacted;
              failure := Some (VStr (str "Context compacted - task too large"));
              logged := None |}
  else if truthy (structuredOutput r) then judge filled (structuredOutput r)
  else
    match error r with
    | Some e =>
        let message := VStr (str "Claude Code error: " ++ message_of runtime_message e) in
        let* shown := Print.tableTaskFailed number_text filled message in
        Normal {| success := false; updatedTask := VNull;
                  exitCode := EXIT_CODES.CLAUDE_ERROR; why := TransportFailed;
                  failure := Some message;
                  logged := Some (message_of runtime_message e) |}
    | None =>
        match output r with
        | None => Throw TypeError
        | Some out =>
            let* ex := Extract.extractJson out in
            match Extract.error ex with
            | Some _ =>
                let* shown := Print.tableTaskFailed number_text filled
                                (VStr (str "Could not parse response as JSON")) in
                Normal {| success := false; updatedTask := VNull;
                          exitCode := EXIT_CODES.SCHEMA_INVALID; why := ParseFailed;
                          failure := Some (VStr (str "Could not parse response as JSON"));
                          logged := Some (str "JSON parse error: " ++ firstn 200 out) |}
            | None => judge filled (Extract.json ex)
            end
        end
    end.

End Runtime.

(** ** The reports by name *)

(** The security check of a result is there and its [passed] is falsy. *)
Definition security_failed (updatedTask : value) : bool :=
  truthy (prop updatedTask (str "securityCheck"))
  && negb (truthy (prop (prop updatedTask (str "securityCheck")) (str "passed"))).

Definition security_failure (updatedTask : value) : TaskReport :=
  {| success := false; updatedTask := updatedTask;
     exitCode := EXIT_CODES.TASK_FAILED; why := SecurityFailed;
     failure := Some (VStr (str "Security check failed")); logged := None |}.

Definition passed_report (updatedTask : value) : TaskReport :=
  {| success := true; updatedTask := updatedTask;
     exitCode := EXIT_CODES.SUCCESS; why := Passed;
     failure := None; logged := None |}.

Definition compaction_failure : TaskReport :=
  {| success := false; updatedTask := VNull;
     exitCode := EXIT_CODES.TASK_FAILED; why := ContextCompacted;
     failure := Some (VStr (str "Context compacted - task too large"));
     logged := None |}.

Definition transport_failure (message : jsstring) : TaskReport :=
  {| success := false; updatedTask := VNull;
     exitCode := EXIT_CODES.CLAUDE_ERROR; why := TransportFailed;
     failure := Some (VStr (str "Claude Code error: " ++ message));
     logged := Some message |}.

(** ** Results that can be drawn *)

Definition primitive (v : value) : bool :=
  match v with VArr _ | VObj _ => false | _ => true end.

Definition text_or_falsy (v : value) : bool :=
  match v with VStr _ => true | _ => negb (truthy v) end.

(** A result as the task schema asks for it, as far as drawing it goes:
    [commits], [changedFiles] and [criticalNotes] are arrays or left out,
    the hash of the first commit is a text or left out, a critical note is
    not [null] and neither its [type] nor its [note] is an object or an
    array, and nor is [notes]. *)
Definition presentable (updatedTask : value) : bool :=
  match or_else (prop updatedTask (str "commits")) (VArr []) with
  | VArr [] => true
  | VArr (c :: _) => text_or_falsy (get_opt c (str "commitHash"))
  | _ => false
  end
  && isArray (or_else (prop updatedTask (str "changedFiles")) (VArr []))
  && match or_else (prop updatedTask (str "criticalNotes")) (VArr []) with
     | VArr items =>
         forallb (fun n => negb (is_nullish n)
                           && primitive (prop n (str "type"))
                           && primitive (prop n (str "note"))) items
     | _ => false
     end
  && primitive (prop updatedTask (str "notes")).

(** What the conversion phase of [init] makes of an invocation, from the
    return of [callClaude] to the first use of the work item: it gives up
    with an exit code, or goes on with the work item the agent delivered. *)
Inductive Conversion :=
| GaveUp (exitCode : Z) (why : cause)
| Delivered (prd : value).

(** [if( contextManagement ) ...] and [if( !prd.prdId ) { prd.prdId = ... }]:
    the property cannot be read from [null], and cannot be set on a value
    that is neither an object nor an array. *)
Definition deliver (r : CallResult) (prd : value) : completion Conversion :=
  if truthy (contextManagement r)
  then Normal (GaveUp EXIT_CODES.TASK_FAILED ContextCompacted)
  else
    match prd with
    | VObj _ | VArr _ => Normal (Delivered prd)
    | _ => Throw TypeError
    end.

(** The two failures of the conversion are drawn with
    [tableConversionUpdate] before they are returned. *)
Definition conversion (usage_cells : value -> completion Z) (r : CallResult)
  : completion Conversion :=
  let* filled := progress_cells usage_cells (usage r) in
  if truthy (structuredOutput r) then deliver r (structuredOutput r)
  else
    match error r with
    | Some _ =>
        let* shown := Print.tableConversionUpdate filled in
        Normal (GaveUp EXIT_CODES.CLAUDE_ERROR TransportFailed)
    | None =>
        match output r with
        | None => Throw TypeError
        | Some out =>
            let* ex := Extract.extractJson out in
            match Extract.error ex with
            | Some _ =>
                let* shown := Print.tableConversionUpdate filled in
                Normal (GaveUp EXIT_CODES.SCHEMA_INVALID ParseFailed)
            | None => deliver r (Extract.json ex)
            end
        end
    end.

End Adapter.

(* ===================================================================== *)
(** * [UserConfig.validateSetConfig] and [UserConfig.loadSetConfig] *)
(* ===================================================================== *)

Module ClaudeTool.
Import JS.

(** A validation result: [valid] and [messages]. *)
Definition verdict : Type := bool * list jsstring.

(** [{ valid: messages.length === 0, messages }] *)
Definition of_messages (messages : list jsstring) : verdict :=
  (match messages with [] => true | _ => false end, messages).

Definition toolName : jsstring := str "claude".

(** One entry of [#optionsSchema]: the type and the allowed values. *)
Record option_schema := {
  option_type : jstype;
  allowed : option (list jsstring)
}.

Definition optionsSchema : list (jsstring * option_schema) :=
  [(str "dangerouslySkipPermissions", {| option_type := TBoolean; allowed := None |});
   (str "verbose", {| option_type := TBoolean; allowed := None |});
   (str "outputFormat",
    {| option_type := TString;
       allowed := Some [str "stream-json"; str "json"; str "text"] |})].

(** The names every object inherits from [Object.prototype]: a lookup by
    such a name in an object literal finds a function, not [undefined]. *)
Definition inherited_names : list jsstring :=
  [str "constructor"; str "__defineGetter__"; str "__defineSetter__";
   str "hasOwnProperty"; str "__lookupGetter__"; str "__lookupSetter__";
   str "isPrototypeOf"; str "propertyIsEnumerable"; str "toString";
   str "valueOf"; str "__proto__"; str "toLocaleString"].

Definition is_inherited (key : jsstring) : bool := existsb (eqs key) inherited_names.

Fixpoint schema_of (key : jsstring) (l : list (jsstring * option_schema))
  : option option_schema :=
  match l with
  | [] => None
  | (k, sc) :: l' => if eqs key k then Some sc else schema_of key l'
  end.

(** The callback of [Object.entries( options ).forEach] in [validate]; an
    option checked against a schema has passed the type check, so its
    value is a string where allowed values are listed. *)
Definition check_option (key : jsstring) (value : value) : list jsstring :=
  match schema_of key optionsSchema with
  | Some schema =>
      if negb (eqs (typeof_name (typeof value)) (typeof_name (option_type schema))) then
        [dq "config.options." ++ key ++ dq ": Must be type '"
         ++ typeof_name (option_type schema) ++ dq "', got '"
         ++ typeof_name (typeof value) ++ dq "'"]
      else
        match allowed schema, value with
        | Some values, VStr s =>
            if existsb (eqs s) values then []
            else [dq "config.options." ++ key ++ dq ": Invalid value '" ++ s
                  ++ dq "'. Allowed: " ++ join (str ", ") values]
        | _, _ => []
        end
  | None =>
      if is_inherited key then
        [dq "config.options." ++ key ++ dq ": Must be type 'undefined', got '"
         ++ typeof_name (typeof value) ++ dq "'"]
      else [dq "config.options." ++ key ++ dq ": Unknown option"]
  end.

Section Text.

Variable number_text : Z -> Z -> jsstring.

(** [ClaudeTool.validate( { config } )], for a [config] that is neither
    [null] nor [undefined] and whose [tool] converts to a text, as it has
    when [validateToolConfig] hands it on. *)
Definition validate (config : value) : verdict :=
  let tool := prop config (str "tool") in
  let options := prop config (str "options") in
  if negb (is_str tool toolName) then
    (false, [dq "ClaudeTool.validate: Expected tool 'claude', got '"
             ++ toString number_text tool ++ dq "'"])
  else
    match options with
    | VUndefined => (true, [])
    | VObj props =>
        of_messages (flat_map (fun kv => check_option (fst kv) (snd kv)) (own_entries props))
    | _ => (false, [str "config.options: Must be an object"])
    end.

End Text.

(** [ClaudeTool.validateSkipContext( { config } )] *)
Definition validateSkipContext (config : value) : verdict :=
  let skipContext := prop config (str "skipContext") in
  match skipContext with
  | VUndefined => (true, [])
  | VBool _ => (true, [])
  | _ =>
      of_messages
        [dq "config.skipContext: Must be type 'boolean', got '"
         ++ typeof_name (typeof skipContext) ++ dq "'"]
  end.

(** [ClaudeTool.validateOutputSchema( { schema } )] *)
Definition validateOutputSchema (schema : value) : verdict :=
  if negb (truthy schema) then (true, [])
  else
    match typeof schema with
    | TObject =>
        let ty := prop schema (str "type") in
        let required := prop schema (str "required") in
        let properties := prop schema (str "properties") in
        of_messages
          ((if truthy ty && negb (is_str ty (str "object"))
            then [dq "outputSchema.type: Root type should be 'object'"] else [])
           ++ (if truthy required && negb (isArray required)
               then [str "outputSchema.required: Must be an array"] else [])
           ++ (if truthy properties
                  && negb (match typeof properties with TObject => true | _ => false end)
               then [str "outputSchema.properties: Must be an object"] else []))
    | _ => (false, [str "outputSchema: Must be an object"])
    end.

(** The values [validate] allows for [outputFormat]. *)
Definition allowedOutputFormats : list jsstring :=
  [str "stream-json"; str "json"; str "text"].

Section Args.

Variable number_text : Z -> Z -> jsstring.

(** [ClaudeTool.buildArgs( { config, tableMode, systemPromptFile } )]: the
    elements of [args] in the order they are pushed.  Reading [options] of
    a [config] that is [null] throws. *)
Definition buildArgs (config tableMode systemPromptFile : value)
  : completion (list value) :=
  let* o := get config (str "options") in
  let options := or_else o (VObj []) in
  let outputSchema := prop config (str "outputSchema") in
  Normal
    ([VStr (str "--print")]
     ++ match prop options (str "dangerouslySkipPermissions") with
        | VBool false => []
        | _ => [VStr (str "--dangerously-skip-permissions")]
        end
     ++ (if truthy (or_else (prop options (str "verbose")) tableMode)
         then [VStr (str "--verbose")] else [])
     ++ (if truthy (or_else (prop options (str "outputFormat")) tableMode)
         then [VStr (str "--output-format");
               or_else (prop options (str "outputFormat")) (VStr (str "stream-json"))]
         else [])
     ++ (if truthy outputSchema
         then [VStr (str "--json-schema");
               match JSON.stringify number_text 0 outputSchema with
               | Some text => VStr text
               | None => VUndefined
               end]
         else [])
     ++ (if truthy systemPromptFile
         then [VStr (str "--append-system-prompt-file"); systemPromptFile]
         else [])).

End Args.

End ClaudeTool.

Module ToolRegistry.
Import JS.
Import ClaudeTool.

(** [Object.keys( this.#tools )] *)
Definition toolNames : list jsstring := [str "claude"].

Section Text.

Variable number_text : Z -> Z -> jsstring.

(** [ToolRegistry.validateToolConfig( { config } )].  The tool is looked up
    in an object literal by the text of its name, and a name that cannot be
    converted to a text throws: [claude] finds the tool; a name inherited
    from [Object.prototype] finds a function without a [validate], and
    calling that throws; any other name is unknown. *)
Definition validateToolConfig (config : value) : completion verdict :=
  let* name := get config (str "tool") in
  if negb (truthy name) then
    Normal (false, [str "config.tool: Missing required field"])
  else
    let* key := to_text number_text name in
    if existsb (eqs key) toolNames then Normal (validate number_text config)
    else if is_inherited key then Throw TypeError
    else
      Normal (false, [dq "config.tool: Unknown tool '" ++ key ++ dq "'. Available: "
                      ++ join (str ", ") toolNames]).

End Text.

End ToolRegistry.

Module UserConfig.
Import JS.
Import ClaudeTool.

Definition claude_options : value :=
  VObj [(str "dangerouslySkipPermissions", VBool true);
        (str "verbose", VBool true);
        (str "outputFormat", VStr (str "stream-json"))].

Definition typed (t : string) : value := VObj [(str "type", VStr (str t))].

Definition strings (l : list string) : value := VArr (map (fun s => VStr (str s)) l).

(** [#defaultSetContent] *)
Definition defaultSetContent : value :=
  VObj
    [(str "name", VStr (str "prd-generator"));
     (str "description", VStr (str "Ralph templates for generating PRDs from Meta-PRD"));
     (str "version", VStr (str "1.0.0"));
     (str "systemPrompt", VStr (str "system.prompt.md"));
     (str "conversion",
      VArr
        [VObj
           [(str "tool", VStr (str "claude"));
            (str "options", claude_options);
            (str "outputSchema",
             VObj
               [(str "type", VStr (str "object"));
                (str "required",
                 strings ["id"; "title"; "userStories"; "targetDirs"; "branchName"]);
                (str "properties",
                 VObj
                   [(str "id", typed "string");
                    (str "title", typed "string");
                    (str "branchName", typed "string");
                    (str "targetDirs", typed "array");
                    (str "userStories",
                     VObj [(str "type", VStr (str "array"));
                           (str "minItems", VNum 1 0)])])])]]);
     (str "task",
      VArr
        [VObj
           [(str "tool", VStr (str "claude"));
            (str "options", claude_options);
            (str "skipContext", VBool false);
            (str "outputSchema",
             VObj
               [(str "type", VStr (str "object"));
                (str "required", strings ["id"; "status"; "passes"; "securityCheck"]);
                (str "properties",
                 VObj
                   [(str "id", typed "string");
                    (str "status",
                     VObj [(str "type", VStr (str "string"));
                           (str "enum",
                            strings ["completed"; "failed"; "blocked"; "pending"])]);
                    (str "passes", typed "boolean");
                    (str "securityCheck", typed "object");
                    (str "commits", typed "array");
                    (str "changedFiles", typed "array");
                    (str "generatedPrds", typed "array")])])]])].

Definition requiredKeys : list jsstring :=
  [str "name"; str "version"; str "conversion"; str "task"].

Definition missing_key (key : jsstring) : jsstring :=
  dq "set.json: Missing required key '" ++ key ++ dq "'".

(** The callback of [array.forEach] in [#validateConfigArray]. *)
Definition check_item (arrayName : jsstring) (index : nat) (item : value) : list jsstring :=
  match item with
  | VObj _ =>
      match prop item (str "tool") with
      | VUndefined =>
          [str "set.json." ++ arrayName ++ str "[" ++ digits_of_N (N.of_nat index)
           ++ dq "]: Missing required key 'tool'"]
      | _ => []
      end
  | _ =>
      [str "set.json." ++ arrayName ++ str "[" ++ digits_of_N (N.of_nat index)
       ++ str "]: Must be an object"]
  end.

(** [#validateConfigArray( { array, arrayName } )] *)
Definition validateConfigArray (array : value) (arrayName : jsstring) : verdict :=
  match array with
  | VArr [] =>
      (false, [str "set.json." ++ arrayName
               ++ str ": Array must contain at least one tool config"])
  | VArr items => of_messages (concat (imap (check_item arrayName) items))
  | _ => (false, [str "set.json." ++ arrayName ++ str ": Must be an array"])
  end.

(** The messages of an invalid verdict, under [phase[index].]. *)
Definition prefixed (phase : jsstring) (index : nat) (v : verdict) : list jsstring :=
  if fst v then []
  else map (fun msg => phase ++ str "[" ++ digits_of_N (N.of_nat index) ++ str "]." ++ msg)
           (snd v).

Definition elements (v : value) : list value :=
  match v with VArr l => l | _ => [] end.

(** [items.forEach( ( config, index ) => ... )] for a callback that may
    throw: the messages pushed until then are lost with the call. *)
Fixpoint collect (f : nat -> value -> completion (list jsstring)) (index : nat)
  (items : list value) : completion (list jsstring) :=
  match items with
  | [] => Normal []
  | config :: rest =>
      let* here := f index config in
      let* there := collect f (S index) rest in
      Normal (here ++ there)
  end.

(** Step 1 of [validateSetConfig]. *)
Definition missing_keys (setConfig : value) : list jsstring :=
  flat_map (fun key =>
              match prop setConfig key with
              | VUndefined => [missing_key key]
              | _ => []
              end) requiredKeys.

Definition legacy_entry (extra : list (jsstring * value)) : value :=
  VArr [VObj ([(str "tool", VStr (str "claude")); (str "options", claude_options)]
              ++ extra)].

(** [{ ...setConfig, conversion: ..., task: ... }] *)
Definition spread_legacy (setConfig : value) (skipTaskContext : value) : value :=
  let own := match setConfig with VObj props => props | _ => [] end in
  VObj (set_prop (str "task") (legacy_entry [(str "skipContext", skipTaskContext)])
          (set_prop (str "conversion") (legacy_entry []) own)).

(** [setConfig.key = [ setConfig.key ]] when the key holds a truthy value
    that is not an array. *)
Definition wrap_single (key : jsstring) (setConfig : value) : value * bool :=
  match setConfig with
  | VObj props =>
      let v := lookup_prop key props in
      if truthy v && negb (isArray v)
      then (VObj (set_prop key (VArr [v]) props), true)
      else (setConfig, false)
  | _ => (setConfig, false)
  end.

(** [#migrateSetConfig( { setConfig } )]: the configuration and [migrated]. *)
Definition migrateSetConfig (setConfig : value) : completion (value * bool) :=
  let* options := get setConfig (str "options") in
  let skipTaskContext := get_opt options (str "skipTaskContext") in
  let legacy :=
    match skipTaskContext with
    | VUndefined => false
    | _ => negb (truthy (prop setConfig (str "task")))
    end in
  if legacy then Normal (spread_legacy setConfig skipTaskContext, true)
  else
    let (c1, m1) := wrap_single (str "conversion") setConfig in
    let (c2, m2) := wrap_single (str "task") c1 in
    Normal (c2, m1 || m2).

(** [phaseConfigs[ 0 ]]: the first element of an array, the first code
    unit of a text, the property [0] of an object. *)
Definition first_element (v : value) : value :=
  match v with
  | VArr (x :: _) => x
  | VStr (c :: _) => VStr [c]
  | VObj props => lookup_prop (str "0") props
  | _ => VUndefined
  end.

(** [phaseConfigs.find( ( c ) => c.tool === toolName )] on the elements of
    an array: the callback throws on a [null] element it reaches. *)
Fixpoint find_tool (toolName : jsstring) (configs : list value) : completion value :=
  match configs with
  | [] => Normal VUndefined
  | c :: rest =>
      let* tool := get c (str "tool") in
      if is_str tool toolName then Normal c else find_tool toolName rest
  end.

(** [getToolConfig( { setConfig, phase, toolName } )] for a [toolName]
    that is a text or left out ([None]), and a [phase] that names no
    built-in property ([conversion] and [task] in every call). *)
Definition getToolConfig (setConfig : value) (phase : jsstring)
  (toolName : option jsstring) : completion value :=
  let* configs := get setConfig phase in
  let phaseConfigs := or_else configs (VArr []) in
  match toolName with
  | None | Some [] => Normal (or_else (first_element phaseConfigs) VNull)
  | Some name =>
      match phaseConfigs with
      | VArr l =>
          let* config := find_tool name l in
          Normal (or_else config VNull)
      | _ => Throw TypeError
      end
  end.

(** [taskConfig?.skipContext || false] in [executeTask] *)
Definition skipContext (taskConfig : value) : value :=
  or_else (get_opt taskConfig (str "skipContext")) (VBool false).

Section Runtime.

(** [String(x)] of a number, see [JS.toString]. *)
Variable number_text : Z -> Z -> jsstring.

(** The message texts of the runtime's own errors. *)
Variable runtime_message : exn -> jsstring.

Definition check_conversion (index : nat) (config : value) : completion (list jsstring) :=
  let* v := ToolRegistry.validateToolConfig number_text config in
  Normal
    (prefixed (str "conversion") index v
     ++ (if truthy (prop config (str "outputSchema"))
            && is_str (prop config (str "tool")) (str "claude")
         then prefixed (str "conversion") index
                       (validateOutputSchema (prop config (str "outputSchema")))
         else [])).

Definition check_task (index : nat) (config : value) : completion (list jsstring) :=
  let* v := ToolRegistry.validateToolConfig number_text config in
  Normal
    (prefixed (str "task") index v
     ++ (if is_str (prop config (str "tool")) (str "claude")
         then prefixed (str "task") index (validateSkipContext config)
              ++ (if truthy (prop config (str "outputSchema"))
                  then prefixed (str "task") index
                                (validateOutputSchema (prop config (str "outputSchema")))
                  else [])
         else [])).

(** [#validateToolConfigs( { setConfig } )], called once both arrays have
    passed [#validateConfigArray]. *)
Definition validateToolConfigs (setConfig : value) : completion (list jsstring) :=
  let* conversion :=
    collect check_conversion 0 (elements (prop setConfig (str "conversion"))) in
  let* task := collect check_task 0 (elements (prop setConfig (str "task"))) in
  Normal (conversion ++ task).

(** [validateSetConfig( { setConfig } )]: reading a key of [null] or
    [undefined] throws. *)
Definition validateSetConfig (setConfig : value) : completion verdict :=
  if is_nullish setConfig then Throw TypeError
  else
    match missing_keys setConfig with
    | (_ :: _) as messages => Normal (false, messages)
    | [] =>
        let conversion := validateConfigArray (prop setConfig (str "conversion"))
                                              (str "conversion") in
        let task := validateConfigArray (prop setConfig (str "task")) (str "task") in
        let messages := snd conversion ++ snd task in
        if negb (fst conversion) || negb (fst task) then Normal (false, messages)
        else
          let* toolMessages := validateToolConfigs setConfig in
          Normal (of_messages (messages ++ toolMessages))
    end.

(** [JSON.stringify( this.#defaultSetContent, null, 4 )] *)
Definition expectedStructure : jsstring :=
  match JSON.stringify number_text 4 defaultSetContent with
  | Some text => text
  | None => str "undefined"
  end.

Definition validation_failed (setJsonPath : jsstring) (messages : list jsstring) : jsstring :=
  str "Set config validation failed: " ++ setJsonPath ++ [LF]
  ++ str "Errors:" ++ [LF] ++ str "  - " ++ join (LF :: str "  - ") messages ++ [LF]
  ++ str "Expected structure:" ++ [LF] ++ expectedStructure.

Definition not_found_or_invalid (setJsonPath : jsstring) (e : exn) : jsstring :=
  str "Set config not found or invalid: " ++ setJsonPath ++ [LF]
  ++ str "Error: " ++ Adapter.message_of runtime_message e ++ [LF]
  ++ str "Expected structure:" ++ [LF] ++ expectedStructure ++ [LF]
  ++ str "Copy examples/.ralph/ to ~/.ralph/".

(** The [try] block of [loadSetConfig]; [file] is what reading [set.json]
    comes to. *)
Definition load_body (setJsonPath : jsstring) (file : completion jsstring)
  : completion value :=
  let* content := file in
  match JSON.parse content with
  | None => Throw SyntaxError
  | Some rawConfig =>
      let* migration := migrateSetConfig rawConfig in
      let* v := validateSetConfig (fst migration) in
      if fst v then Normal (fst migration)
      else Throw (Error (validation_failed setJsonPath (snd v)))
  end.

(** [loadSetConfig( { configPath, setName } )]: every exception of the
    [try] block is caught and thrown again, wrapped. *)
Definition loadSetConfig (setJsonPath : jsstring) (file : completion jsstring)
  : completion value :=
  match load_body setJsonPath file with
  | Normal setConfig => Normal setConfig
  | Throw e => Throw (Error (not_found_or_invalid setJsonPath e))
  end.

End Runtime.


(** ** What the validators accept *)

(** A verdict that is not valid comes with a message. *)
Definition outspoken (v : verdict) : Prop := fst v = false -> snd v <> [].

(** The options of a tool configuration: none, or an object in which every
    property is one of the three known options, with a value of its type
    and, for [outputFormat], one of the allowed values. *)
Definition known_options (options : value) : Prop :=
  options = VUndefined
  \/ exists props,
       options = VObj props
       /\ forall k v, (k, v) ∈ props ->
            (k = str "dangerouslySkipPermissions" /\ exists b, v = VBool b)
            \/ (k = str "verbose" /\ exists b, v = VBool b)
            \/ (k = str "outputFormat"
                /\ exists s, v = VStr s /\ s ∈ allowedOutputFormats).

(** An output schema: none, or an object (an array passes) whose [type],
    if truthy, is [object], whose [required], if truthy, is an array, and
    whose [properties], if truthy, is an object or an array. *)
Definition schema_ok (schema : value) : Prop :=
  truthy schema = false
  \/ (typeof schema = TObject
      /\ (truthy (prop schema (str "type")) = true ->
          prop schema (str "type") = VStr (str "object"))
      /\ (truthy (prop schema (str "required")) = true ->
          isArray (prop schema (str "required")) = true)
      /\ (truthy (prop schema (str "properties")) = true ->
          typeof (prop schema (str "properties")) = TObject)).

(** A tool configuration of a phase: an object that names the tool
    [claude], with known options and an output schema as above; in the task
    phase, [skipContext] is left out or a boolean. *)
Definition claude_config (task : bool) (config : value) : Prop :=
  exists props,
    config = VObj props
    /\ prop config (str "tool") = VStr (str "claude")
    /\ known_options (prop config (str "options"))
    /\ schema_ok (prop config (str "outputSchema"))
    /\ (task = true ->
        prop config (str "skipContext") = VUndefined
        \/ exists b, prop config (str "skipContext") = VBool b).

(** A set configuration: the four required keys are there, and each phase
    holds a list of one or more tool configurations. *)
Definition well_formed (setConfig : value) : Prop :=
  prop setConfig (str "name") <> VUndefined
  /\ prop setConfig (str "version") <> VUndefined
  /\ exists conversion task,
       prop setConfig (str "conversion") = VArr conversion
       /\ prop setConfig (str "task") = VArr task
       /\ conversion <> [] /\ task <> []
       /\ Forall (claude_config false) conversion
       /\ Forall (claude_config true) task.

End UserConfig.

(* ===================================================================== *)
(** * [CLI.#executeRun] *)
(* ===================================================================== *)

Module CLI.
Import JS.

(** The accumulator of the [reduce] over the work item files. *)
Record Acc := {
  results : list (string * Z);
  finalExitCode : Z;
  stopped : bool
}.

Definition start : Acc :=
  {| results := []; finalExitCode := EXIT_CODES.SUCCESS; stopped := false |}.

(** A result with the exit code SUCCESS. *)
Definition succeeded (r : string * Z) : Prop := snd r = EXIT_CODES.SUCCESS.

Section Batch.

(** The outside world, and [RalphLoop.run] for one work item file in it:
    the exit code it resolves to, or the exception it rejects with. *)
Variable World : Type.
Variable run : string -> World -> completion Z * World.

(** The callback of [prdPaths.reduce]: a file after the first failure is
    skipped. *)
Definition step (acc : Acc) (prdPath : string) (w : World) : completion Acc * World :=
  if stopped acc then (Normal acc, w)
  else
    match run prdPath w with
    | (Throw e, w') => (Throw e, w')
    | (Normal exitCode, w') =>
        let results' := results acc ++ [(prdPath, exitCode)] in
        if negb (Z.eqb exitCode EXIT_CODES.SUCCESS)
        then (Normal {| results := results'; finalExitCode := exitCode; stopped := true |},
              w')
        else (Normal {| results := results'; finalExitCode := finalExitCode acc;
                        stopped := stopped acc |},
              w')
    end.

(** The chain of promises: a rejection passes through every later
    callback, which runs nothing. *)
Fixpoint reduce (acc : Acc) (prdPaths : list string) (w : World) : completion Acc * World :=
  match prdPaths with
  | [] => (Normal acc, w)
  | prdPath :: rest =>
      match step acc prdPath w with
      | (Normal acc', w') => reduce acc' rest w'
      | (Throw e, w') => (Throw e, w')
      end
  end.

(** [#executeRun()]: the results and the exit code. *)
Definition executeRun (prdPaths : list string) (w : World)
  : completion (list (string * Z) * Z) * World :=
  match reduce start prdPaths w with
  | (Normal acc, w') => (Normal (results acc, finalExitCode acc), w')
  | (Throw e, w') => (Throw e, w')
  end.

End Batch.

End CLI.

(* ===================================================================== *)
(** * Sample inputs *)
(* ===================================================================== *)

Module Samples.
Import Resolver Engine.

Definition story (i st : string) (deps : list string) : Subtask :=
  {| id := i; title := i; status := st; dependencies := deps;
     passes := false; notes := EmptyString; commits := [] |}.

Definition work_item (stories : list Subtask) : PRD :=
  {| prd_id := "PRD-DEMO-1"; prdId := None; prd_title := "demo";
     branchName := "ralph/demo"; workingDir := "/work"; targetDirs := ["repo"];
     userStories := stories |}.

Definition record (st : string) (done : list string) (total : nat)
  (set : option string) : Progress :=
  {| progress_prdId := "PRD-DEMO-1"; startedAt := "2026-01-01T00:00:00.000Z";
     completedAt := None; completedTasks := done; currentTask := None;
     progress_status := st; totalTasks := total; lastError := None;
     summary := None; templateSet := set; configPath := None |}.

Definition world_of (d : PRD) (p : Progress) : World :=
  {| store := {| dirExists := true; prdFile := Some d; progressFile := Some p |};
     trace := []; clock := 0 |}.

Definition request (set : string) : Request :=
  {| dryRun := false; req_configPath := None; req_templateSet := set |}.

Definition default_active : Active :=
  {| activeTemplateSet := "default"; activeConfigPath := None |}.

Definition state_of (d : PRD) (p : Progress) : LoopState :=
  {| prd := d; progress := p; loop_exitCode := EXIT_CODES.SUCCESS;
     iteration := 0; active := default_active |}.

(** An agent that reports the subtask it was given as done. *)
Definition obedient : Env :=
  {| now := fun _ => "2026-01-02T00:00:00.000Z";
     conversion := PrdUnreadable;
     execute := fun _ _ task _ _ =>
       Returned {| success := true;
                   updatedTask :=
                     Some {| id := id task; title := title task; status := "completed";
                             dependencies := dependencies task; passes := true;
                             notes := EmptyString; commits := ["abc1234"] |};
                   exitCode := EXIT_CODES.SUCCESS |} |}.

(** An agent that reports success for a subtask under another id. *)
Definition renaming : Env :=
  {| now := fun _ => "2026-01-02T00:00:00.000Z";
     conversion := PrdUnreadable;
     execute := fun _ _ task _ _ =>
       Returned {| success := true;
                   updatedTask :=
                     Some {| id := "Z"; title := title task; status := "completed";
                             dependencies := []; passes := true;
                             notes := EmptyString; commits := [] |};
                   exitCode := EXIT_CODES.SUCCESS |} |}.

(** An agent whose invocation ends in an exception of [executeTask]. *)
Definition throwing : Env :=
  {| now := fun _ => "2026-01-02T00:00:00.000Z";
     conversion := PrdUnreadable;
     execute := fun _ _ _ _ _ => Threw JS.TypeError true |}.

(** An agent whose report for every subtask is a failure. *)
Definition failing : Env :=
  {| now := fun _ => "2026-01-02T00:00:00.000Z";
     conversion := PrdUnreadable;
     execute := fun _ _ _ _ _ =>
       Returned {| success := false; updatedTask := None;
                   exitCode := EXIT_CODES.TASK_FAILED |} |}.

(** An agent that hands back every subtask as pending under a longer id. *)
Definition retitling : Env :=
  {| now := fun _ => "2026-01-02T00:00:00.000Z";
     conversion := PrdUnreadable;
     execute := fun _ _ task _ _ =>
       Returned {| success := true;
                   updatedTask :=
                     Some {| id := String "+" (id task); title := title task;
                             status := "pending"; dependencies := [];
                             passes := true; notes := EmptyString; commits := [] |};
                   exitCode := EXIT_CODES.SUCCESS |} |}.

(** A run that has just entered the loop with one pending subtask. *)
Definition one_story : PRD := work_item [story "A" "pending" []].

Definition fresh_record : Progress := record "initialized" [] 1 (Some "default").

Definition started_state : LoopState :=
  {| prd := one_story; progress := set_status "running" fresh_record;
     loop_exitCode := EXIT_CODES.SUCCESS; iteration := 0; active := default_active |}.

Definition started_world : World :=
  saveState one_story (set_status "running" fresh_record)
            (world_of one_story fresh_record).

Definition after (st : Step) : LoopState * World :=
  match st with
  | Continue s w | Break s w | Raise _ s w => (s, w)
  end.

(** The state after the first pass through the loop body. *)
Definition after_pass (env : Env) : LoopState * World :=
  after (loop_body env started_state started_world).

(** Two assistant messages of a stream; only the text of the second is
    JSON. *)
Definition first_message : JS.jsstring :=
  JS.dq "{'type':'assistant','message':{'content':[{'type':'text','text':'not json'}]}}".

Definition second_message : JS.jsstring :=
  JS.dq "{'type':'assistant','message':{'content':[{'type':'text','text':'{\'a\':2}'}]}}".





Definition fenced : JS.jsstring :=
  JS.str "```json" ++ [JS.LF] ++ JS.dq "{'a':1}" ++ [JS.LF] ++ JS.str "```".


(** An object in a sentence, and an object in a fenced block between two
    other objects. *)
Definition in_prose : JS.jsstring := JS.dq "Here is the result: {'a':1} Done.".

Definition fenced_among_objects : JS.jsstring :=
  JS.dq "{'x':0} " ++ JS.str "```json" ++ [JS.LF] ++ JS.dq "{'a':1}" ++ [JS.LF]
  ++ JS.str "```" ++ JS.dq " {'y':2}".

Definition object_a (n : Z) : JS.value := JS.VObj [(JS.str "a", JS.VNum n 0)].

(** A structured result that passes, as the task schema asks for it. *)
Definition passing_result : JS.value :=
  JS.VObj [(JS.str "id", JS.VStr (JS.str "A"));
           (JS.str "status", JS.VStr (JS.str "completed"));
           (JS.str "passes", JS.VBool true);
           (JS.str "securityCheck",
            JS.VObj [(JS.str "passed", JS.VBool true); (JS.str "issues", JS.VArr [])])].

(** The same without the security check. *)
Definition unchecked_result : JS.value :=
  JS.VObj [(JS.str "id", JS.VStr (JS.str "A"));
           (JS.str "status", JS.VStr (JS.str "completed"));
           (JS.str "passes", JS.VBool true)].


(** The closure of an invocation that has seen a result event with the
    passing result. *)
Definition captured : Adapter.Capture :=
  {| Adapter.stdout := JS.str "partial output";
     Adapter.stderr := JS.str "boom";
     Adapter.taskUsage := JS.VNull;
     Adapter.cap_contextManagement := JS.VNull;
     Adapter.cap_structuredOutput := passing_result |}.

Definition no_message (e : JS.exn) : JS.jsstring := [].

(** A usage record as the [data] handler builds it. *)
Definition usage_of (tokens window : Z) : JS.value :=
  JS.VObj [(JS.str "inputTokens", JS.VNum tokens 0);
           (JS.str "outputTokens", JS.VNum 0 0);
           (JS.str "cacheRead", JS.VNum 0 0);
           (JS.str "cacheCreation", JS.VNum 0 0);
           (JS.str "costUsd", JS.VNum 0 0);
           (JS.str "contextWindow", JS.VNum window 0)].

Definition whole (v : JS.value) : Z :=
  match v with JS.VNum m 0 => m | _ => 0%Z end.

(** The cells of the progress bar for a usage record of whole numbers, in
    exact arithmetic with halves rounded up: a stand-in for the runtime's
    arithmetic in the examples. *)
Definition cells (usage : JS.value) : JS.completion Z :=
  let tokens := (whole (JS.prop usage (JS.str "inputTokens"))
                 + whole (JS.prop usage (JS.str "cacheCreation")))%Z in
  let window := whole (JS.prop usage (JS.str "contextWindow")) in
  if Z.leb window 0 then JS.Normal 0%Z
  else
    let percentage := ((200 * tokens + window) / (2 * window))%Z in
    JS.Normal ((30 * percentage + 50) / 100)%Z.


(** The closure of an invocation whose usage is above the context window. *)
Definition overfull : Adapter.Capture :=
  {| Adapter.stdout := JS.str "partial output";
     Adapter.stderr := JS.str "boom";
     Adapter.taskUsage := usage_of 210000 200000;
     Adapter.cap_contextManagement := JS.VNull;
     Adapter.cap_structuredOutput := passing_result |}.

(** Passing results that cannot be drawn: critical notes that are a text,
    and a commit whose hash is a number. *)
Definition noted_result : JS.value :=
  JS.VObj [(JS.str "passes", JS.VBool true);
           (JS.str "criticalNotes", JS.VStr (JS.str "mind the gap"))].

Definition numbered_commit_result : JS.value :=
  JS.VObj [(JS.str "passes", JS.VBool true);
           (JS.str "commits", JS.VArr [JS.VObj [(JS.str "commitHash", JS.VNum 1234567 0)]])].

(** A value that converts to no text. *)
Definition no_text : JS.value := JS.VObj [(JS.str "toString", JS.VNum 1 0)].

(** The decoder on characters of one and two bytes, which is all the
    examples have: a byte that is no character and does not begin one with
    the byte after it comes out as the replacement character. *)
Fixpoint utf8 (bytes : list Byte.byte) : JS.jsstring :=
  match bytes with
  | [] => []
  | b :: rest =>
      let n := Byte.to_N b in
      if N.ltb n 128 then n :: utf8 rest
      else if N.leb 194 n && N.ltb n 224 then
        match rest with
        | b2 :: rest' =>
            let n2 := Byte.to_N b2 in
            if N.leb 128 n2 && N.ltb n2 192
            then ((n - 192) * 64 + (n2 - 128))%N :: utf8 rest'
            else 65533%N :: utf8 rest
        | [] => [65533%N]
        end
      else 65533%N :: utf8 rest
  end.

(** The bytes of an ASCII text. *)
Definition bytes_of (s : JS.jsstring) : list Byte.byte :=
  map (fun c => match Byte.of_N c with Some b => b | None => Byte.x00 end) s.

(** A line whose text holds a character of two bytes, cut after the
    first of them. *)
Definition accent_head : list Byte.byte :=
  bytes_of (JS.dq "{'type':'assistant','text':'caf") ++ [Byte.xc3].

Definition accent_tail : list Byte.byte :=
  [Byte.xa9] ++ bytes_of (JS.dq "'}") ++ [Byte.x0a].

(** The document of the repository's test for missing keys. *)
Definition only_name : JS.value := JS.VObj [(JS.str "name", JS.VStr (JS.str "test"))].

Definition only_name_text : JS.jsstring := JS.dq "{'name':'test'}".

Definition set_json_path : JS.jsstring := JS.str "/home/u/.ralph/sets/demo/set.json".

(** A small set configuration, and one in the old structure. *)
Definition small_set_text : JS.jsstring :=
  JS.dq "{'name':'demo','version':'1.0.0','conversion':[{'tool':'claude'}],'task':[{'tool':'claude','options':{'outputFormat':'json'},'skipContext':true}]}".

Definition legacy_set : JS.value :=
  JS.VObj [(JS.str "name", JS.VStr (JS.str "old"));
           (JS.str "version", JS.VStr (JS.str "1.0.0"));
           (JS.str "options", JS.VObj [(JS.str "skipTaskContext", JS.VBool true)])].

(** The task configuration of [small_set_text], and the whole document. *)
Definition json_task_config : JS.value :=
  JS.VObj [(JS.str "tool", JS.VStr (JS.str "claude"));
           (JS.str "options", JS.VObj [(JS.str "outputFormat", JS.VStr (JS.str "json"))]);
           (JS.str "skipContext", JS.VBool true)].

Definition small_set : JS.value :=
  JS.VObj [(JS.str "name", JS.VStr (JS.str "demo"));
           (JS.str "version", JS.VStr (JS.str "1.0.0"));
           (JS.str "conversion", JS.VArr [JS.VObj [(JS.str "tool", JS.VStr (JS.str "claude"))]]);
           (JS.str "task", JS.VArr [json_task_config])].

Definition legacy_set_text : JS.jsstring :=
  JS.dq "{'name':'old','version':'1.0.0','options':{'skipTaskContext':true}}".

(** The configuration of the repository's test for a lookup by name, and
    one that names a tool after a method every object inherits. *)
Definition two_tools : JS.value :=
  JS.VObj
    [(JS.str "conversion",
      JS.VArr [JS.VObj [(JS.str "tool", JS.VStr (JS.str "other"));
                        (JS.str "options", JS.VObj [(JS.str "a", JS.VNum 1 0)])];
               JS.VObj [(JS.str "tool", JS.VStr (JS.str "claude"));
                        (JS.str "options", JS.VObj [(JS.str "b", JS.VNum 2 0)])]]);
     (JS.str "task", JS.VArr [])].

Definition inherited_tool_set : JS.value :=
  JS.VObj [(JS.str "name", JS.VStr (JS.str "demo"));
           (JS.str "version", JS.VStr (JS.str "1.0.0"));
           (JS.str "conversion",
            JS.VArr [JS.VObj [(JS.str "tool", JS.VStr (JS.str "toString"))]]);
           (JS.str "task", JS.VArr [JS.VObj [(JS.str "tool", JS.VStr (JS.str "claude"))]])].

(** A batch in which the second work item fails: the world counts the
    runs. *)
Definition second_fails (prdPath : string) (runs : nat)
  : JS.completion Z * nat :=
  (JS.Normal (if String.eqb prdPath "b.md" then EXIT_CODES.TASK_FAILED
              else EXIT_CODES.SUCCESS),
   S runs).

(** The text of a number for whole literals, enough for the samples. *)
Definition whole_number (m e : Z) : JS.jsstring :=
  if Z.ltb m 0 then JS.ch "-" :: JS.digits_of_N (Z.to_N (- m * 10 ^ e))
  else JS.digits_of_N (Z.to_N (m * 10 ^ e)).

End Samples.

(* ===================================================================== *)
(** * Properties *)
(* ===================================================================== *)

(** ** The task graph resolver *)

Section ResolverFacts.
Import Resolver.

(** [Array.prototype.find] returns the first element that satisfies the
    callback. *)
Lemma find_first {A} (f : A -> bool) (l : list A) :
  match List.find f l with
  | Some x =>
      exists before after,
        l = before ++ x :: after /\ f x = true /\ forall u, u ∈ before -> f u = false
  | None => forall u, u ∈ l -> f u = false
  end.
Proof.
  induction l as [|a l IH]; simpl.
  - intros u Hu. inversion Hu.
  - destruct (f a) eqn:Ha.
    + exists [], l. repeat split; auto. intros u Hu. inversion Hu.
    + destruct (List.find f l) as [x|].
      * destruct IH as (before & after & -> & Hx & Hb).
        exists (a :: before), after. repeat split; auto.
        intros u Hu. apply elem_of_cons in Hu as [->|Hu]; auto.
      * intros u Hu. apply elem_of_cons in Hu as [->|Hu]; auto.
Qed.

Lemma eligible_qualifies (completedIds : list string) (story : Subtask) :
  eligible (list_to_set completedIds) story = true <-> qualifies completedIds story.
Proof.
  unfold eligible, qualifies.
  destruct (bool_decide_reflect (id story ∈ (list_to_set completedIds : gset string)))
    as [Hin|Hin]; rewrite elem_of_list_to_set in Hin.
  { split; [discriminate | tauto]. }
  destruct (String.eqb_spec (status story) "completed") as [Hc|Hc]; simpl.
  { split; [discriminate | tauto]. }
  destruct (String.eqb_spec (status story) "failed") as [Hf|Hf]; simpl.
  { split; [discriminate | tauto]. }
  rewrite forallb_forall. split.
  - intros H. repeat split; auto. intros d Hd.
    apply list_elem_of_In in Hd. apply H in Hd.
    apply bool_decide_eq_true in Hd. by rewrite elem_of_list_to_set in Hd.
  - intros (_ & _ & _ & H) d Hd. apply bool_decide_eq_true.
    rewrite elem_of_list_to_set. apply H. by apply list_elem_of_In.
Qed.

Lemma not_eligible_qualifies (completedIds : list string) (story : Subtask) :
  eligible (list_to_set completedIds) story = false -> ~ qualifies completedIds story.
Proof.
  intros He Hq. apply eligible_qualifies in Hq. congruence.
Qed.

Lemma findNextTask_cases (userStories : list Subtask) (completedIds : list string) :
  match findNextTask userStories completedIds with
  | Some story =>
      exists before after,
        userStories = before ++ story :: after
        /\ qualifies completedIds story
        /\ forall u, u ∈ before -> ~ qualifies completedIds u
  | None => forall u, u ∈ userStories -> ~ qualifies completedIds u
  end.
Proof.
  unfold findNextTask.
  pose proof (find_first (eligible (list_to_set completedIds)) userStories) as H.
  destruct (List.find _ userStories) as [story|].
  - destruct H as (before & after & -> & Hs & Hb).
    exists before, after. split; [done|]. split.
    + by apply eligible_qualifies.
    + intros u Hu. apply not_eligible_qualifies. auto.
  - intros u Hu. apply not_eligible_qualifies. auto.
Qed.

(** What the resolver returns is a subtask of the work item whose id is not
    among the completed ones. *)
Lemma findNextTask_member (stories : list Subtask) (completed : list string) (t : Subtask) :
  findNextTask stories completed = Some t -> t ∈ stories /\ id t ∉ completed.
Proof.
  intros H. pose proof (findNextTask_cases stories completed) as Hs.
  rewrite H in Hs. destruct Hs as (before & after & -> & Hq & _). split.
  - apply elem_of_app. right. apply elem_of_cons. by left.
  - apply Hq.
Qed.

(** C1.  For every list of subtasks and every list of completed ids,
    [findNextTask] returns the first subtask in declaration order whose id
    is not completed, whose status is neither [completed] nor [failed] and
    whose dependencies are all completed, and returns none when no subtask
    qualifies.  For A, B (after A) and C (after A), in that order, the first
    selection is A, and B once A is completed. *)
Theorem findNextTask_first_qualifying :
  (forall (userStories : list Subtask) (completedIds : list string),
     match findNextTask userStories completedIds with
     | Some story =>
         exists before after,
           userStories = before ++ story :: after
           /\ qualifies completedIds story
           /\ forall u, u ∈ before -> ~ qualifies completedIds u
     | None => forall u, u ∈ userStories -> ~ qualifies completedIds u
     end)
  /\ (let stories := [pending "A" []; pending "B" ["A"]; pending "C" ["A"]] in
      findNextTask stories [] = Some (pending "A" [])
      /\ findNextTask stories ["A"] = Some (pending "B" ["A"])).
Proof.
  split.
  - apply findNextTask_cases.
  - split; vm_compute; reflexivity.
Qed.

End ResolverFacts.

(** ** The run and resume state machine *)

Section EngineFacts.
Import Resolver Engine.

Lemma allDone_spec (stories : list Subtask) (completed : list string) :
  allDone stories completed = true
  <-> forall u, u ∈ stories -> status u = "completed" \/ id u ∈ completed.
Proof.
  unfold allDone. rewrite forallb_forall. split.
  - intros H u Hu. apply list_elem_of_In in Hu. apply H in Hu.
    apply orb_true_iff in Hu as [Hu|Hu].
    + left. by apply String.eqb_eq.
    + right. by apply bool_decide_eq_true in Hu.
  - intros H u Hu. apply list_elem_of_In in Hu. apply orb_true_iff.
    destruct (H u Hu) as [Hc|Hc].
    + left. by apply String.eqb_eq.
    + right. by apply bool_decide_eq_true.
Qed.

Lemma allDone_false (stories : list Subtask) (completed : list string) :
  (exists u, u ∈ stories /\ status u <> "completed" /\ id u ∉ completed) ->
  allDone stories completed = false.
Proof.
  intros (u & Hu & Hs & Hi). destruct (allDone stories completed) eqn:E; [|done].
  apply allDone_spec with (u := u) in E; [|done]. tauto.
Qed.

(** C2 (as the code has it).  Whenever the resolver finds no subtask, the
    loop stops after saving the progress record, whose status is
    [completed] when every subtask has the status [completed] or its id
    among the completed ones, and [blocked] when some subtask has neither:
    a subtask that is [failed] and not among the completed ones leaves the
    run [blocked]. *)
Theorem no_next_task_completed_or_blocked (env : Env) (s : LoopState) (w : World) :
  findNextTask (userStories (prd s)) (completedTasks (progress s)) = None ->
  exists s' w',
    loop_body env s w = Break s' w'
    /\ prd s' = prd s
    /\ completedTasks (progress s') = completedTasks (progress s)
    /\ prdFile (store w') = Some (prd s')
    /\ progressFile (store w') = Some (progress s')
    /\ ((forall u, u ∈ userStories (prd s) ->
           status u = "completed" \/ id u ∈ completedTasks (progress s)) ->
        progress_status (progress s') = "completed")
    /\ ((exists u, u ∈ userStories (prd s)
           /\ status u <> "completed" /\ id u ∉ completedTasks (progress s)) ->
        progress_status (progress s') = "blocked").
Proof.
  intros Hnone. unfold loop_body. rewrite Hnone. unfold no_next_task.
  destruct (allDone (userStories (prd s)) (completedTasks (progress s))) eqn:Hall.
  - eexists _, _. split; [reflexivity|]. simpl. repeat split; auto.
    intros Hex. apply allDone_false in Hex. congruence.
  - eexists _, _. split; [reflexivity|]. simpl. repeat split; auto.
    intros H. apply allDone_spec in H. congruence.
Qed.

Lemma no_next_task_completed_or_blocked_witness :
  let s := Samples.state_of (Samples.work_item [Samples.story "A" "completed" []])
                            (Samples.record "running" [] 1 None) in
  findNextTask (userStories (prd s)) (completedTasks (progress s)) = None
  /\ exists s' w',
      loop_body Samples.obedient s
                (Samples.world_of (prd s) (progress s)) = Break s' w'
      /\ prd s' = prd s
      /\ completedTasks (progress s') = completedTasks (progress s)
      /\ prdFile (store w') = Some (prd s')
      /\ progressFile (store w') = Some (progress s')
      /\ ((forall u, u ∈ userStories (prd s) ->
             status u = "completed" \/ id u ∈ completedTasks (progress s)) ->
          progress_status (progress s') = "completed")
      /\ ((exists u, u ∈ userStories (prd s)
             /\ status u <> "completed" /\ id u ∉ completedTasks (progress s)) ->
          progress_status (progress s') = "blocked").
Proof.
  split; [vm_compute; reflexivity|].
  apply (no_next_task_completed_or_blocked Samples.obedient
           (Samples.state_of (Samples.work_item [Samples.story "A" "completed" []])
                             (Samples.record "running" [] 1 None))).
  vm_compute; reflexivity.
Defined.

(** C2, refuted as stated: one subtask, [failed] and not among the
    completed ones.  No subtask is eligible and every subtask is terminal in
    the spec's sense, yet the status becomes [blocked], not [completed]. *)
Lemma failed_subtask_leaves_run_blocked :
  let s := Samples.state_of (Samples.work_item [Samples.story "A" "failed" []])
                            (Samples.record "running" [] 1 None) in
  findNextTask (userStories (prd s)) (completedTasks (progress s)) = None
  /\ (forall u, u ∈ userStories (prd s) -> spec_terminal (completedTasks (progress s)) u)
  /\ exists s' w',
      loop_body Samples.obedient s (Samples.world_of (prd s) (progress s)) = Break s' w'
      /\ progress_status (progress s') = "blocked"
      /\ progress_status (progress s') <> "completed".
Proof.
  simpl. split; [vm_compute; reflexivity|]. split.
  - intros u Hu. apply list_elem_of_singleton in Hu as ->.
    right; left; reflexivity.
  - eexists _, _. split; [vm_compute; reflexivity|]. simpl. split; [done|discriminate].
Qed.

Lemma prelude_existing (env : Env) (req : Request) (w : World) (d : PRD) (p : Progress) :
  dirExists (store w) = true ->
  prdFile (store w) = Some d ->
  progressFile (store w) = Some p ->
  checkExistingProject (store w) = (true, Some d, Some p).
Proof.
  intros Hd Hp Hq. unfold checkExistingProject. by rewrite Hd, Hp, Hq.
Qed.

(** C3.  For an existing project whose progress record pins a set name, a
    run that names another set, not the default one, returns right away
    with [INVALID_ARGS] (the code's ConsistencyError), and the world is as
    it was: nothing is saved, the agent is not invoked. *)
Theorem resume_with_other_set_rejected
  (env : Env) (fuel : nat) (req : Request) (w : World)
  (d : PRD) (p : Progress) (name : string) :
  dirExists (store w) = true ->
  prdFile (store w) = Some d ->
  progressFile (store w) = Some p ->
  pinned p = Some name ->
  req_templateSet req <> "default" ->
  req_templateSet req <> name ->
  run env fuel req w = (Exit EXIT_CODES.INVALID_ARGS, w).
Proof.
  intros Hd Hp Hq Hpin Hdef Hname. unfold run, prelude.
  rewrite (prelude_existing env req w d p Hd Hp Hq), Hpin.
  unfold changes_set.
  apply String.eqb_neq in Hdef. apply String.eqb_neq in Hname.
  by rewrite Hdef, Hname.
Qed.

Lemma resume_with_other_set_rejected_witness :
  let d := Samples.work_item [Samples.story "A" "pending" []] in
  let p := Samples.record "paused" [] 1 (Some "prd-generator") in
  run Samples.obedient 5 (Samples.request "other-set") (Samples.world_of d p)
  = (Exit EXIT_CODES.INVALID_ARGS, Samples.world_of d p).
Proof.
  apply (resume_with_other_set_rejected Samples.obedient 5 (Samples.request "other-set")
           (Samples.world_of (Samples.work_item [Samples.story "A" "pending" []])
                             (Samples.record "paused" [] 1 (Some "prd-generator")))
           (Samples.work_item [Samples.story "A" "pending" []])
           (Samples.record "paused" [] 1 (Some "prd-generator"))
           "prd-generator");
    solve [reflexivity | vm_compute; discriminate].
Defined.

(** C7 (as the code has it).  For an existing project whose progress record
    has the status [completed], a run returns [SUCCESS] right away, with no
    agent invocation and without entering the loop, unless the record pins
    a set and the request names another set that is not the default one:
    that guard comes first. *)
Theorem resume_completed_is_noop
  (env : Env) (fuel : nat) (req : Request) (w : World) (d : PRD) (p : Progress) :
  dirExists (store w) = true ->
  prdFile (store w) = Some d ->
  progressFile (store w) = Some p ->
  progress_status p = "completed" ->
  (forall name, pinned p = Some name ->
     req_templateSet req = "default" \/ req_templateSet req = name) ->
  run env fuel req w = (Exit EXIT_CODES.SUCCESS, w).
Proof.
  intros Hd Hp Hq Hst Hset. unfold run, prelude.
  rewrite (prelude_existing env req w d p Hd Hp Hq).
  assert (match pinned p with
          | Some name => changes_set req name
          | None => false
          end = false) as ->.
  { destruct (pinned p) as [name|]; [|done]. unfold changes_set.
    destruct (Hset name eq_refl) as [->| ->].
    - reflexivity.
    - rewrite String.eqb_refl. by rewrite andb_false_r. }
  by rewrite Hst.
Qed.

Lemma resume_completed_is_noop_witness :
  let d := Samples.work_item [Samples.story "A" "completed" []] in
  let p := Samples.record "completed" ["A"] 1 (Some "prd-generator") in
  run Samples.obedient 0 (Samples.request "default") (Samples.world_of d p)
  = (Exit EXIT_CODES.SUCCESS, Samples.world_of d p).
Proof.
  apply (resume_completed_is_noop Samples.obedient 0 (Samples.request "default")
           (Samples.world_of (Samples.work_item [Samples.story "A" "completed" []])
                             (Samples.record "completed" ["A"] 1 (Some "prd-generator")))
           (Samples.work_item [Samples.story "A" "completed" []])
           (Samples.record "completed" ["A"] 1 (Some "prd-generator")));
    try reflexivity.
  intros name Hname. left. reflexivity.
Defined.

(** C7, refuted as stated: the progress record is [completed] and pins the
    set [prd-generator]; a run that names [other-set] returns
    [INVALID_ARGS], not [SUCCESS]. *)
Lemma resume_completed_with_other_set_fails :
  let d := Samples.work_item [Samples.story "A" "completed" []] in
  let p := Samples.record "completed" ["A"] 1 (Some "prd-generator") in
  progress_status p = "completed"
  /\ run Samples.obedient 5 (Samples.request "other-set") (Samples.world_of d p)
     = (Exit EXIT_CODES.INVALID_ARGS, Samples.world_of d p)
  /\ EXIT_CODES.INVALID_ARGS <> EXIT_CODES.SUCCESS.
Proof.
  simpl. split; [reflexivity|]. split; [vm_compute; reflexivity|discriminate].
Qed.

Lemma start_loop_enter (a : Active) (d : PRD) (p : Progress) (w : World)
  (s : LoopState) (w' : World) :
  start_loop a d p w = Enter s w' ->
  prd s = d /\ completedTasks (progress s) = completedTasks p /\ persisted s w'.
Proof.
  unfold start_loop. intros H. inversion H; subst. by simpl.
Qed.

(** Taking the case analysis of one pass through the loop body. *)
Ltac loop_cases H :=
  unfold passes_to, loop_body, no_next_task, run_task in H;
  repeat match type of H with
    | context [findNextTask ?l ?c] => destruct (findNextTask l c) eqn:?
    | context [allDone ?l ?c] => destruct (allDone l c) eqn:?
    | context [execute ?e ?n ?a ?t ?d ?p] => destruct (execute e n a t d p) eqn:?
    | context [success ?r] => destruct (success r) eqn:?
    | context [if ?b then _ else _] => destruct b eqn:?
    end;
  simpl in H;
  destruct H as [H|[H|[? H]]]; try discriminate H;
  inversion H; subst; clear H; simpl.

(** Every state the loop body leaves is on disk. *)
Lemma passes_to_persisted (env : Env) (s : LoopState) (w : World)
  (s' : LoopState) (w' : World) :
  passes_to env s w s' w' -> persisted s' w'.
Proof.
  intros H. unfold persisted. loop_cases H; reflexivity.
Qed.

(** A pass through the loop body appends at most the id of the subtask the
    resolver returned, which was not among the completed ones. *)
Lemma passes_to_nodup (env : Env) (s : LoopState) (w : World)
  (s' : LoopState) (w' : World) :
  passes_to env s w s' w' ->
  NoDup (completedTasks (progress s)) ->
  NoDup (completedTasks (progress s')).
Proof.
  intros H Hnd. loop_cases H; auto.
  match goal with
  | E : findNextTask _ _ = Some ?t |- _ => apply findNextTask_member in E as [_ Hnew]
  end.
  apply NoDup_app. split; [done|]. split.
  - intros x Hx Hin. apply list_elem_of_singleton in Hin as ->. done.
  - apply NoDup_singleton.
Qed.

(** Writing back a result that keeps the id leaves the ids as they are. *)
Lemma write_back_ids (l : list Subtask) (t u : Subtask) (i : nat) :
  fst <$> list_find (fun x => id x = id t) l = Some i ->
  id u = id t ->
  map id (<[i := u]> l) = map id l.
Proof.
  intros Hfind Hid.
  destruct (list_find (fun x => id x = id t) l) as [[j x]|] eqn:E; [|done].
  simpl in Hfind. injection Hfind as ->.
  apply list_find_Some in E as (Hl & Hx & _).
  change (map id (<[i:=u]> l)) with (id <$> <[i:=u]> l).
  rewrite list_fmap_insert. apply list_insert_id.
  rewrite list_lookup_fmap, Hl. simpl. congruence.
Qed.

Lemma write_back_subtask_ids (t : Subtask) (o : option Subtask) (d : PRD) :
  (forall u, o = Some u -> id u = id t) ->
  subtask_ids
    (write_back o (fst <$> list_find (fun x => id x = id t) (userStories d)) d)
  = subtask_ids d.
Proof.
  intros Hid. unfold write_back. destruct o as [u|]; [|done].
  destruct (fst <$> list_find _ _) as [i|] eqn:E; [|done].
  unfold subtask_ids. simpl. eapply write_back_ids; eauto.
Qed.

Lemma passes_to_subset (env : Env) (s : LoopState) (w : World)
  (s' : LoopState) (w' : World) :
  keeps_ids env ->
  passes_to env s w s' w' ->
  completedTasks (progress s) ⊆ subtask_ids (prd s) ->
  completedTasks (progress s') ⊆ subtask_ids (prd s').
Proof.
  intros Hkeep H Hsub. loop_cases H; auto;
    match goal with
    | E : findNextTask _ _ = Some ?t, X : execute _ _ _ _ _ _ = Returned ?r |- _ =>
        apply findNextTask_member in E as [Hmem _];
        rewrite write_back_subtask_ids by (intros u; apply (Hkeep _ _ _ _ _ _ u X))
    end; auto.
  intros x Hx. apply elem_of_app in Hx as [Hx|Hx]; [by apply Hsub|].
  apply list_elem_of_singleton in Hx as ->.
  unfold subtask_ids. apply list_elem_of_fmap. eauto.
Qed.

(** The loop starts and resumes from what is on disk. *)
Lemma prelude_enter_persisted (env : Env) (req : Request) (s : LoopState) (w : World)
  (s' : LoopState) (w' : World) :
  persisted s w ->
  prelude env req w = Enter s' w' ->
  prd s' = prd s
  /\ completedTasks (progress s') = completedTasks (progress s)
  /\ persisted s' w'.
Proof.
  intros Hp H. unfold persisted in Hp.
  unfold prelude, checkExistingProject in H. rewrite Hp in H. simpl in H.
  repeat match type of H with
    | context [if ?b then _ else _] => destruct b eqn:?
    end; try discriminate H.
  by apply start_loop_enter in H.
Qed.

Lemma reachable_persisted (P : Env -> Prop) (s : LoopState) (w : World) :
  reachable P s w -> persisted s w.
Proof.
  induction 1 as [a d p w s w' Hc Hs | env s w s' w' HP Hr IH Hpass
                 | env req s w s' w' HP Hr IH Hpre].
  - by apply start_loop_enter in Hs as (_ & _ & ?).
  - by eapply passes_to_persisted.
  - by eapply prelude_enter_persisted in Hpre as (_ & _ & ?).
Qed.

(** The progress record [init] creates has no completed subtask. *)
Lemma init_completedTasks (env : Env) (req : Request) (w : World)
  (r : InitResult) (w1 : World) (d : PRD) (p : Progress) :
  init env req w = (JS.Normal r, w1) ->
  init_state r = Some (d, p) ->
  completedTasks p = [].
Proof.
  unfold init. intros Hi Hs.
  destruct (conversion env); inversion Hi; subst; simpl in Hs; try discriminate Hs.
  by inversion Hs.
Qed.

(** C9 (as the code has it).  Initialization creates the progress record
    with no completed subtask.  In every state the engine reaches from
    such a record, over any number of runs, the completed ids hold no
    duplicate: a pass through the loop appends at most the id of the
    subtask the resolver returned.  They are ids of subtasks of the work
    item as long as every structured result that is written back keeps
    the id of the subtask it replaces. *)
Theorem completedTasks_invariant (P : Env -> Prop) (s : LoopState) (w : World) :
  reachable P s w ->
  NoDup (completedTasks (progress s))
  /\ ((forall env, P env -> keeps_ids env) ->
      completedTasks (progress s) ⊆ subtask_ids (prd s))
  /\ (forall env req w0 r w1 d p,
        init env req w0 = (JS.Normal r, w1) ->
        init_state r = Some (d, p) ->
        completedTasks p = []).
Proof.
  intros Hreach.
  assert (NoDup (completedTasks (progress s))
          /\ ((forall env, P env -> keeps_ids env) ->
              completedTasks (progress s) ⊆ subtask_ids (prd s))) as [Hnd Hsub].
  { induction Hreach as [a d p w s w' Hc Hs | env s w s' w' HP Hr IH Hpass
                        | env req s w s' w' HP Hr IH Hpre].
    - apply start_loop_enter in Hs as (_ & -> & _). rewrite Hc. split.
      + apply NoDup_nil_2.
      + intros _ x Hx. inversion Hx.
    - destruct IH as [Hnd Hsub]. split.
      + by eapply passes_to_nodup.
      + intros Hkeep. eapply passes_to_subset; eauto.
    - destruct IH as [Hnd Hsub].
      eapply prelude_enter_persisted in Hpre as (-> & -> & _);
        [|by eapply reachable_persisted].
      auto. }
  split; [done|]. split; [done|]. exact init_completedTasks.
Qed.

Lemma after_pass_reachable (P : Env -> Prop) (env : Env) :
  P env ->
  (exists s w, loop_body env Samples.started_state Samples.started_world = Continue s w) ->
  reachable P (fst (Samples.after_pass env)) (snd (Samples.after_pass env)).
Proof.
  intros HP (s & w & Hs).
  apply reach_pass with (env := env) (s := Samples.started_state)
                        (w := Samples.started_world); [done| |].
  - apply reach_start with (a := Samples.default_active) (d := Samples.one_story)
                           (p := Samples.fresh_record)
                           (w := Samples.world_of Samples.one_story Samples.fresh_record);
      reflexivity.
  - left. unfold Samples.after_pass. rewrite Hs. reflexivity.
Qed.

Lemma obedient_keeps_ids : keeps_ids Samples.obedient.
Proof.
  intros n a task d p r u Hr Hu. simpl in Hr. injection Hr as <-.
  simpl in Hu. injection Hu as <-. reflexivity.
Qed.

Lemma completedTasks_invariant_witness :
  let s := fst (Samples.after_pass Samples.obedient) in
  reachable (fun env => env = Samples.obedient) s (snd (Samples.after_pass Samples.obedient))
  /\ NoDup (completedTasks (progress s))
  /\ completedTasks (progress s) ⊆ subtask_ids (prd s).
Proof.
  assert (reachable (fun env => env = Samples.obedient)
                    (fst (Samples.after_pass Samples.obedient))
                    (snd (Samples.after_pass Samples.obedient))) as Hreach.
  { apply after_pass_reachable; [reflexivity|].
    eexists _, _. vm_compute. reflexivity. }
  destruct (completedTasks_invariant (fun env => env = Samples.obedient)
              (fst (Samples.after_pass Samples.obedient))
              (snd (Samples.after_pass Samples.obedient)) Hreach) as (Hnd & Hsub & _).
  split; [exact Hreach|]. split; [exact Hnd|].
  apply Hsub. intros env ->. exact obedient_keeps_ids.
Defined.

(** C9, refuted as stated: one pending subtask A; the agent reports success
    and hands back a subtask under the id Z.  After the first pass the
    completed ids are [A] while the work item holds only Z. *)
Lemma renamed_subtask_breaks_subset :
  let s := fst (Samples.after_pass Samples.renaming) in
  reachable (fun _ => True) s (snd (Samples.after_pass Samples.renaming))
  /\ completedTasks (progress s) = ["A"]
  /\ subtask_ids (prd s) = ["Z"]
  /\ ~ completedTasks (progress s) ⊆ subtask_ids (prd s).
Proof.
  simpl. split; [|split; [|split]].
  - apply after_pass_reachable; [done|]. eexists _, _. vm_compute. reflexivity.
  - vm_compute. reflexivity.
  - vm_compute. reflexivity.
  - intros H.
    assert ("A" ∈ subtask_ids (prd (fst (Samples.after_pass Samples.renaming)))) as Hin.
    { apply H. vm_compute. apply list_elem_of_here. }
    vm_compute in Hin. apply list_elem_of_singleton in Hin. discriminate Hin.
Qed.

End EngineFacts.

(** ** Result extraction *)

Section ExtractFacts.
Import JS Extract.

Lemma strip_prefix_app (p x : jsstring) : strip_prefix p (p ++ x) = Some x.
Proof.
  induction p as [|c p IH]; simpl; [done|]. by rewrite N.eqb_refl.
Qed.

Lemma strip_prefix_Some (p s r : jsstring) : strip_prefix p s = Some r -> s = p ++ r.
Proof.
  revert s. induction p as [|c p IH]; intros s H; simpl in *.
  - by injection H as ->.
  - destruct s as [|y s]; [done|].
    destruct (N.eqb_spec c y) as [->|]; [|done].
    f_equal. by apply IH.
Qed.

(** [find_sub] splits the text at the first occurrence. *)
Lemma find_sub_Some (p s pre rest : jsstring) :
  find_sub p s = Some (pre, rest) ->
  s = pre ++ p ++ rest /\ (p <> [] -> ~ includes pre p).
Proof.
  revert pre. induction s as [|c s IH]; intros pre H; simpl in H.
  - destruct (strip_prefix p []) as [r|] eqn:E; [|done].
    injection H as <- <-. split; [by apply strip_prefix_Some in E|].
    intros Hp (a & b & Hab). destruct a, p; done.
  - destruct (strip_prefix p (c :: s)) as [r|] eqn:E.
    + injection H as <- <-. split; [by apply strip_prefix_Some in E|].
      intros Hp (a & b & Hab). destruct a, p; done.
    + destruct (find_sub p s) as [[pre' rest']|] eqn:F; [|done].
      injection H as <- ->. destruct (IH pre' eq_refl) as [-> Hno].
      split; [done|]. intros Hp (a & b & Hab).
      destruct a as [|x a]; simpl in Hab.
      * assert (c :: pre' ++ p ++ rest = p ++ (b ++ p ++ rest)) as Heq.
        { change (c :: pre' ++ p ++ rest) with ((c :: pre') ++ p ++ rest).
          rewrite Hab. by rewrite <- app_assoc. }
        rewrite Heq, strip_prefix_app in E. done.
      * injection Hab as -> Hab. apply (Hno Hp). by exists a, b.
Qed.













End ExtractFacts.

(** ** The adapter and the execution of one subtask *)

Section AdapterFacts.
Import JS Adapter.

Lemma on_close_nonzero (code : option Z) (c : Capture) :
  code <> Some 0%Z ->
  on_close code c
  = {| output := Some (stdout c);
       error := Some (Error (str "Claude exited with code " ++ code_text code
                             ++ str ": " ++ stderr c));
       usage := taskUsage c;
       contextManagement := cap_contextManagement c;
       structuredOutput := cap_structuredOutput c |}.
Proof.
  intros H. destruct code as [[| |]|]; done.
Qed.

(** ** Drawing the rows *)

Lemma value_array_ind (P : value -> Prop) :
  (forall v, isArray v = false -> P v) ->
  (forall elems, Forall P elems -> P (VArr elems)) ->
  forall v, P v.
Proof.
  intros Hother Harr. fix IH 1. intros v.
  destruct v as [| | | | |elems|props]; try (by apply Hother).
  apply Harr. induction elems as [|x elems IHl]; constructor; [apply IH|apply IHl].
Qed.

(** The conversion of an array: the first element, then the rest. *)
Lemma to_text_cons (number_text : Z -> Z -> jsstring) (x : value) (l : list value) :
  to_text number_text (VArr (x :: l))
  = let* here := match x with
                 | VUndefined | VNull => Normal []
                 | _ => to_text number_text x
                 end in
    let* there := to_text number_text (VArr l) in
    Normal (here ++ match l with [] => [] | _ => ch "," :: there end).
Proof. reflexivity. Qed.

(** A conversion to text throws nothing but a TypeError. *)
Lemma to_text_throws (number_text : Z -> Z -> jsstring) (v : value) (e : exn) :
  to_text number_text v = Throw e -> e = TypeError.
Proof.
  revert e. induction v as [v Hv|elems IH] using value_array_ind; intros e.
  - destruct v as [| | | | |elems|props]; try discriminate.
    simpl. destruct (has_own (str "toString") props); [by intros [= <-]|done].
  - induction IH as [|x l Hx _ IHl]; [discriminate|].
    rewrite to_text_cons.
    assert (forall e0, match x with
                       | VUndefined | VNull => Normal []
                       | _ => to_text number_text x
                       end = Throw e0 -> e0 = TypeError) as Hhere.
    { intros e0. destruct x; try discriminate; apply Hx. }
    destruct (match x with VUndefined | VNull => Normal [] | _ => to_text number_text x end)
      as [here|e0]; cbn [bind]; [|intros [= <-]; by apply Hhere].
    destruct (to_text number_text (VArr l)) as [there|e1]; cbn [bind]; [done|].
    intros [= <-]. by apply IHl.
Qed.

Lemma to_text_primitive (number_text : Z -> Z -> jsstring) (v : value) :
  primitive v = true -> to_text number_text v = Normal (toString number_text v).
Proof. by destruct v. Qed.

(** Where the conversion does not throw, it gives the text of [toString]. *)
Lemma to_text_Normal (number_text : Z -> Z -> jsstring) (v : value) (s : jsstring) :
  to_text number_text v = Normal s -> toString number_text v = s.
Proof.
  revert s. induction v as [v Hv|elems IH] using value_array_ind; intros s.
  - destruct v as [| |[]| | |elems|props]; try discriminate; try (by intros [= <-]).
    simpl. destruct (has_own (str "toString") props); [done|by intros [= <-]].
  - revert s. induction IH as [|x l Hx _ IHl]; intros s; [by intros [= <-]|].
    rewrite to_text_cons.
    change (toString number_text (VArr (x :: l)))
      with (match x with
            | VUndefined | VNull => []
            | _ => toString number_text x
            end
            ++ match l with [] => [] | _ => ch "," :: toString number_text (VArr l) end).
    assert (forall here, match x with
                         | VUndefined | VNull => Normal []
                         | _ => to_text number_text x
                         end = Normal here ->
                         match x with
                         | VUndefined | VNull => []
                         | _ => toString number_text x
                         end = here) as Hhere.
    { intros here. destruct x; try (by intros [= <-]); apply Hx. }
    destruct (match x with VUndefined | VNull => Normal [] | _ => to_text number_text x end)
      as [here|e0]; cbn [bind]; [|done].
    rewrite (Hhere here eq_refl).
    destruct (to_text number_text (VArr l)) as [there|e1]; cbn [bind]; [|done].
    intros [= <-]. by rewrite (IHl there eq_refl).
Qed.

Lemma gt_zero_throws (number_text : Z -> Z -> jsstring) (v : value) (e : exn) :
  gt_zero number_text v = Throw e -> e = TypeError.
Proof.
  destruct v as [| | | | |elems|props]; try discriminate; unfold gt_zero;
    (destruct (to_text number_text _) as [s|e0] eqn:Ht; cbn [bind]; [done|]);
    intros [= <-]; by apply (to_text_throws _ _ _ Ht).
Qed.

Lemma gt_zero_length (number_text : Z -> Z -> jsstring) (n : nat) :
  gt_zero number_text (VNum (Z.of_nat n) 0) = Normal (negb (Nat.eqb n 0)).
Proof.
  by destruct n.
Qed.

Lemma formatProgress_drawn (filled : Z) :
  (0 <= filled <= 30)%Z -> exists bar, Print.formatProgress filled = Normal bar.
Proof.
  intros [H0 H30]. unfold Print.formatProgress, Print.renderProgressBar.
  destruct (Z.ltb_spec filled 0) as [|_]; [lia|].
  destruct (Z.ltb_spec (30 - filled) 0) as [|_]; [lia|]. by eexists.
Qed.

Lemma formatProgress_throws (filled : Z) (e : exn) :
  Print.formatProgress filled = Throw e -> e = RangeError /\ ~ (0 <= filled <= 30)%Z.
Proof.
  unfold Print.formatProgress, Print.renderProgressBar.
  destruct (Z.ltb_spec filled 0); [intros [= <-]; split; [done|lia]|].
  destruct (Z.ltb_spec (30 - filled) 0); [intros [= <-]; split; [done|lia]|done].
Qed.

(** Beyond the bar every row of the table throws. *)
Lemma formatProgress_beyond (filled : Z) :
  ~ (0 <= filled <= 30)%Z -> Print.formatProgress filled = Throw RangeError.
Proof.
  intros Hout. destruct (Print.formatProgress filled) as [bar|e] eqn:Hf.
  - unfold Print.formatProgress, Print.renderProgressBar in Hf.
    destruct (Z.ltb_spec filled 0); [done|].
    destruct (Z.ltb_spec (30 - filled) 0); [done|]. lia.
  - by apply formatProgress_throws in Hf as [-> _].
Qed.

(** A failure row with a message that is a text, or any other primitive. *)
Lemma tableTaskFailed_drawn (number_text : Z -> Z -> jsstring) (filled : Z) (message : value) :
  (0 <= filled <= 30)%Z ->
  primitive message = true ->
  Print.tableTaskFailed number_text filled message = Normal tt.
Proof.
  intros Hin Hm. unfold Print.tableTaskFailed, Print.tableRow.
  destruct (formatProgress_drawn filled Hin) as [bar ->]. cbn [bind].
  rewrite (to_text_primitive _ _ Hm). cbn [bind]. by destruct (truthy message).
Qed.

Lemma tableTaskFailed_text (number_text : Z -> Z -> jsstring) (filled : Z) (s : jsstring) :
  (0 <= filled <= 30)%Z ->
  Print.tableTaskFailed number_text filled (VStr s) = Normal tt.
Proof. intros Hin. by apply tableTaskFailed_drawn. Qed.

Lemma tableTaskFailed_beyond (number_text : Z -> Z -> jsstring) (filled : Z) (message : value) :
  ~ (0 <= filled <= 30)%Z ->
  Print.tableTaskFailed number_text filled message = Throw RangeError.
Proof.
  intros Hout. unfold Print.tableTaskFailed. by rewrite (formatProgress_beyond _ Hout).
Qed.

Lemma tableTaskFailed_throws (number_text : Z -> Z -> jsstring) (filled : Z)
  (message : value) (e : exn) :
  Print.tableTaskFailed number_text filled message = Throw e ->
  (e = RangeError /\ ~ (0 <= filled <= 30)%Z)
  \/ (e = TypeError /\ (0 <= filled <= 30)%Z /\ primitive message = false).
Proof.
  unfold Print.tableTaskFailed, Print.tableRow.
  destruct (Print.formatProgress filled) as [bar|e0] eqn:Hf; cbn [bind].
  - assert (0 <= filled <= 30)%Z as Hin.
    { destruct (decide (0 <= filled <= 30)%Z) as [|Hout]; [done|].
      by rewrite (formatProgress_beyond _ Hout) in Hf. }
    destruct (truthy message); [|done].
    destruct (to_text number_text message) as [s|e1] eqn:Ht; cbn [bind]; [done|].
    intros [= <-]. right. split; [by apply (to_text_throws _ _ _ Ht)|]. split; [done|].
    destruct (primitive message) eqn:Hp; [|done].
    by rewrite (to_text_primitive _ _ Hp) in Ht.
  - intros [= <-]. left. by apply formatProgress_throws.
Qed.

Lemma tableTaskDone_beyond (number_text : Z -> Z -> jsstring) (filled : Z)
  (commitHash changedFiles : value) :
  ~ (0 <= filled <= 30)%Z ->
  Print.tableTaskDone number_text filled commitHash changedFiles = Throw RangeError.
Proof.
  intros Hout. unfold Print.tableTaskDone. by rewrite (formatProgress_beyond _ Hout).
Qed.

Lemma tableTaskDone_throws (number_text : Z -> Z -> jsstring) (filled : Z)
  (commitHash changedFiles : value) (e : exn) :
  Print.tableTaskDone number_text filled commitHash changedFiles = Throw e ->
  (e = RangeError /\ ~ (0 <= filled <= 30)%Z) \/ (e = TypeError /\ (0 <= filled <= 30)%Z).
Proof.
  unfold Print.tableTaskDone.
  destruct (Print.formatProgress filled) as [bar|e0] eqn:Hf; cbn [bind].
  - assert (0 <= filled <= 30)%Z as Hin.
    { destruct (decide (0 <= filled <= 30)%Z) as [|Hout]; [done|].
      by rewrite (formatProgress_beyond _ Hout) in Hf. }
    intros Hthrow. right. split; [|done].
    destruct (truthy commitHash).
    + destruct commitHash; cbn [bind] in Hthrow; try (by injection Hthrow as <-).
      destruct changedFiles; try discriminate Hthrow;
        (destruct (to_text number_text _) as [s0|e1] eqn:Ht; cbn [bind] in Hthrow;
         [discriminate|injection Hthrow as <-; by apply (to_text_throws _ _ _ Ht)]).
    + cbn [bind] in Hthrow.
      destruct changedFiles; try discriminate Hthrow;
        (destruct (to_text number_text _) as [s0|e1] eqn:Ht; cbn [bind] in Hthrow;
         [discriminate|injection Hthrow as <-; by apply (to_text_throws _ _ _ Ht)]).
  - intros [= <-]. left. by apply formatProgress_throws.
Qed.

Lemma print_notes_throws (number_text : Z -> Z -> jsstring) (items : list value) (e : exn) :
  Print.print_notes number_text items = Throw e -> e = TypeError.
Proof.
  induction items as [|item items IH]; [discriminate|]. simpl.
  unfold Print.print_note, get. destruct (is_nullish item); [by intros [= <-]|].
  cbn [bind].
  destruct (to_text number_text (prop item (str "type"))) as [a|e1] eqn:H1; cbn [bind];
    [|intros [= <-]; by apply (to_text_throws _ _ _ H1)].
  destruct (to_text number_text (prop item (str "note"))) as [b|e2] eqn:H2; cbn [bind];
    [|intros [= <-]; by apply (to_text_throws _ _ _ H2)].
  apply IH.
Qed.

Lemma notes_row_throws (number_text : Z -> Z -> jsstring) (u : value) (e : exn) :
  notes_row number_text u = Throw e -> e = TypeError.
Proof.
  unfold notes_row.
  destruct (gt_zero number_text _) as [some|e0] eqn:Hg; cbn [bind];
    [|intros [= <-]; by apply (gt_zero_throws _ _ _ Hg)].
  destruct some; [|done]. unfold Print.criticalNotes.
  destruct (negb _ || _); [done|].
  destruct (or_else _ _); try (by intros [= <-]). apply print_notes_throws.
Qed.

Lemma done_row_throws (number_text : Z -> Z -> jsstring) (filled : Z) (u : value) (e : exn) :
  done_row number_text filled u = Throw e ->
  (e = RangeError /\ ~ (0 <= filled <= 30)%Z) \/ e = TypeError.
Proof.
  unfold done_row.
  destruct (gt_zero number_text _) as [some|e0] eqn:Hg; cbn [bind];
    [|intros [= <-]; right; by apply (gt_zero_throws _ _ _ Hg)].
  intros Hd. apply tableTaskDone_throws in Hd as [Hd|[-> _]]; [by left|by right].
Qed.

Lemma done_row_beyond (number_text : Z -> Z -> jsstring) (filled : Z) (u : value) :
  ~ (0 <= filled <= 30)%Z ->
  exists e, done_row number_text filled u = Throw e /\ (e = RangeError \/ e = TypeError).
Proof.
  intros Hout. unfold done_row.
  destruct (gt_zero number_text _) as [some|e0] eqn:Hg; cbn [bind].
  - rewrite (tableTaskDone_beyond _ _ _ _ Hout). eauto.
  - exists e0. split; [done|]. right. by apply (gt_zero_throws _ _ _ Hg).
Qed.

(** A result that is presentable is drawn, in each of its rows. *)
Lemma presentable_rows (number_text : Z -> Z -> jsstring) (filled : Z) (u : value) :
  (0 <= filled <= 30)%Z ->
  presentable u = true ->
  done_row number_text filled u = Normal tt
  /\ notes_row number_text u = Normal tt
  /\ forall fallback,
       Print.tableTaskFailed number_text filled
         (or_else (prop u (str "notes")) (VStr fallback)) = Normal tt.
Proof.
  intros Hin Hp. unfold presentable in Hp.
  apply andb_true_iff in Hp as [Hp Hnotes]. apply andb_true_iff in Hp as [Hp Hcrit].
  apply andb_true_iff in Hp as [Hcommits Hfiles].
  destruct (formatProgress_drawn filled Hin) as [bar Hbar].
  split; [|split].
  - unfold done_row.
    destruct (or_else (prop u (str "changedFiles")) (VArr [])) as [| | | | |files|];
      try discriminate Hfiles.
    assert (forall commitHash,
              text_or_falsy commitHash = true ->
              Print.tableTaskDone number_text filled (or_else commitHash VNull)
                (length_of (VArr files)) = Normal tt) as Hdone.
    { intros commitHash Hc. unfold Print.tableTaskDone. rewrite Hbar. cbn [bind].
      unfold or_else. destruct commitHash as [| |b|m e|s| |]; try discriminate Hc;
        cbn [text_or_falsy] in Hc; try (apply negb_true_iff in Hc; rewrite Hc);
        try reflexivity.
      destruct s; reflexivity. }
    destruct (or_else (prop u (str "commits")) (VArr [])) as [| | | | |[|c commits]|];
      try discriminate Hcommits.
    + cbn [length_of length]. rewrite gt_zero_length. cbn [bind Nat.eqb negb].
      by apply (Hdone VUndefined).
    + cbn [length_of length]. rewrite gt_zero_length. cbn [bind Nat.eqb negb item0].
      by apply Hdone.
  - unfold notes_row.
    destruct (or_else (prop u (str "criticalNotes")) (VArr [])) as [| | | | |items|] eqn:Hn;
      try discriminate Hcrit.
    cbn [length_of]. rewrite gt_zero_length. cbn [bind].
    destruct items as [|item items]; [done|]. cbn [length Nat.eqb negb].
    unfold Print.criticalNotes. cbn [truthy negb orb length_of Print.is_zero].
    assert (num_is_zero (Z.of_nat (length (item :: items))) 0 = false) as ->.
    { unfold num_is_zero. cbn [length]. apply orb_false_iff.
      split; [apply Z.eqb_neq; lia|done]. }
    revert Hcrit. generalize (item :: items). clear. intros items.
    induction items as [|n items IH]; [done|]. cbn [forallb].
    intros [[[Hnn Ht]%andb_true_iff Hnote]%andb_true_iff Hrest]%andb_true_iff.
    cbn [Print.print_notes]. unfold Print.print_note, get.
    apply negb_true_iff in Hnn. rewrite Hnn. cbn [bind].
    rewrite (to_text_primitive _ _ Ht), (to_text_primitive _ _ Hnote). cbn [bind].
    by apply IH.
  - intros fallback. apply tableTaskFailed_drawn; [done|].
    unfold or_else. by destruct (truthy (prop u (str "notes"))).
Qed.

(** ** The decision *)

(** [judge] by cases, the default of the security check resolved. *)
Lemma judge_cases (number_text : Z -> Z -> jsstring) (filled : Z) (u : value) :
  is_nullish u = false ->
  judge number_text filled u
  = if security_failed u then
      let* shown := Print.tableTaskFailed number_text filled
                      (VStr (str "Security check failed")) in
      Normal (security_failure u)
    else if truthy (prop u (str "passes")) then
      let* shown := done_row number_text filled u in
      let* noted := notes_row number_text u in
      Normal (passed_report u)
    else if is_str (prop u (str "status")) (str "blocked") then
      let* shown := Print.tableTaskFailed number_text filled
                      (or_else (prop u (str "notes")) (VStr (str "Blocked"))) in
      Normal {| success := false; updatedTask := u;
                exitCode := EXIT_CODES.TASK_BLOCKED; why := Blocked;
                failure := Some (or_else (prop u (str "notes")) (VStr (str "Blocked")));
                logged := None |}
    else
      let* shown := Print.tableTaskFailed number_text filled
                      (or_else (prop u (str "notes")) (VStr (str "Failed"))) in
      Normal {| success := false; updatedTask := u;
                exitCode := EXIT_CODES.TASK_FAILED; why := Failed;
                failure := Some (or_else (prop u (str "notes")) (VStr (str "Failed")));
                logged := None |}.
Proof.
  intros Hnn. unfold judge, get, security_failed. rewrite Hnn. cbn [bind]. unfold or_else.
  destruct (truthy (prop u (str "securityCheck"))) eqn:Hsc; cbn [andb]; [done|].
  by change (truthy (prop (VObj [(str "passed", VBool true); (str "issues", VArr [])])
                          (str "passed"))) with true.
Qed.

(** What a report of [judge] says, by the fields of the result. *)
Lemma judge_report (number_text : Z -> Z -> jsstring) (filled : Z) (u : value)
  (rep : TaskReport) :
  judge number_text filled u = Normal rep ->
  is_nullish u = false
  /\ updatedTask rep = u
  /\ logged rep = None
  /\ ((security_failed u = true /\ rep = security_failure u)
      \/ (security_failed u = false /\ truthy (prop u (str "passes")) = true
          /\ rep = passed_report u)
      \/ (security_failed u = false /\ truthy (prop u (str "passes")) = false
          /\ success rep = false
          /\ exitCode rep = (if is_str (prop u (str "status")) (str "blocked")
                             then EXIT_CODES.TASK_BLOCKED else EXIT_CODES.TASK_FAILED)
          /\ why rep = (if is_str (prop u (str "status")) (str "blocked")
                        then Blocked else Failed)
          /\ failure rep
             = Some (or_else (prop u (str "notes"))
                       (VStr (if is_str (prop u (str "status")) (str "blocked")
                              then str "Blocked" else str "Failed"))))).
Proof.
  intros Hj.
  assert (is_nullish u = false) as Hnn.
  { destruct (is_nullish u) eqn:Hn; [|done]. unfold judge, get in Hj. by rewrite Hn in Hj. }
  split; [done|]. rewrite (judge_cases _ _ _ Hnn) in Hj.
  destruct (security_failed u).
  { destruct (Print.tableTaskFailed _ _ _); [|done]. injection Hj as <-.
    split; [done|]. split; [done|]. by left. }
  destruct (truthy (prop u (str "passes"))).
  { destruct (done_row _ _ _); [|done]. cbn [bind] in Hj.
    destruct (notes_row _ _); [|done]. injection Hj as <-.
    split; [done|]. split; [done|]. right. by left. }
  destruct (is_str (prop u (str "status")) (str "blocked"));
    (destruct (Print.tableTaskFailed _ _ _); [|done]); injection Hj as <-;
    cbn [updatedTask logged]; (split; [done|]); (split; [done|]);
    right; right; done.
Qed.



(** The structured result of the witness is used: the subtask succeeds
    although the process failed. *)
Example failed_process_passing_result :
  executeTask Samples.whole_number Samples.no_message Samples.cells
    (on_close (Some 1%Z) Samples.captured)
  = Normal (passed_report Samples.passing_result).
Proof. by vm_compute. Qed.


(** A usage above the context window: the bar cannot be drawn, and the
    structured result gives no report. *)
Example overfull_usage_throws :
  progress_cells Samples.cells (taskUsage Samples.overfull) = Normal 32%Z
  /\ executeTask Samples.whole_number Samples.no_message Samples.cells
       (on_close (Some 0%Z) Samples.overfull)
     = Throw RangeError.
Proof. split; by vm_compute. Qed.



(** The result of the witness succeeds without a security check. *)
Example unchecked_result_succeeds :
  judge Samples.whole_number 0 Samples.unchecked_result
  = Normal (passed_report Samples.unchecked_result).
Proof. by vm_compute. Qed.


(** Passing results that give no report: critical notes that are a text
    have no [forEach], and the hash of a commit that is a number has no
    [substring]. *)
Example undrawable_results_throw :
  presentable Samples.noted_result = false
  /\ judge Samples.whole_number 0 Samples.noted_result = Throw TypeError
  /\ presentable Samples.numbered_commit_result = false
  /\ judge Samples.whole_number 0 Samples.numbered_commit_result = Throw TypeError.
Proof. repeat split; by vm_compute. Qed.

End AdapterFacts.

(** ** The set configuration *)

Section ConfigFacts.
Import JS ClaudeTool UserConfig.

Lemma includes_here (s rest : jsstring) : includes (s ++ rest) s.
Proof. by exists [], rest. Qed.

Lemma includes_end (s : jsstring) : includes s s.
Proof. exists [], []. by rewrite app_nil_r. Qed.

Lemma includes_app_r (a b s : jsstring) : includes b s -> includes (a ++ b) s.
Proof.
  intros (x & y & ->). exists (a ++ x), y. by rewrite <- app_assoc.
Qed.

Lemma includes_app_l (a b s : jsstring) : includes a s -> includes (a ++ b) s.
Proof.
  intros (x & y & ->). exists x, (y ++ b). by rewrite <- !app_assoc.
Qed.

Lemma includes_trans (a b c : jsstring) : includes a b -> includes b c -> includes a c.
Proof.
  intros (x & y & ->) (x' & y' & ->). exists (x ++ x'), (y' ++ y).
  by rewrite <- !app_assoc.
Qed.

Lemma includes_join (sep : jsstring) (l : list jsstring) (m : jsstring) :
  m ∈ l -> includes (join sep l) m.
Proof.
  induction l as [|x l IH]; intros Hm; [by inversion Hm|].
  apply elem_of_cons in Hm as [->|Hm].
  - destruct l; [apply includes_end|apply includes_here].
  - destruct l as [|y l]; [by inversion Hm|].
    change (join sep (x :: y :: l)) with (x ++ sep ++ join sep (y :: l)).
    do 2 apply includes_app_r. by apply IH.
Qed.








(** The document of the repository's test, loaded from [set.json]. *)
Example loadSetConfig_only_name :
  exists text,
    loadSetConfig Samples.whole_number Samples.no_message Samples.set_json_path
                  (Normal Samples.only_name_text)
    = Throw (Error text)
    /\ JSON.parse Samples.only_name_text = Some Samples.only_name.
Proof.
  eexists. split; vm_compute; reflexivity.
Qed.



End ConfigFacts.


(* ===================================================================== *)
(** * Further properties *)
(* ===================================================================== *)

(** ** The loop, pass by pass *)

Section LoopFacts.
Import Resolver Engine.

Ltac pass_cases H :=
  unfold passes_to, loop_body, no_next_task, run_task in H;
  repeat match type of H with
    | context [findNextTask ?l ?c] => destruct (findNextTask l c) eqn:?
    | context [allDone ?l ?c] => destruct (allDone l c) eqn:?
    | context [execute ?e ?n ?a ?t ?d ?p] => destruct (execute e n a t d p) eqn:?
    | context [success ?r] => destruct (success r) eqn:?
    | context [if ?b then _ else _] => destruct b eqn:?
    end;
  simpl in H;
  destruct H as [H|[H|[? H]]]; try discriminate H;
  inversion H; subst; clear H; simpl.

Lemma loop_pass (env : Env) (s : LoopState) (w : World) :
  match loop_body env s w with
  | Continue s' w' | Break s' w' | Raise _ s' w' => passes_to env s w s' w'
  end.
Proof.
  unfold passes_to. destruct (loop_body env s w); eauto.
Qed.

(** What a pass that goes on has done. *)
Lemma loop_body_Continue (env : Env) (s : LoopState) (w : World)
  (s' : LoopState) (w' : World) :
  loop_body env s w = Continue s' w' ->
  exists t r,
    let p1 := set_currentTask (Some (id t)) (progress s) in
    findNextTask (userStories (prd s)) (completedTasks (progress s)) = Some t
    /\ execute env (iteration s) (active s) t (prd s) p1 = Returned r
    /\ success r = true
    /\ prd s' = write_back (updatedTask r)
                  (fst <$> list_find (fun u => id u = id t) (userStories (prd s))) (prd s)
    /\ progress s' = set_currentTask None (push_completed (id t) p1)
    /\ loop_exitCode s' = loop_exitCode s
    /\ active s' = active s
    /\ w' = saveState (prd s') (progress s')
              (invoke Task (Some (id t)) (saveState (prd s) p1 w)).
Proof.
  unfold loop_body, no_next_task, run_task.
  destruct (findNextTask _ _) as [t|] eqn:Hfind.
  - destruct (execute _ _ _ _ _ _) as [r|e invoked] eqn:Hexec; [|discriminate].
    destruct (success r) eqn:Hsuccess; simpl; [|discriminate].
    intros H. injection H as <- <-. exists t, r. simpl. by rewrite Hexec.
  - destruct (allDone _ _); simpl; discriminate.
Qed.

(** The events of one pass: the agent is invoked at most once, for the
    subtask the resolver returned, right after a save that announces it. *)
Lemma pass_events (env : Env) (s : LoopState) (w : World)
  (s' : LoopState) (w' : World) :
  passes_to env s w s' w' ->
  exists new,
    trace w' = new ++ trace w
    /\ announced (new ++ trace w) = announced (trace w)
    /\ (invoked_tasks new = []
        \/ exists t,
             findNextTask (userStories (prd s)) (completedTasks (progress s)) = Some t
             /\ invoked_tasks new = [id t]).
Proof.
  intros H. pass_cases H.
  all: try (eexists [_; Invoked Task (Some _); _]; split; [reflexivity|]; split;
            [simpl; by rewrite bool_decide_eq_true_2|right; eauto]).
  all: try (eexists [Invoked Task (Some _); _]; split; [reflexivity|]; split;
            [simpl; by rewrite bool_decide_eq_true_2|right; eauto]).
  all: eexists [_]; split; [reflexivity|]; split; [done|by left].
Qed.

(** A pass hands on the work item apart from its subtasks, and the
    progress record apart from the fields it sets; the completed subtasks
    are kept and at most one is added. *)
Lemma pass_keeps (env : Env) (s : LoopState) (w : World)
  (s' : LoopState) (w' : World) :
  passes_to env s w s' w' ->
  same_item (prd s) (prd s')
  /\ same_run (progress s) (progress s')
  /\ completedTasks (progress s) `prefix_of` completedTasks (progress s')
  /\ active s' = active s.
Proof.
  assert (forall o i d, same_item d (write_back o i d)) as Hwb.
  { intros [u|] [i|] d; unfold same_item, write_back; simpl;
      rewrite ?length_insert; done. }
  intros H. pass_cases H; unfold same_run; simpl;
    (split; [first [apply Hwb | by unfold same_item]|]);
    (split; [done|]); (split; [|done]);
    first [done | by apply prefix_app_r | by eexists].
Qed.

Lemma nodup_subset_length (l k : list string) :
  NoDup l -> l ⊆ k -> length l <= length k.
Proof.
  intros Hn Hs. apply submseteq_length, NoDup_submseteq; [done|].
  intros x. apply Hs.
Qed.

(** Under an agent that keeps the ids, a pass that goes on leaves one open
    subtask less. *)
Lemma continue_open (env : Env) (s : LoopState) (w : World)
  (s' : LoopState) (w' : World) :
  keeps_ids env ->
  loop_body env s w = Continue s' w' ->
  NoDup (completedTasks (progress s)) ->
  completedTasks (progress s) ⊆ subtask_ids (prd s) ->
  NoDup (completedTasks (progress s'))
  /\ completedTasks (progress s') ⊆ subtask_ids (prd s')
  /\ open_tasks s' < open_tasks s.
Proof.
  intros Hk Hb Hn Hs.
  assert (passes_to env s w s' w') as Hp by (by left).
  pose proof (passes_to_nodup _ _ _ _ _ Hp Hn) as Hn'.
  pose proof (passes_to_subset _ _ _ _ _ Hk Hp Hs) as Hs'.
  split; [done|]. split; [done|].
  pose proof (nodup_subset_length _ _ Hn' Hs') as Hlen.
  destruct (loop_body_Continue _ _ _ _ _ Hb)
    as (t & r & Hfind & Hexec & Hsucc & Hprd & Hprog & _).
  unfold open_tasks. rewrite Hprd, Hprog in *.
  rewrite write_back_subtask_ids in * by (intros u Hu; eapply Hk; eauto).
  simpl in *. rewrite length_app in *. simpl in *. lia.
Qed.

(** X1.  The loop ends.  With an agent that hands back each subtask under
    the id it was given, and a progress record whose completed ids are
    distinct ids of subtasks, the loop stops (an exit code or an exception
    of [executeTask]) within one pass more than there are subtasks not yet
    completed; more passes allowed change nothing. *)
Theorem loop_terminates (env : Env) (fuel : nat) (s : LoopState) (w : World) :
  keeps_ids env ->
  NoDup (completedTasks (progress s)) ->
  completedTasks (progress s) ⊆ subtask_ids (prd s) ->
  open_tasks s < fuel ->
  fst (loop env fuel s w) <> OutOfFuel
  /\ forall fuel', fuel <= fuel' -> loop env fuel' s w = loop env fuel s w.
Proof.
  intros Hk. revert s w.
  induction fuel as [|fuel IH]; intros s w Hn Hs Hlt; [lia|].
  simpl. destruct (loop_body env s w) as [s1 w1|s1 w1|e s1 w1] eqn:Hb.
  - destruct (continue_open _ _ _ _ _ Hk Hb Hn Hs) as (Hn1 & Hs1 & Hopen).
    destruct (IH s1 w1 Hn1 Hs1 ltac:(lia)) as [Hfst Hmore].
    split; [done|].
    intros [|fuel'] Hle; [lia|]. simpl. rewrite Hb. apply Hmore. lia.
  - split; [done|]. intros [|fuel'] Hle; [lia|]. simpl. by rewrite Hb.
  - split; [done|]. intros [|fuel'] Hle; [lia|]. simpl. by rewrite Hb.
Qed.

Lemma loop_terminates_witness :
  fst (loop Samples.obedient 2 Samples.started_state Samples.started_world) <> OutOfFuel
  /\ forall fuel', 2 <= fuel' ->
       loop Samples.obedient fuel' Samples.started_state Samples.started_world
       = loop Samples.obedient 2 Samples.started_state Samples.started_world.
Proof.
  apply (loop_terminates Samples.obedient 2 Samples.started_state Samples.started_world).
  - apply obedient_keeps_ids.
  - simpl. constructor.
  - simpl. intros x Hx. inversion Hx.
  - vm_compute. lia.
Defined.

(** X2.  Without that, the loop need not end.  With an agent that reports
    success and hands back each subtask as pending, free of dependencies,
    under a longer id, a work item with one such subtask keeps the loop
    going: however many passes are allowed, it has not stopped. *)
Theorem restless_agent_never_stops
  (env : Env) (fuel : nat) (s : LoopState) (w : World) :
  restless env ->
  one_open_subtask s ->
  fst (loop env fuel s w) = OutOfFuel.
Proof.
  intros Henv. revert s w. induction fuel as [|fuel IH]; intros s w Hs; [done|].
  destruct Hs as (t & Hstories & Hstatus & Hdeps & Hlen).
  assert (id t ∉ completedTasks (progress s)) as Hfresh.
  { intros Hin. apply Hlen in Hin. lia. }
  assert (findNextTask (userStories (prd s)) (completedTasks (progress s)) = Some t)
    as Hfind.
  { rewrite Hstories. unfold findNextTask, eligible. cbn [List.find].
    rewrite bool_decide_eq_false_2 by (by rewrite elem_of_list_to_set).
    by rewrite Hstatus, Hdeps. }
  destruct (Henv (iteration s) (active s) t (prd s)
              (set_currentTask (Some (id t)) (progress s)))
    as (r & u & Hexec & Hsuccess & Hupdated & Hpending & Hfree & Hlonger).
  cbn [loop]. unfold loop_body, run_task. rewrite Hfind, Hexec, Hsuccess, Hupdated.
  apply IH. exists u. cbn [prd progress completedTasks set_currentTask push_completed].
  rewrite Hstories. cbn [list_find]. rewrite decide_True by done.
  cbn [fmap option_fmap option_map fst write_back set_userStories userStories].
  split; [by rewrite Hstories|]. split; [done|]. split; [done|].
  intros i [Hin| ->%list_elem_of_singleton]%elem_of_app; [|done].
  apply Hlen in Hin. lia.
Qed.

Lemma restless_agent_never_stops_witness :
  fst (loop Samples.retitling 7 Samples.started_state Samples.started_world) = OutOfFuel.
Proof.
  apply (restless_agent_never_stops Samples.retitling 7 Samples.started_state
           Samples.started_world).
  - intros n a task d p. eexists _, _. split; [reflexivity|].
    repeat split; simpl; lia.
  - eexists. split; [reflexivity|]. repeat split. intros i Hi. inversion Hi.
Defined.

(** The events of a whole loop: every invocation is announced, no subtask
    is handed to the agent twice, and none that was completed before. *)
Lemma loop_events (env : Env) (fuel : nat) (s : LoopState) (w : World)
  (o : Outcome) (w' : World) :
  loop env fuel s w = (o, w') ->
  exists new,
    trace w' = new ++ trace w
    /\ announced (new ++ trace w) = announced (trace w)
    /\ NoDup (invoked_tasks new)
    /\ forall i, i ∈ invoked_tasks new -> i ∉ completedTasks (progress s).
Proof.
  revert s w. induction fuel as [|fuel IH]; intros s w Hl; simpl in Hl.
  { injection Hl as <- <-. exists []. repeat split; [constructor|].
    intros i Hi. inversion Hi. }
  pose proof (loop_pass env s w) as Hp.
  assert (forall s1 w1, passes_to env s w s1 w1 ->
            exists new, trace w1 = new ++ trace w
              /\ announced (new ++ trace w) = announced (trace w)
              /\ NoDup (invoked_tasks new)
              /\ forall i, i ∈ invoked_tasks new -> i ∉ completedTasks (progress s))
    as Hone.
  { intros s1 w1 H1. destruct (pass_events _ _ _ _ _ H1) as (new & Ht & Ha & Hi).
    exists new. split; [done|]. split; [done|].
    destruct Hi as [->|(t & Hfind & ->)].
    - split; [constructor|]. intros i Hi. inversion Hi.
    - split; [apply NoDup_singleton|]. intros i Hi.
      apply list_elem_of_singleton in Hi as ->.
      by apply findNextTask_member in Hfind as [_ ?]. }
  destruct (loop_body env s w) as [s1 w1|s1 w1|e s1 w1] eqn:Hb; simpl in Hp.
  - destruct (Hone _ _ Hp) as (new0 & Ht0 & Ha0 & Hn0 & Hi0).
    destruct (IH _ _ Hl) as (new1 & Ht1 & Ha1 & Hn1 & Hi1).
    destruct (loop_body_Continue _ _ _ _ _ Hb)
      as (t & r & Hfind & _ & _ & _ & Hprog & _).
    destruct (pass_events _ _ _ _ _ Hp) as (new0' & Ht0' & _ & Hshape).
    assert (new0' = new0) as -> by (rewrite Ht0 in Ht0'; by apply app_inv_tail in Ht0').
    exists (new1 ++ new0). rewrite <- !app_assoc, <- Ht0.
    split; [done|]. split; [by rewrite Ha1, Ht0|].
    unfold invoked_tasks in *. rewrite flat_map_app. split.
    + apply NoDup_app. split; [done|]. split; [|done].
      intros i Hi Hi'. apply Hi1 in Hi. apply Hi. rewrite Hprog. simpl.
      destruct Hshape as [Hnil|(t' & Hfind' & Hone')].
      * rewrite Hnil in Hi'. inversion Hi'.
      * rewrite Hone' in Hi'. apply list_elem_of_singleton in Hi' as ->.
        rewrite Hfind in Hfind'. injection Hfind' as <-.
        apply elem_of_app. right. apply list_elem_of_here.
    + intros i Hi. apply elem_of_app in Hi as [Hi|Hi]; [|by apply Hi0].
      apply Hi1 in Hi. intros Hin. apply Hi. rewrite Hprog. simpl.
      apply elem_of_app. by left.
  - injection Hl as <- <-. by apply (Hone s1).
  - injection Hl as <- <-. by apply (Hone s1).
Qed.

(** What [run] does before the loop: no subtask is handed to the agent, and
    the loop is entered from a saved state with the exit code SUCCESS. *)
Lemma prelude_events (env : Env) (req : Request) (w : World) :
  match prelude env req w with
  | Return o w' =>
      o <> OutOfFuel
      /\ exists new,
           trace w' = new ++ trace w /\ invoked_tasks new = []
           /\ announced (new ++ trace w) = announced (trace w)
  | Enter s w' =>
      dryRun req = false
      /\ persisted s w'
      /\ loop_exitCode s = EXIT_CODES.SUCCESS
      /\ (exists new,
            trace w' = new ++ trace w /\ invoked_tasks new = []
            /\ announced (new ++ trace w) = announced (trace w))
      /\ (forall d p, checkExistingProject (store w) = (true, Some d, Some p) ->
            prd s = d /\ progress s = set_status "running" p)
  end.
Proof.
  unfold prelude, start_loop, init.
  destruct (checkExistingProject (store w)) as [[[] [d|]] [p|]] eqn:Hc.
  1: destruct (pinned p) as [name|]; [destruct (changes_set req name)|];
     destruct (String.eqb (progress_status p) "completed").
  all: destruct (dryRun req) eqn:Hdry.
  all: try destruct (conversion env).
  all: simpl.
  all: repeat match goal with
         | |- _ /\ _ => split
         | |- persisted _ _ => reflexivity
         | |- exists new, _ =>
             first [ by exists [] | by eexists [_] | by eexists [_; _]
                   | by eexists [_; _; _] ]
         | |- forall d p, _ = _ -> _ => by intros ? ? [= <- <-]
         | |- forall d p, _ = _ -> _ => by intros ? ? [=]
         | |- _ => done
         end.
Qed.

(** The events of a whole run. *)
Lemma run_events (env : Env) (fuel : nat) (req : Request) (w : World) :
  exists new,
    trace (snd (run env fuel req w)) = new ++ trace w
    /\ announced (new ++ trace w) = announced (trace w)
    /\ NoDup (invoked_tasks new)
    /\ (dryRun req = true -> invoked_tasks new = [])
    /\ forall d p, checkExistingProject (store w) = (true, Some d, Some p) ->
         forall i, i ∈ invoked_tasks new -> i ∉ completedTasks p.
Proof.
  unfold run. pose proof (prelude_events env req w) as Hp.
  destruct (prelude env req w) as [o w1|s w1].
  - destruct Hp as (_ & new & Ht & Hi & Ha). exists new. simpl.
    rewrite Hi. repeat split; try done; [constructor|].
    intros d p _ i Hin. inversion Hin.
  - destruct Hp as (Hdry & _ & _ & (new0 & Ht0 & Hi0 & Ha0) & Hex).
    destruct (loop env fuel s w1) as [o w'] eqn:Hl. simpl.
    destruct (loop_events _ _ _ _ _ _ Hl) as (new1 & Ht1 & Ha1 & Hn1 & Hi1).
    exists (new1 ++ new0). rewrite <- !app_assoc, <- Ht0.
    split; [done|]. split; [by rewrite Ha1, Ht0|].
    unfold invoked_tasks in *. rewrite flat_map_app, Hi0, app_nil_r.
    split; [done|]. split; [by rewrite Hdry|].
    intros d p Hc i Hin. apply Hi1 in Hin.
    destruct (Hex d p Hc) as [_ Hprog]. by rewrite Hprog in Hin.
Qed.

(** X3.  No subtask is handed to the agent twice in one run, and a run
    that resumes an existing project hands no subtask to the agent whose id
    the saved progress record lists as completed. *)
Theorem run_never_repeats_a_subtask
  (env : Env) (fuel : nat) (req : Request) (w : World) :
  exists new,
    trace (snd (run env fuel req w)) = new ++ trace w
    /\ NoDup (invoked_tasks new)
    /\ forall d p,
         dirExists (store w) = true ->
         prdFile (store w) = Some d ->
         progressFile (store w) = Some p ->
         forall i, i ∈ invoked_tasks new -> i ∉ completedTasks p.
Proof.
  destruct (run_events env fuel req w) as (new & Ht & _ & Hn & _ & Hi).
  exists new. split; [done|]. split; [done|].
  intros d p Hdir Hprd Hprog. apply (Hi d p). by apply (prelude_existing env req).
Qed.

(** X4.  Every invocation of the agent for a subtask comes right after a
    save of the two documents in which the progress record names that
    subtask as the current one: a run adds only such invocations to the
    trace. *)
Theorem run_announces_each_subtask
  (env : Env) (fuel : nat) (req : Request) (w : World) :
  announced (trace (snd (run env fuel req w))) = announced (trace w).
Proof.
  destruct (run_events env fuel req w) as (new & Ht & Ha & _).
  by rewrite Ht.
Qed.



Ltac step_cases H :=
  unfold loop_body, no_next_task, run_task in H;
  repeat match type of H with
    | context [findNextTask ?l ?c] => destruct (findNextTask l c) eqn:?
    | context [allDone ?l ?c] => destruct (allDone l c) eqn:?
    | context [execute ?e ?n ?a ?t ?d ?p] => destruct (execute e n a t d p) eqn:?
    | context [success ?r] => destruct (success r) eqn:?
    | context [if ?b then _ else _] => destruct b eqn:?
    end;
  simpl in H; try discriminate H;
  inversion H; subst; clear H; simpl.

(** X6.  What an exit code of the loop says about the saved progress
    record.  When the loop stops with an exit code, the record on disk is in
    one of three shapes: completed (code SUCCESS, every subtask done);
    blocked because no subtask is eligible although not every subtask is
    done (the code is SUCCESS here too); or stopped at a subtask for which
    [executeTask] returned a report without success: the code is the one of
    that report, the status is [blocked] for TASK_BLOCKED and [paused]
    otherwise, no subtask is current, and [lastError] names the subtask,
    which is not among the completed ones, with the notes of the result or
    a fixed text as its message. *)
Theorem loop_exit_shapes
  (env : Env) (fuel : nat) (s : LoopState) (w : World) (c : Z) (w' : World) :
  loop_exitCode s = EXIT_CODES.SUCCESS ->
  loop env fuel s w = (Exit c, w') ->
  exists d p,
    store w' = {| dirExists := true; prdFile := Some d; progressFile := Some p |}
    /\ ((c = EXIT_CODES.SUCCESS
         /\ progress_status p = "completed"
         /\ completedAt p <> None
         /\ allDone (userStories d) (completedTasks p) = true)
        \/ (c = EXIT_CODES.SUCCESS
            /\ progress_status p = "blocked"
            /\ findNextTask (userStories d) (completedTasks p) = None
            /\ allDone (userStories d) (completedTasks p) = false)
        \/ (exists n a t d0 p0 r err,
              execute env n a t d0 p0 = Returned r
              /\ success r = false
              /\ c = exitCode r
              /\ lastError p = Some err
              /\ taskId err = id t
              /\ message err
                 = match updatedTask r with
                   | Some u => if String.eqb (notes u) EmptyString
                               then "Task failed" else notes u
                   | None => "Task failed"
                   end
              /\ (id t ∉ completedTasks p)
              /\ currentTask p = None
              /\ progress_status p
                 = (if Z.eqb (exitCode r) EXIT_CODES.TASK_BLOCKED
                    then "blocked" else "paused"))).
Proof.
  revert s w. induction fuel as [|fuel IH]; intros s w Hc Hl; simpl in Hl; [done|].
  destruct (loop_body env s w) as [s1 w1|s1 w1|e s1 w1] eqn:Hb; [| |done].
  - apply (IH s1 w1); [|done].
    destruct (loop_body_Continue _ _ _ _ _ Hb) as (t & r & _ & _ & _ & _ & _ & -> & _).
    done.
  - injection Hl as <- <-. step_cases Hb.
    + eexists _, _. split; [reflexivity|]. right. right.
      do 7 eexists. simpl. split; [eassumption|]. split; [done|].
      do 4 (split; [reflexivity|]).
      split; [by eapply findNextTask_member|]. split; [done|].
      by match goal with H : Z.eqb _ _ = _ |- _ => rewrite H end.
    + eexists _, _. split; [reflexivity|]. right. right.
      do 7 eexists. simpl. split; [eassumption|]. split; [done|].
      do 4 (split; [reflexivity|]).
      split; [by eapply findNextTask_member|]. split; [done|].
      by match goal with H : Z.eqb _ _ = _ |- _ => rewrite H end.
    + eexists _, _. split; [reflexivity|]. left. by simpl.
    + eexists _, _. split; [reflexivity|]. right. left. by simpl.
Qed.

Lemma loop_exit_shapes_witness :
  let c := EXIT_CODES.TASK_FAILED in
  let w' := snd (loop Samples.failing 2 Samples.started_state Samples.started_world) in
  exists d p,
    store w' = {| dirExists := true; prdFile := Some d; progressFile := Some p |}
    /\ ((c = EXIT_CODES.SUCCESS
         /\ progress_status p = "completed"
         /\ completedAt p <> None
         /\ allDone (userStories d) (completedTasks p) = true)
        \/ (c = EXIT_CODES.SUCCESS
            /\ progress_status p = "blocked"
            /\ findNextTask (userStories d) (completedTasks p) = None
            /\ allDone (userStories d) (completedTasks p) = false)
        \/ (exists n a t d0 p0 r err,
              execute Samples.failing n a t d0 p0 = Returned r
              /\ success r = false
              /\ c = exitCode r
              /\ lastError p = Some err
              /\ taskId err = id t
              /\ message err
                 = match updatedTask r with
                   | Some u => if String.eqb (notes u) EmptyString
                               then "Task failed" else notes u
                   | None => "Task failed"
                   end
              /\ (id t ∉ completedTasks p)
              /\ currentTask p = None
              /\ progress_status p
                 = (if Z.eqb (exitCode r) EXIT_CODES.TASK_BLOCKED
                    then "blocked" else "paused"))).
Proof.
  intros c w'.
  apply (loop_exit_shapes Samples.failing 2 Samples.started_state Samples.started_world
           c w');
    reflexivity.
Defined.

(** The run of the witness stops at the subtask, paused. *)
Example failing_subtask_pauses :
  exists w',
    loop Samples.failing 2 Samples.started_state Samples.started_world
    = (Exit EXIT_CODES.TASK_FAILED, w')
    /\ (progress_status <$> progressFile (store w')) = Some "paused"
    /\ (completedTasks <$> progressFile (store w')) = Some [].
Proof. eexists. by vm_compute. Qed.

Lemma same_item_trans (a b c : PRD) : same_item a b -> same_item b c -> same_item a c.
Proof. unfold same_item. intuition congruence. Qed.

Lemma same_run_trans (a b c : Progress) : same_run a b -> same_run b c -> same_run a c.
Proof. unfold same_run. intuition congruence. Qed.

(** What the loop leaves on disk, whatever it ends in. *)
Lemma loop_keeps (env : Env) (fuel : nat) (s : LoopState) (w : World) :
  persisted s w ->
  exists d p,
    store (snd (loop env fuel s w))
    = {| dirExists := true; prdFile := Some d; progressFile := Some p |}
    /\ same_item (prd s) d
    /\ same_run (progress s) p
    /\ completedTasks (progress s) `prefix_of` completedTasks p.
Proof.
  revert s w. induction fuel as [|fuel IH]; intros s w Hs; simpl.
  { exists (prd s), (progress s). split; [done|]. by unfold same_item, same_run. }
  pose proof (loop_pass env s w) as Hp.
  assert (forall s1 w1, passes_to env s w s1 w1 ->
            exists d p,
              store w1 = {| dirExists := true; prdFile := Some d; progressFile := Some p |}
              /\ same_item (prd s) d /\ same_run (progress s) p
              /\ completedTasks (progress s) `prefix_of` completedTasks p) as Hone.
  { intros s1 w1 H1. exists (prd s1), (progress s1).
    split; [by apply (passes_to_persisted env s w)|].
    by destruct (pass_keeps _ _ _ _ _ H1) as (? & ? & ? & _). }
  destruct (loop_body env s w) as [s1 w1|s1 w1|e s1 w1]; simpl in Hp.
  - destruct (IH s1 w1 (passes_to_persisted _ _ _ _ _ Hp)) as (d & p & Hst & Hi & Hr & Hpre).
    destruct (pass_keeps _ _ _ _ _ Hp) as (Hi0 & Hr0 & Hpre0 & _).
    exists d, p. split; [done|].
    split; [by eapply same_item_trans|]. split; [by eapply same_run_trans|].
    by etrans.
  - by apply (Hone s1).
  - by apply (Hone s1).
Qed.

(** X7.  Resuming an existing project never loses what was recorded.
    Whatever the run ends in, the two documents are on disk afterwards; the
    work item is the saved one apart from its subtasks, of which there are
    as many as before; the progress record keeps its identity fields (work
    item id, start time, number of subtasks, pinned template set and
    configuration path); and the completed ids recorded before are still
    there, in order, at the head of the list. *)
Theorem resume_keeps_record
  (env : Env) (fuel : nat) (req : Request) (w : World) (d : PRD) (p : Progress) :
  dirExists (store w) = true ->
  prdFile (store w) = Some d ->
  progressFile (store w) = Some p ->
  exists d' p',
    store (snd (run env fuel req w))
    = {| dirExists := true; prdFile := Some d'; progressFile := Some p' |}
    /\ same_item d d'
    /\ same_run p p'
    /\ completedTasks p `prefix_of` completedTasks p'.
Proof.
  intros Hdir Hprd Hprog.
  pose proof (prelude_existing env req w d p Hdir Hprd Hprog) as Hc.
  pose proof (prelude_events env req w) as Hp.
  unfold run.
  destruct (prelude env req w) as [o w1|s w1] eqn:Hpre.
  - simpl. exists d, p.
    assert (w1 = w) as ->.
    { revert Hpre. unfold prelude. rewrite Hc. unfold start_loop.
      repeat case_match; by intros [= _ <-]. }
    split; [|by unfold same_item, same_run].
    destruct w as [[? ? ?] ? ?]. simpl in *. by subst.
  - destruct Hp as (_ & Hpers & _ & _ & Hex).
    destruct (Hex d p Hc) as [<- Hprog'].
    destruct (loop_keeps env fuel s w1 Hpers) as (d' & p' & Hst & Hi & Hr & Hpref).
    exists d', p'. split; [done|]. split; [done|].
    rewrite Hprog' in Hr, Hpref. by split.
Qed.

Lemma resume_keeps_record_witness :
  let d := Samples.work_item [Samples.story "A" "completed" []; Samples.story "B" "pending" []] in
  let p := Samples.record "paused" ["A"] 2 (Some "default") in
  exists d' p',
    store (snd (run Samples.obedient 5 (Samples.request "default") (Samples.world_of d p)))
    = {| dirExists := true; prdFile := Some d'; progressFile := Some p' |}
    /\ same_item d d'
    /\ same_run p p'
    /\ completedTasks p `prefix_of` completedTasks p'.
Proof.
  intros d p.
  apply (resume_keeps_record Samples.obedient 5 (Samples.request "default")
           (Samples.world_of d p) d p); reflexivity.
Defined.

(** X8.  An exception of [executeTask] leaves a run that can be resumed.
    When the loop ends because [executeTask] threw, the documents on disk
    are those saved just before: the progress record names the subtask as
    the current one, its status and [lastError] are as they were when the
    loop was entered, and the resolver returns that same subtask for the
    saved documents. *)
Theorem rejected_run_can_be_resumed
  (env : Env) (fuel : nat) (s : LoopState) (w : World) (e : JS.exn) (w' : World) :
  loop env fuel s w = (Rejected e, w') ->
  exists d p t,
    store w' = {| dirExists := true; prdFile := Some d; progressFile := Some p |}
    /\ findNextTask (userStories d) (completedTasks p) = Some t
    /\ currentTask p = Some (id t)
    /\ progress_status p = progress_status (progress s)
    /\ lastError p = lastError (progress s).
Proof.
  revert s w. induction fuel as [|fuel IH]; intros s w Hl; simpl in Hl; [done|].
  destruct (loop_body env s w) as [s1 w1|s1 w1|e1 s1 w1] eqn:Hb; [|done|].
  - destruct (IH s1 w1 Hl) as (d & p & t & Hst & Hfind & Hcur & Hstatus & Herr).
    exists d, p, t. split; [done|]. split; [done|]. split; [done|].
    destruct (loop_body_Continue _ _ _ _ _ Hb) as (t0 & r & _ & _ & _ & _ & Hprog & _).
    rewrite Hstatus, Herr, Hprog. done.
  - injection Hl as <- <-. step_cases Hb; eexists _, _, _; (split; [reflexivity|]); simpl; eauto.
Qed.

Lemma rejected_run_can_be_resumed_witness :
  exists d p t,
    store (snd (loop Samples.throwing 3 Samples.started_state Samples.started_world))
    = {| dirExists := true; prdFile := Some d; progressFile := Some p |}
    /\ findNextTask (userStories d) (completedTasks p) = Some t
    /\ currentTask p = Some (id t)
    /\ progress_status p = progress_status (progress Samples.started_state)
    /\ lastError p = lastError (progress Samples.started_state).
Proof.
  apply (rejected_run_can_be_resumed Samples.throwing 3 Samples.started_state
           Samples.started_world JS.TypeError).
  reflexivity.
Defined.

End LoopFacts.

(** ** What [executeTask] reports *)

Section ReportFacts.
Import JS Adapter.

Ltac in_list := repeat first [apply list_elem_of_here | apply list_elem_of_further].

(** The reports of [judge]. *)
Lemma judge_outcome (number_text : Z -> Z -> jsstring) (filled : Z) (u : value)
  (rep : TaskReport) :
  judge number_text filled u = Normal rep ->
  is_nullish u = false
  /\ updatedTask rep = u
  /\ logged rep = None
  /\ (success rep = true <-> exitCode rep = EXIT_CODES.SUCCESS)
  /\ (success rep = true <-> why rep = Passed)
  /\ (success rep = true ->
      truthy (prop u (str "passes")) = true
      /\ (truthy (prop u (str "securityCheck")) = true ->
          truthy (prop (prop u (str "securityCheck")) (str "passed")) = true)
      /\ failure rep = None)
  /\ (exitCode rep = EXIT_CODES.SUCCESS \/ exitCode rep = EXIT_CODES.TASK_FAILED
      \/ exitCode rep = EXIT_CODES.TASK_BLOCKED).
Proof.
  intros Hj. apply judge_report in Hj as (Hnn & Hu & Hl & Hcases).
  split; [done|]. split; [done|]. split; [done|].
  destruct Hcases as [[_ ->]|[(Hf & Hp & ->)|(_ & _ & Hs & Hc & Hw & _)]].
  - cbn. intuition (try discriminate; auto).
  - cbn [success exitCode why failure passed_report].
    split; [done|]. split; [done|]. split; [|by left].
    intros _. split; [done|]. split; [|done]. intros Hsc.
    unfold security_failed in Hf. rewrite Hsc in Hf. cbn [andb] in Hf.
    by apply negb_false_iff in Hf.
  - rewrite Hs, Hc, Hw.
    destruct (is_str (prop u (str "status")) (str "blocked"));
      intuition (try discriminate; auto).
Qed.

(** Beyond the bar [judge] gives no report. *)
Lemma judge_beyond (number_text : Z -> Z -> jsstring) (filled : Z) (u : value) :
  ~ (0 <= filled <= 30)%Z ->
  exists e, judge number_text filled u = Throw e /\ (e = RangeError \/ e = TypeError).
Proof.
  intros Hout. destruct (is_nullish u) eqn:Hnn.
  { exists TypeError. unfold judge, get. rewrite Hnn. auto. }
  rewrite (judge_cases _ _ _ Hnn).
  destruct (security_failed u).
  { rewrite (tableTaskFailed_beyond _ _ _ Hout). eauto. }
  destruct (truthy (prop u (str "passes"))).
  { destruct (done_row_beyond number_text filled u Hout) as (e & -> & He). eauto. }
  destruct (is_str (prop u (str "status")) (str "blocked"));
    rewrite (tableTaskFailed_beyond _ _ _ Hout); eauto.
Qed.

(** The failure row of a result that does not pass, within the bar: it
    throws exactly when the notes cannot be converted to a text. *)
Lemma notes_row_failed (number_text : Z -> Z -> jsstring) (filled : Z) (u : value)
  (fallback : jsstring) :
  (0 <= filled <= 30)%Z ->
  fallback <> [] ->
  Print.tableTaskFailed number_text filled (or_else (prop u (str "notes")) (VStr fallback))
  = match to_text number_text (prop u (str "notes")) with
    | Normal _ => Normal tt
    | Throw _ => Throw TypeError
    end.
Proof.
  intros Hin Hfb. unfold Print.tableTaskFailed, Print.tableRow, or_else.
  destruct (formatProgress_drawn filled Hin) as [bar ->]. cbn [bind].
  destruct (truthy (prop u (str "notes"))) eqn:Hn.
  - rewrite Hn.
    destruct (to_text number_text (prop u (str "notes"))) as [s|e] eqn:Ht; cbn [bind];
      [done|by rewrite (to_text_throws _ _ _ Ht)].
  - assert (primitive (prop u (str "notes")) = true) as Hp.
    { by destruct (prop u (str "notes")). }
    rewrite (to_text_primitive _ _ Hp). by destruct fallback.
Qed.

(** What [judge] throws, within the bar. *)
Lemma judge_throws (number_text : Z -> Z -> jsstring) (filled : Z) (u : value) (e : exn) :
  (0 <= filled <= 30)%Z ->
  judge number_text filled u = Throw e
  <-> e = TypeError
      /\ (is_nullish u = true
          \/ (is_nullish u = false
              /\ security_failed u = false
              /\ if truthy (prop u (str "passes"))
                 then done_row number_text filled u = Throw TypeError
                      \/ (done_row number_text filled u = Normal tt
                          /\ notes_row number_text u = Throw TypeError)
                 else to_text number_text (prop u (str "notes")) = Throw TypeError)).
Proof.
  intros Hin. destruct (is_nullish u) eqn:Hnn.
  { unfold judge, get. rewrite Hnn. cbn [bind].
    split; [intros [= <-]; intuition congruence|by intros [-> _]]. }
  rewrite (judge_cases _ _ _ Hnn).
  destruct (security_failed u).
  { rewrite (tableTaskFailed_text number_text filled _ Hin).
    split; [done|]. intros [_ [?|(_ & ? & _)]]; done. }
  destruct (truthy (prop u (str "passes"))).
  { destruct (done_row number_text filled u) as [[]|e0] eqn:Hd; cbn [bind].
    - destruct (notes_row number_text u) as [[]|e1] eqn:Hr; cbn [bind].
      + split; [done|]. intros [_ [?|(_ & _ & [?|[_ ?]])]]; done.
      + pose proof (notes_row_throws _ _ _ Hr) as ->.
        split; [intros [= <-]; intuition congruence|by intros [-> _]].
    - destruct (done_row_throws _ _ _ _ Hd) as [[_ ?] | ->]; [done|].
      split; [intros [= <-]; intuition congruence|by intros [-> _]]. }
  assert (forall (fallback : jsstring) (report : TaskReport),
            fallback <> [] ->
            (let* shown := Print.tableTaskFailed number_text filled
                             (or_else (prop u (str "notes")) (VStr fallback)) in
             Normal report) = Throw e
            <-> e = TypeError
                /\ (false = true
                    \/ (false = false /\ false = false
                        /\ to_text number_text (prop u (str "notes")) = Throw TypeError)))
    as Hrow.
  { intros fallback report Hfb. rewrite (notes_row_failed _ _ _ _ Hin Hfb).
    destruct (to_text number_text (prop u (str "notes"))) as [s|e0] eqn:Ht; cbn [bind].
    - split; [done|]. intros [_ [?|(_ & _ & ?)]]; done.
    - rewrite (to_text_throws _ _ _ Ht).
      split; [intros [= <-]; intuition congruence|by intros [-> _]]. }
  destruct (is_str (prop u (str "status")) (str "blocked")); by apply Hrow.
Qed.

(** X9.  When success is reported.  A report of [executeTask] says
    [success] exactly when its exit code is SUCCESS.  It does so only for a
    result object whose [passes] is truthy and whose [securityCheck], if
    there is one, has a truthy [passed], and only when the agent did not
    signal context management; the result is the structured one when there
    is one.  The exit code is one of SUCCESS, SCHEMA_INVALID, TASK_FAILED,
    TASK_BLOCKED and CLAUDE_ERROR. *)
Theorem executeTask_success_iff
  (number_text : Z -> Z -> jsstring) (runtime_message : exn -> jsstring)
  (usage_cells : value -> completion Z) (r : CallResult) (rep : TaskReport) :
  executeTask number_text runtime_message usage_cells r = Normal rep ->
  (success rep = true <-> exitCode rep = EXIT_CODES.SUCCESS)
  /\ (success rep = true <-> why rep = Passed)
  /\ (success rep = true ->
      truthy (contextManagement r) = false
      /\ truthy (prop (updatedTask rep) (str "passes")) = true
      /\ (truthy (prop (updatedTask rep) (str "securityCheck")) = true ->
          truthy (prop (prop (updatedTask rep) (str "securityCheck")) (str "passed")) = true)
      /\ (truthy (structuredOutput r) = true -> updatedTask rep = structuredOutput r)
      /\ failure rep = None)
  /\ exitCode rep ∈ [EXIT_CODES.SUCCESS; EXIT_CODES.SCHEMA_INVALID; EXIT_CODES.TASK_FAILED;
                     EXIT_CODES.TASK_BLOCKED; EXIT_CODES.CLAUDE_ERROR].
Proof.
  assert (forall filled u, judge number_text filled u = Normal rep ->
            (success rep = true <-> exitCode rep = EXIT_CODES.SUCCESS)
            /\ (success rep = true <-> why rep = Passed)
            /\ (success rep = true ->
                truthy (prop (updatedTask rep) (str "passes")) = true
                /\ (truthy (prop (updatedTask rep) (str "securityCheck")) = true ->
                    truthy (prop (prop (updatedTask rep) (str "securityCheck"))
                                 (str "passed")) = true)
                /\ updatedTask rep = u
                /\ failure rep = None)
            /\ exitCode rep ∈ [EXIT_CODES.SUCCESS; EXIT_CODES.SCHEMA_INVALID;
                               EXIT_CODES.TASK_FAILED; EXIT_CODES.TASK_BLOCKED;
                               EXIT_CODES.CLAUDE_ERROR]) as Hjudge.
  { intros filled u Hu.
    destruct (judge_outcome _ _ u rep Hu) as (_ & Hup & _ & H1 & H2 & H3 & H4).
    rewrite Hup. split; [done|]. split; [done|]. split; [intuition|].
    destruct H4 as [-> | [-> | ->]]; in_list. }
  unfold executeTask.
  destruct (progress_cells usage_cells (usage r)) as [filled|]; [|done]. cbn [bind].
  destruct (truthy (contextManagement r)) eqn:Hcm.
  { destruct (Print.tableTaskFailed _ _ _); [|done]. intros [= <-]. cbn.
    split; [done|]. split; [done|]. split; [done|]. in_list. }
  destruct (truthy (structuredOutput r)) eqn:Hso.
  { intros Hj. destruct (Hjudge _ _ Hj) as (H1 & H2 & H3 & H4).
    split; [done|]. split; [done|]. split; [|done]. intros Hs.
    destruct (H3 Hs) as (? & ? & ? & ?). done. }
  destruct (error r) as [e|].
  { destruct (Print.tableTaskFailed _ _ _); [|done]. intros [= <-]. cbn.
    split; [done|]. split; [done|]. split; [done|]. in_list. }
  destruct (output r) as [out|]; [|done].
  destruct (Extract.extractJson out) as [ex|e]; [|done]. cbn [bind].
  destruct (Extract.error ex).
  { destruct (Print.tableTaskFailed _ _ _); [|done]. intros [= <-]. cbn.
    split; [done|]. split; [done|]. split; [done|]. in_list. }
  intros Hj. destruct (Hjudge _ _ Hj) as (H1 & H2 & H3 & H4).
  split; [done|]. split; [done|]. split; [|done]. intros Hs.
  destruct (H3 Hs) as (? & ? & ? & ?). done.
Qed.

Lemma executeTask_success_iff_witness :
  let r := on_close (Some 1%Z) Samples.captured in
  let rep := {| success := true; updatedTask := Samples.passing_result;
                exitCode := EXIT_CODES.SUCCESS; why := Passed;
                failure := None; logged := None |} in
  (success rep = true <-> exitCode rep = EXIT_CODES.SUCCESS)
  /\ (success rep = true <-> why rep = Passed)
  /\ (success rep = true ->
      truthy (contextManagement r) = false
      /\ truthy (prop (updatedTask rep) (str "passes")) = true
      /\ (truthy (prop (updatedTask rep) (str "securityCheck")) = true ->
          truthy (prop (prop (updatedTask rep) (str "securityCheck")) (str "passed")) = true)
      /\ (truthy (structuredOutput r) = true -> updatedTask rep = structuredOutput r)
      /\ failure rep = None)
  /\ exitCode rep ∈ [EXIT_CODES.SUCCESS; EXIT_CODES.SCHEMA_INVALID; EXIT_CODES.TASK_FAILED;
                     EXIT_CODES.TASK_BLOCKED; EXIT_CODES.CLAUDE_ERROR].
Proof.
  intros r rep.
  apply (executeTask_success_iff Samples.whole_number Samples.no_message Samples.cells
           r rep).
  reflexivity.
Defined.

(** X10.  When [executeTask] throws.  An exception of the arithmetic on
    the usage is thrown on.  When the cells of the progress bar are outside
    its width, no report is returned, whatever the agent has answered:
    drawing the outcome throws a RangeError, unless a TypeError comes
    first.  Within the bar only a TypeError is thrown, and only without a
    context-management signal: for a structured result that cannot be
    judged, or, with neither a structured result nor an error, when there
    is no output text, when the last assistant text of a stream is not a
    text, or when the result that is extracted cannot be judged.  A result
    cannot be judged when it is [null], or when it passes the security
    check and drawing it throws: the row of a passing result or its
    critical notes, or the notes of a result that does not pass.  A result
    that is presentable can be judged. *)
Theorem executeTask_throws_iff
  (number_text : Z -> Z -> jsstring) (runtime_message : exn -> jsstring)
  (usage_cells : value -> completion Z) (r : CallResult) :
  (forall e,
     progress_cells usage_cells (usage r) = Throw e ->
     executeTask number_text runtime_message usage_cells r = Throw e)
  /\ (forall filled,
        progress_cells usage_cells (usage r) = Normal filled ->
        ~ (0 <= filled <= 30)%Z ->
        exists e,
          executeTask number_text runtime_message usage_cells r = Throw e
          /\ (e = RangeError \/ e = TypeError))
  /\ (forall filled e,
        progress_cells usage_cells (usage r) = Normal filled ->
        (0 <= filled <= 30)%Z ->
        executeTask number_text runtime_message usage_cells r = Throw e
        <-> e = TypeError
            /\ truthy (contextManagement r) = false
            /\ ((truthy (structuredOutput r) = true
                 /\ judge number_text filled (structuredOutput r) = Throw TypeError)
                \/ (truthy (structuredOutput r) = false
                    /\ error r = None
                    /\ match output r with
                       | None => True
                       | Some out =>
                           match Extract.contentText out with
                           | VStr candidate =>
                               Extract.error (Extract.parse_candidate candidate) = None
                               /\ judge number_text filled
                                    (Extract.json (Extract.parse_candidate candidate))
                                  = Throw TypeError
                           | _ => True
                           end
                       end)))
  /\ (forall filled u e,
        (0 <= filled <= 30)%Z ->
        judge number_text filled u = Throw e
        <-> e = TypeError
            /\ (is_nullish u = true
                \/ (is_nullish u = false
                    /\ security_failed u = false
                    /\ if truthy (prop u (str "passes"))
                       then done_row number_text filled u = Throw TypeError
                            \/ (done_row number_text filled u = Normal tt
                                /\ notes_row number_text u = Throw TypeError)
                       else to_text number_text (prop u (str "notes"))
                            = Throw TypeError)))
  /\ (forall filled u,
        (0 <= filled <= 30)%Z ->
        is_nullish u = false ->
        presentable u = true ->
        exists rep, judge number_text filled u = Normal rep).
Proof.
  split; [|split; [|split; [|split]]].
  - intros e He. unfold executeTask. by rewrite He.
  - intros filled Hf Hout. unfold executeTask. rewrite Hf. cbn [bind].
    destruct (truthy (contextManagement r)).
    { rewrite (tableTaskFailed_beyond _ _ _ Hout). eauto. }
    destruct (truthy (structuredOutput r)); [by apply judge_beyond|].
    destruct (error r) as [e0|].
    { rewrite (tableTaskFailed_beyond _ _ _ Hout). eauto. }
    destruct (output r) as [out|]; [|eauto].
    unfold Extract.extractJson.
    destruct (Extract.contentText out) as [| | | |candidate| |]; eauto.
    cbn [bind].
    destruct (Extract.error (Extract.parse_candidate candidate)).
    { rewrite (tableTaskFailed_beyond _ _ _ Hout). eauto. }
    by apply judge_beyond.
  - intros filled e Hf Hin.
    assert (forall u, judge number_text filled u = Throw e
                      <-> e = TypeError /\ judge number_text filled u = Throw TypeError)
      as Hjudge.
    { intros u. split; [|by intros [-> ?]]. intros Hj.
      by pose proof (proj1 (proj1 (judge_throws number_text filled u e Hin) Hj)) as ->. }
    unfold executeTask. rewrite Hf. cbn [bind].
    destruct (truthy (contextManagement r)) eqn:Hcm.
    { rewrite (tableTaskFailed_text number_text filled _ Hin).
      split; [done|by intros (_ & ? & _)]. }
    destruct (truthy (structuredOutput r)) eqn:Hso.
    { rewrite Hjudge. split; [intros [-> ?]; intuition congruence|].
      intros (-> & _ & [[_ ?]|[? _]]); done. }
    destruct (error r) as [e0|].
    { rewrite (tableTaskFailed_text number_text filled _ Hin).
      split; [done|]. intros (_ & _ & [[? _]|(_ & ? & _)]); done. }
    destruct (output r) as [out|].
    2:{ split; [intros [= <-]; intuition congruence|by intros [-> _]]. }
    unfold Extract.extractJson.
    destruct (Extract.contentText out) as [| | | |candidate| |];
      try (split; [intros [= <-]; intuition congruence|by intros [-> _]]).
    cbn [bind].
    destruct (Extract.error (Extract.parse_candidate candidate)) as [e1|].
    { rewrite (tableTaskFailed_text number_text filled _ Hin).
      split; [done|]. intros (_ & _ & [[? _]|(_ & _ & ? & _)]); done. }
    rewrite Hjudge. split; [intros [-> ?]; intuition congruence|].
    intros (-> & _ & [[? _]|(_ & _ & _ & ?)]); done.
  - intros filled u e Hin. by apply judge_throws.
  - intros filled u Hin Hnn Hp.
    destruct (presentable_rows number_text filled u Hin Hp) as (Hd & Hn & Hrow).
    rewrite (judge_cases _ _ _ Hnn).
    destruct (security_failed u).
    { rewrite (tableTaskFailed_text number_text filled _ Hin). by eexists. }
    destruct (truthy (prop u (str "passes"))); [rewrite Hd, Hn; by eexists|].
    destruct (is_str (prop u (str "status")) (str "blocked")); rewrite Hrow; by eexists.
Qed.

(** The output text [null] is such a case: it parses, and the result has no
    [passes] to read. *)
Example executeTask_null_output :
  executeTask Samples.whole_number Samples.no_message Samples.cells
    {| output := Some (str "null"); error := None; usage := VNull;
       contextManagement := VNull; structuredOutput := VNull |}
  = Throw TypeError.
Proof. by vm_compute. Qed.

(** X11.  A failed invocation without a structured result is a transport
    failure, whatever the output text holds.  When the agent's process ends
    with another exit code than 0 (or by a signal), neither a structured
    result nor a context-management signal was captured, and the progress
    bar can be drawn for the usage, [executeTask] reports CLAUDE_ERROR with
    the exit code and the error output in the message, and logs it; the
    output text is not looked at.  The same holds when the process could
    not be started: then there is no usage, and the bar is empty. *)
Theorem failed_invocation_is_transport_failure
  (number_text : Z -> Z -> jsstring) (runtime_message : exn -> jsstring)
  (usage_cells : value -> completion Z) (c : Capture) (code : option Z) (filled : Z) :
  code <> Some 0%Z ->
  truthy (cap_structuredOutput c) = false ->
  truthy (cap_contextManagement c) = false ->
  progress_cells usage_cells (taskUsage c) = Normal filled ->
  (0 <= filled <= 30)%Z ->
  (let text := str "Claude exited with code " ++ code_text code ++ str ": " ++ stderr c in
   executeTask number_text runtime_message usage_cells (on_close code c)
   = Normal {| success := false; updatedTask := VNull;
               exitCode := EXIT_CODES.CLAUDE_ERROR; why := TransportFailed;
               failure := Some (VStr (str "Claude Code error: " ++ text));
               logged := Some text |})
  /\ (forall c', stderr c' = stderr c ->
        truthy (cap_structuredOutput c') = false ->
        truthy (cap_contextManagement c') = false ->
        taskUsage c' = taskUsage c ->
        executeTask number_text runtime_message usage_cells (on_close code c')
        = executeTask number_text runtime_message usage_cells (on_close code c))
  /\ (forall err,
        executeTask number_text runtime_message usage_cells (on_error err)
        = Normal {| success := false; updatedTask := VNull;
                    exitCode := EXIT_CODES.CLAUDE_ERROR; why := TransportFailed;
                    failure := Some (VStr (str "Claude Code error: "
                                           ++ message_of runtime_message err));
                    logged := Some (message_of runtime_message err) |}).
Proof.
  intros Hcode Hso Hcm Hcells Hin.
  assert (forall c', truthy (cap_structuredOutput c') = false ->
            truthy (cap_contextManagement c') = false ->
            taskUsage c' = taskUsage c ->
            executeTask number_text runtime_message usage_cells (on_close code c')
            = Normal {| success := false; updatedTask := VNull;
                        exitCode := EXIT_CODES.CLAUDE_ERROR; why := TransportFailed;
                        failure := Some (VStr (str "Claude Code error: "
                                               ++ (str "Claude exited with code "
                                                   ++ code_text code ++ str ": "
                                                   ++ stderr c')));
                        logged := Some (str "Claude exited with code "
                                        ++ code_text code ++ str ": " ++ stderr c') |})
    as Hall.
  { intros c' Hso' Hcm' Hu'. rewrite on_close_nonzero by done.
    unfold executeTask. cbn [contextManagement structuredOutput error usage].
    rewrite Hu', Hcells. cbn [bind]. rewrite Hcm', Hso'.
    cbn [message_of].
    by rewrite (tableTaskFailed_text number_text filled _ Hin). }
  split; [by apply Hall|]. split.
  - intros c' Herr Hso' Hcm' Hu'. rewrite !Hall by done. by rewrite Herr.
  - intros err. unfold executeTask, on_error, progress_cells.
    cbn [usage truthy bind contextManagement structuredOutput error].
    assert (0 <= 0 <= 30)%Z as H0 by lia.
    by rewrite (tableTaskFailed_text number_text 0 _ H0).
Qed.

Lemma failed_invocation_is_transport_failure_witness :
  let c := {| stdout := Samples.fenced; stderr := str "boom";
              taskUsage := Samples.usage_of 50000 200000;
              cap_contextManagement := VNull; cap_structuredOutput := VNull |} in
  let code := Some 1%Z in
  (let text := str "Claude exited with code " ++ code_text code ++ str ": " ++ stderr c in
   executeTask Samples.whole_number Samples.no_message Samples.cells (on_close code c)
   = Normal {| success := false; updatedTask := VNull;
               exitCode := EXIT_CODES.CLAUDE_ERROR; why := TransportFailed;
               failure := Some (VStr (str "Claude Code error: " ++ text));
               logged := Some text |})
  /\ (forall c', stderr c' = stderr c ->
        truthy (cap_structuredOutput c') = false ->
        truthy (cap_contextManagement c') = false ->
        taskUsage c' = taskUsage c ->
        executeTask Samples.whole_number Samples.no_message Samples.cells
          (on_close code c')
        = executeTask Samples.whole_number Samples.no_message Samples.cells
            (on_close code c))
  /\ (forall err,
        executeTask Samples.whole_number Samples.no_message Samples.cells (on_error err)
        = Normal {| success := false; updatedTask := VNull;
                    exitCode := EXIT_CODES.CLAUDE_ERROR; why := TransportFailed;
                    failure := Some (VStr (str "Claude Code error: "
                                           ++ message_of Samples.no_message err));
                    logged := Some (message_of Samples.no_message err) |}).
Proof.
  intros c code.
  apply (failed_invocation_is_transport_failure Samples.whole_number Samples.no_message
           Samples.cells c code 8%Z);
    [discriminate|reflexivity|reflexivity|reflexivity|lia].
Defined.


(** A failed invocation in which the agent signalled context management,
    without a structured result: the conversion reports the failure of the
    invocation, the execution of a subtask the compacted context. *)
Example conversion_of_failed_invocation :
  let c := {| stdout := []; stderr := str "boom"; taskUsage := VNull;
              cap_contextManagement := VObj [(str "applied_edits", VArr [])];
              cap_structuredOutput := VNull |} in
  conversion Samples.cells (on_close (Some 1%Z) c)
  = Normal (GaveUp EXIT_CODES.CLAUDE_ERROR TransportFailed)
  /\ executeTask Samples.whole_number Samples.no_message Samples.cells
       (on_close (Some 1%Z) c)
     = Normal compaction_failure.
Proof. split; by vm_compute. Qed.

End ReportFacts.

(** ** What result extraction does not look at *)

Section LocateFacts.
Import JS Extract.

Lemma find_sub_here (p rest : jsstring) : find_sub p (p ++ rest) = Some ([], rest).
Proof.
  assert (forall s, strip_prefix p s = Some rest -> find_sub p s = Some ([], rest)) as H.
  { intros [|c s] Hs; simpl; by rewrite Hs. }
  apply H, strip_prefix_app.
Qed.

Lemma find_sub_None (p s : jsstring) : find_sub p s = None <-> ~ includes s p.
Proof.
  split.
  - intros Hnone (before & after & ->). revert Hnone.
    induction before as [|x before IH]; simpl.
    + by rewrite find_sub_here.
    + destruct (strip_prefix p (x :: before ++ p ++ after)); [done|].
      destruct (find_sub p (before ++ p ++ after)) as [[pre rest]|]; [done|].
      intros _. by apply IH.
  - intros Hno. destruct (find_sub p s) as [[pre rest]|] eqn:H; [|done].
    apply find_sub_Some in H as [-> _]. exfalso. apply Hno. by exists pre, rest.
Qed.

(** The first occurrence of a text that starts with [c], after a text
    without [c]. *)
Lemma find_sub_after (c : char) (p before rest : jsstring) :
  c ∉ before ->
  find_sub (c :: p) (before ++ (c :: p) ++ rest) = Some (before, rest).
Proof.
  induction before as [|x before IH]; intros Hc.
  - apply (find_sub_here (c :: p) rest).
  - apply not_elem_of_cons in Hc as [Hne Hc].
    simpl. assert (N.eqb c x = false) as -> by (apply N.eqb_neq; congruence).
    simpl in IH. by rewrite (IH Hc).
Qed.

Lemma through_last_None (c : char) (s : jsstring) : c ∉ s -> through_last c s = None.
Proof.
  induction s as [|x s IH]; [done|]. intros Hc.
  apply not_elem_of_cons in Hc as [Hne Hc]. simpl. rewrite (IH Hc).
  by assert (N.eqb x c = false) as -> by (apply N.eqb_neq; congruence).
Qed.

Lemma through_last_app (c : char) (middle after : jsstring) :
  c ∉ after -> through_last c (middle ++ c :: after) = Some (middle ++ [c]).
Proof.
  intros Hc. induction middle as [|x middle IH]; simpl.
  - by rewrite (through_last_None c after Hc), N.eqb_refl.
  - by rewrite IH.
Qed.

Lemma match_object_app (before middle after : jsstring) :
  ch "{" ∉ before -> ch "}" ∉ after ->
  match_object (before ++ [ch "{"] ++ middle ++ [ch "}"] ++ after)
  = Some ([ch "{"] ++ middle ++ [ch "}"]).
Proof.
  intros Hb Ha. unfold match_object.
  rewrite (find_sub_after (ch "{") [] before _ Hb).
  change ([ch "}"] ++ after) with (ch "}" :: after).
  by rewrite (through_last_app _ _ _ Ha).
Qed.

Lemma drop_spaces_idemp (s : jsstring) : drop_spaces (drop_spaces s) = drop_spaces s.
Proof.
  induction s as [|c s IH]; [done|]. simpl.
  destruct (is_space c) eqn:Hc; [done|]. simpl. by rewrite Hc.
Qed.

Lemma trim_drop_spaces (s : jsstring) : trim (drop_spaces s) = trim s.
Proof. unfold trim. by rewrite drop_spaces_idemp. Qed.

(** A text in braces has no white space to trim. *)
Lemma trim_braced (middle : jsstring) :
  trim ([ch "{"] ++ middle ++ [ch "}"]) = [ch "{"] ++ middle ++ [ch "}"].
Proof.
  assert (forall c s, is_space c = false -> drop_spaces (c :: s) = c :: s) as Hdrop.
  { intros c s Hc. simpl. by rewrite Hc. }
  unfold trim. cbn [app]. rewrite Hdrop by done.
  assert (rev (ch "{" :: middle ++ [ch "}"]) = ch "}" :: rev middle ++ [ch "{"]) as ->.
  { simpl. by rewrite rev_app_distr. }
  rewrite Hdrop by done. simpl. by rewrite rev_app_distr, rev_involutive.
Qed.

(** White space in front of a text plays no part in the search for the
    object. *)
Lemma match_object_drop_spaces (s : jsstring) :
  match_object (drop_spaces s) = match_object s.
Proof.
  induction s as [|c s IH]; [done|]. cbn [drop_spaces].
  destruct (is_space c) eqn:Hc; [|done]. rewrite IH.
  unfold match_object. cbn [find_sub strip_prefix].
  destruct (N.eqb (ch "{") c) eqn:Heq.
  { apply N.eqb_eq in Heq as <-. discriminate Hc. }
  by destruct (find_sub [ch "{"] s) as [[pre rest]|].
Qed.

Lemma no_backquote_no_fence (s : jsstring) : ch "`" ∉ s -> match_fence s = None.
Proof.
  intros Hs. unfold match_fence.
  assert (find_sub fence s = None) as ->; [|done].
  apply find_sub_None. intros (before & after & ->). apply Hs.
  apply elem_of_app. right. apply list_elem_of_here.
Qed.

Lemma drop_spaces_elem (c : char) (s : jsstring) : c ∉ s -> c ∉ drop_spaces s.
Proof.
  induction s as [|x s IH]; [done|]. intros Hc. simpl.
  destruct (is_space x); [|done]. apply IH.
  by apply not_elem_of_cons in Hc as [_ ?].
Qed.

Lemma drop_spaces_before_fence (s rest : jsstring) :
  drop_spaces (s ++ fence ++ rest) = drop_spaces s ++ fence ++ rest.
Proof.
  induction s as [|c s IH]; [done|]. simpl. by destruct (is_space c).
Qed.

(** The body of the first fenced block, found. *)
Lemma match_fence_app (before tag body after : jsstring) :
  ch "`" ∉ before -> ch "`" ∉ body ->
  (tag = str "json" \/ (tag = [] /\ strip_prefix (str "json") body = None)) ->
  match_fence (before ++ fence ++ tag ++ body ++ fence ++ after)
  = Some (drop_spaces body).
Proof.
  intros Hb Hbody Htag. unfold match_fence.
  change fence with (ch "`" :: str "``") at 1 2.
  rewrite (find_sub_after (ch "`") (str "``") before _ Hb).
  assert (match strip_prefix (str "json") (tag ++ body ++ fence ++ after) with
          | Some r' => r'
          | None => tag ++ body ++ fence ++ after
          end = body ++ fence ++ after) as ->.
  { destruct Htag as [->|[-> Hnone]]; [by rewrite strip_prefix_app|]. cbn [app].
    destruct (strip_prefix (str "json") (body ++ fence ++ after)) as [r'|] eqn:Hs; [|done].
    exfalso. apply strip_prefix_Some in Hs. revert Hnone Hs. clear.
    destruct body as [|c0 [|c1 [|c2 [|c3 body]]]]; intros Hnone Hs;
      vm_compute in Hs; try discriminate Hs.
    injection Hs as -> -> -> -> _. vm_compute in Hnone. discriminate Hnone. }
  rewrite drop_spaces_before_fence.
  change fence with (ch "`" :: str "``") at 1 2.
  by rewrite (find_sub_after (ch "`") (str "``") _ _ (drop_spaces_elem _ _ Hbody)).
Qed.




(** X13.  Prose around one object is ignored.  For a text that is not taken
    for a stream and holds no fenced block, in which an opening brace is
    followed somewhere by a closing brace: with no opening brace before the
    first and no closing brace after the last, what is parsed is the text
    from the one to the other, and the result of the extraction is the
    result of parsing it. *)
Theorem extraction_ignores_prose (before middle after : jsstring) :
  let object := [ch "{"] ++ middle ++ [ch "}"] in
  let text := before ++ object ++ after in
  ch "{" ∉ before ->
  ch "}" ∉ after ->
  match_fence text = None ->
  isStreamJson text = false ->
  locate text = object
  /\ extractJson text
     = Normal match JSON.parse object with
              | Some parsed => {| json := parsed; error := None |}
              | None => {| json := VNull; error := Some SyntaxError |}
              end.
Proof.
  intros object text Hb Ha Hfence Hstream.
  assert (locate text = object) as Hlocate.
  { unfold locate. rewrite Hfence. unfold text, object.
    rewrite <- !app_assoc. by rewrite match_object_app. }
  split; [done|].
  unfold extractJson, contentText. rewrite Hstream.
  unfold parse_candidate. rewrite Hlocate. unfold object. by rewrite trim_braced.
Qed.

Lemma extraction_ignores_prose_witness :
  locate Samples.in_prose = dq "{'a':1}"
  /\ extractJson Samples.in_prose
     = Normal match JSON.parse (dq "{'a':1}") with
              | Some parsed => {| json := parsed; error := None |}
              | None => {| json := VNull; error := Some SyntaxError |}
              end.
Proof.
  apply (extraction_ignores_prose (str "Here is the result: ") (dq "'a':1") (str " Done.")).
  - apply (bool_decide_unpack _). by vm_compute.
  - apply (bool_decide_unpack _). by vm_compute.
  - reflexivity.
  - reflexivity.
Defined.

(** X14.  The first fenced block decides.  For a text with a fenced block
    (with the tag [json], or without a tag when the body does not start with
    these letters), with no backquote before the block or in its body: the
    candidate is extracted as the body alone would be, whatever comes before
    the block and after it. *)
Theorem first_fenced_block_decides (before tag body after : jsstring) :
  ch "`" ∉ before ->
  ch "`" ∉ body ->
  (tag = str "json" \/ (tag = [] /\ strip_prefix (str "json") body = None)) ->
  match_fence (before ++ fence ++ tag ++ body ++ fence ++ after) = Some (drop_spaces body)
  /\ parse_candidate (before ++ fence ++ tag ++ body ++ fence ++ after)
     = parse_candidate body.
Proof.
  intros Hb Hbody Htag.
  pose proof (match_fence_app before tag body after Hb Hbody Htag) as Hfence.
  split; [done|].
  unfold parse_candidate, locate. rewrite Hfence, (no_backquote_no_fence body Hbody).
  rewrite match_object_drop_spaces.
  destruct (match_object body); [done|]. by rewrite trim_drop_spaces.
Qed.

Lemma first_fenced_block_decides_witness :
  let body := [LF] ++ dq "{'a':1}" ++ [LF] in
  match_fence Samples.fenced_among_objects = Some (drop_spaces body)
  /\ parse_candidate Samples.fenced_among_objects = parse_candidate body.
Proof.
  intros body.
  apply (first_fenced_block_decides (dq "{'x':0} ") (str "json") body (dq " {'y':2}")).
  - apply (bool_decide_unpack _). by vm_compute.
  - apply (bool_decide_unpack _). by vm_compute.
  - by left.
Defined.

(** The object in the fenced block is the result, not the objects around. *)
Example fenced_among_objects_extracted :
  extractJson Samples.fenced_among_objects
  = Normal {| json := Samples.object_a 1; error := None |}.
Proof. reflexivity. Qed.

End LocateFacts.

(** ** What a set configuration that validates looks like *)

Section ShapeFacts.
Import JS ClaudeTool UserConfig.

Lemma eqs_eq (a b : jsstring) : eqs a b = true <-> a = b.
Proof.
  revert b. induction a as [|x a IH]; intros [|y b]; simpl; try done.
  rewrite andb_true_iff, N.eqb_eq, IH. split; [by intros [-> ->]|by intros [= -> ->]].
Qed.

Lemma eqs_refl (a : jsstring) : eqs a a = true.
Proof. by apply eqs_eq. Qed.

Lemma eqs_sym (a b : jsstring) : eqs a b = eqs b a.
Proof.
  destruct (eqs a b) eqn:Hab, (eqs b a) eqn:Hba; try done.
  - apply eqs_eq in Hab as ->. by rewrite eqs_refl in Hba.
  - apply eqs_eq in Hba as ->. by rewrite eqs_refl in Hab.
Qed.

Lemma is_str_eq (v : value) (s : jsstring) : is_str v s = true <-> v = VStr s.
Proof.
  destruct v; simpl; try by split.
  rewrite eqs_eq. split; [by intros ->|by intros [= ->]].
Qed.

Lemma lookup_set_same (k : jsstring) (v : value) (props : list (jsstring * value)) :
  lookup_prop k (set_prop k v props) = v.
Proof.
  induction props as [|[k0 v0] props IH]; simpl.
  - by rewrite eqs_refl.
  - destruct (eqs k k0) eqn:Hk; simpl; [by rewrite eqs_refl|by rewrite Hk].
Qed.

Lemma lookup_set_other (k k' : jsstring) (v : value) (props : list (jsstring * value)) :
  eqs k k' = false ->
  lookup_prop k' (set_prop k v props) = lookup_prop k' props.
Proof.
  intros Hk. assert (eqs k' k = false) as Hk' by (by rewrite eqs_sym).
  induction props as [|[k0 v0] props IH]; simpl.
  - by rewrite Hk'.
  - destruct (eqs k k0) eqn:Hk0; simpl.
    + apply eqs_eq in Hk0 as <-. by rewrite Hk'.
    + by rewrite IH.
Qed.

(** A property that is there is one of the entries. *)
Lemma lookup_prop_elem (k : jsstring) (props : list (jsstring * value)) :
  lookup_prop k props = VUndefined \/ (k, lookup_prop k props) ∈ props.
Proof.
  induction props as [|[k0 v0] props IH]; simpl; [by left|].
  destruct (eqs k k0) eqn:Hk.
  - apply eqs_eq in Hk as <-. right. apply list_elem_of_here.
  - destruct IH as [IH|IH]; [by left|right]. by apply list_elem_of_further.
Qed.

Lemma insert_indexed_elem {A} (n : N) (x y : A) (m : N) (l : list (N * A)) :
  (m, y) ∈ insert_indexed n x l <-> (m, y) = (n, x) \/ (m, y) ∈ l.
Proof.
  induction l as [|[n' x'] l IH]; simpl.
  - rewrite list_elem_of_singleton. split; [by left|]. intros [?|H]; [done|by inversion H].
  - destruct (N.leb n n').
    + by rewrite elem_of_cons.
    + rewrite !elem_of_cons, IH. tauto.
Qed.

(** [Object.entries] visits the own properties, each of them. *)
Lemma own_entries_elem {A} (props : list (jsstring * A)) (kv : jsstring * A) :
  kv ∈ own_entries props <-> kv ∈ props.
Proof.
  unfold own_entries. rewrite elem_of_app.
  assert (forall l : list (jsstring * A),
            kv ∈ map snd
                   (fold_right (fun kv acc =>
                                  match index_of_key (fst kv) with
                                  | Some n => insert_indexed n kv acc
                                  | None => acc
                                  end) [] l)
            <-> kv ∈ l /\ index_of_key (fst kv) <> None) as Hindexed.
  { induction l as [|kv0 l IH]; simpl.
    - split; [by intros H; inversion H|by intros [H _]; inversion H].
    - destruct (index_of_key (fst kv0)) as [n|] eqn:Hn.
      + rewrite elem_of_cons. split.
        * intros Hin. apply list_elem_of_fmap in Hin as ([m y] & -> & Hin).
          apply insert_indexed_elem in Hin as [[= -> ->]|Hin].
          -- split; [by left|]. simpl. by rewrite Hn.
          -- assert ((m, y).2 ∈ l /\ index_of_key (fst (m, y).2) <> None) as [? ?].
             { apply IH, list_elem_of_fmap. by exists (m, y). }
             split; [by right|done].
        * intros [[->|Hin] Hne].
          -- apply list_elem_of_fmap. exists (n, kv0). split; [done|].
             apply insert_indexed_elem. by left.
          -- assert (kv ∈ map snd
                       (fold_right (fun kv acc =>
                                      match index_of_key (fst kv) with
                                      | Some n => insert_indexed n kv acc
                                      | None => acc
                                      end) [] l)) as Hacc by (by apply IH).
             apply list_elem_of_fmap in Hacc as ([m y] & -> & Hacc).
             apply list_elem_of_fmap. exists (m, y). split; [done|].
             apply insert_indexed_elem. by right.
      + rewrite elem_of_cons, IH. split; [tauto|].
        intros [[->|?] Hne]; [by rewrite Hn in Hne|tauto]. }
  assert (forall (f : jsstring * A -> bool) l,
            kv ∈ List.filter f l <-> kv ∈ l /\ f kv = true) as Hfilter.
  { intros f l. rewrite !list_elem_of_In. apply filter_In. }
  rewrite Hindexed, Hfilter.
  destruct (index_of_key (fst kv)); split; try tauto.
  intros H. left. split; [done|discriminate].
Qed.

Lemma of_messages_valid (l : list jsstring) : fst (of_messages l) = true <-> l = [].
Proof. by destruct l. Qed.

Lemma flat_map_nil {A B} (f : A -> list B) (l : list A) :
  flat_map f l = [] <-> forall x, x ∈ l -> f x = [].
Proof.
  induction l as [|a l IH]; simpl.
  - split; [by intros _ x H; inversion H|done].
  - split.
    + intros H x Hx. apply app_eq_nil in H as [Ha Hl].
      apply elem_of_cons in Hx as [->|Hx]; [done|]. by apply IH.
    + intros H. rewrite (H a) by apply list_elem_of_here. simpl.
      apply IH. intros x Hx. apply H. by apply list_elem_of_further.
Qed.

(** The options one entry may hold. *)
Lemma check_option_nil (k : jsstring) (v : value) :
  check_option k v = []
  <-> (k = str "dangerouslySkipPermissions" /\ exists b, v = VBool b)
      \/ (k = str "verbose" /\ exists b, v = VBool b)
      \/ (k = str "outputFormat" /\ exists s, v = VStr s /\ s ∈ allowedOutputFormats).
Proof.
  unfold check_option, optionsSchema, schema_of.
  destruct (eqs k (str "dangerouslySkipPermissions")) eqn:H1.
  { apply eqs_eq in H1 as ->. cbn [option_type allowed].
    destruct v; cbn; split; try done; try (intros [[_ [b [=]]]|[[[=] _]|[[=] _]]]).
    intros _. left. eauto. }
  destruct (eqs k (str "verbose")) eqn:H2.
  { apply eqs_eq in H2 as ->. cbn [option_type allowed].
    destruct v; cbn; split; try done; try (intros [[[=] _]|[[_ [b [=]]]|[[=] _]]]).
    intros _. right. left. eauto. }
  destruct (eqs k (str "outputFormat")) eqn:H3.
  { apply eqs_eq in H3 as ->. cbn [option_type allowed].
    destruct v as [| | | |s| |];
      try (cbn; split; [done|]; by intros [[[=] _]|[[[=] _]|[_ (s0 & [=] & _)]]]).
    change (negb (eqs (typeof_name (typeof (VStr s))) (typeof_name TString))) with false.
    cbn [negb].
    destruct (existsb (eqs s) [str "stream-json"; str "json"; str "text"]) eqn:Hex.
    - split; [|done]. intros _. right. right. split; [done|]. exists s. split; [done|].
      apply existsb_exists in Hex as (x & Hx & Heq). apply eqs_eq in Heq as ->.
      by apply list_elem_of_In.
    - split; [done|]. intros [[[=] _]|[[[=] _]|[_ (s0 & [= <-] & Hin)]]].
      exfalso. assert (existsb (eqs s) [str "stream-json"; str "json"; str "text"] = true);
        [|congruence].
      apply existsb_exists. exists s. split; [by apply list_elem_of_In|apply eqs_refl]. }
  split.
  - destruct (is_inherited k); discriminate.
  - intros [[-> _]|[[-> _]|[-> _]]]; by rewrite eqs_refl in *.
Qed.

(** What [ClaudeTool.validate] accepts. *)
Lemma validate_valid (number_text : Z -> Z -> jsstring) (config : value) :
  fst (validate number_text config) = true
  <-> prop config (str "tool") = VStr (str "claude")
      /\ known_options (prop config (str "options")).
Proof.
  unfold validate, known_options, toolName.
  destruct (is_str (prop config (str "tool")) (str "claude")) eqn:Htool; cbn [negb].
  - apply is_str_eq in Htool. rewrite Htool.
    destruct (prop config (str "options")) as [| | | | | |props] eqn:Hopt; cbn [fst];
      try (split; [done|]; intros [_ [?|(? & ? & _)]]; done).
    + split; [|done]. intros _. split; [done|by left].
    + rewrite of_messages_valid, flat_map_nil. split.
      * intros H. split; [done|]. right. exists props. split; [done|].
        intros k v Hin. apply check_option_nil.
        apply (H (k, v)). by apply own_entries_elem.
      * intros [_ [?|(props' & [= <-] & H)]]; [done|].
        intros [k v] Hin. apply check_option_nil, H. simpl.
        by apply (proj1 (own_entries_elem props (k, v))).
  - cbn [fst]. split; [done|]. intros [H _]. apply is_str_eq in H. congruence.
Qed.

(** What [ClaudeTool.validateOutputSchema] accepts. *)
Lemma validateOutputSchema_valid (schema : value) :
  fst (validateOutputSchema schema) = true <-> schema_ok schema.
Proof.
  unfold validateOutputSchema, schema_ok.
  destruct (truthy schema) eqn:Hs; cbn [negb]; [|split; [by left|done]].
  destruct (typeof schema) eqn:Ht;
    try (cbn [fst]; split; [done|by intros [?|[? _]]]).
  rewrite of_messages_valid.
  assert (forall (b : bool) (m : jsstring) l, (if b then [m] else []) ++ l = []
                                               <-> b = false /\ l = []) as Hif.
  { intros [] m l; simpl; intuition (try discriminate; auto). }
  rewrite !Hif, !andb_false_iff, !negb_false_iff.
  assert (forall (b : bool) (m : jsstring), (if b then [m] else []) = [] <-> b = false)
    as Hif'.
  { by intros [] m. }
  rewrite Hif', andb_false_iff, negb_false_iff, is_str_eq.
  assert (forall v, match typeof v with TObject => true | _ => false end = true
                    <-> typeof v = TObject) as Hobj.
  { intros v. by destruct (typeof v). }
  rewrite Hobj. split.
  - intros (H1 & H2 & H3). right. split; [done|].
    split; [|split]; intros Htrue; [destruct H1|destruct H2|destruct H3]; congruence.
  - intros [?|(_ & H1 & H2 & H3)]; [done|].
    split; [|split].
    + destruct (truthy (prop schema (str "type"))); [right; by apply H1|by left].
    + destruct (truthy (prop schema (str "required"))); [right; by apply H2|by left].
    + destruct (truthy (prop schema (str "properties"))); [right; by apply H3|by left].
Qed.

(** What [ClaudeTool.validateSkipContext] accepts. *)
Lemma validateSkipContext_valid (config : value) :
  fst (validateSkipContext config) = true
  <-> prop config (str "skipContext") = VUndefined
      \/ exists b, prop config (str "skipContext") = VBool b.
Proof.
  unfold validateSkipContext.
  destruct (prop config (str "skipContext")); cbn [fst of_messages];
    split; try done; try (by intros [?|[? ?]]); eauto.
Qed.

Lemma of_messages_outspoken (l : list jsstring) : outspoken (of_messages l).
Proof. by destruct l. Qed.

Lemma validate_outspoken (number_text : Z -> Z -> jsstring) (config : value) :
  outspoken (validate number_text config).
Proof.
  unfold validate. repeat case_match; try done; apply of_messages_outspoken.
Qed.

Lemma validateOutputSchema_outspoken (schema : value) :
  outspoken (validateOutputSchema schema).
Proof.
  unfold validateOutputSchema. repeat case_match; try done; apply of_messages_outspoken.
Qed.

Lemma validateSkipContext_outspoken (config : value) :
  outspoken (validateSkipContext config).
Proof.
  unfold validateSkipContext. by repeat case_match.
Qed.

Lemma prefixed_nil (phase : jsstring) (index : nat) (v : verdict) :
  outspoken v -> prefixed phase index v = [] <-> fst v = true.
Proof.
  unfold prefixed, outspoken. destruct (fst v); [done|]. intros H.
  split; [|done]. destruct (snd v); [by destruct H|done].
Qed.

(** What [ToolRegistry.validateToolConfig] accepts. *)
Lemma validateToolConfig_valid (number_text : Z -> Z -> jsstring) (config : value) :
  is_nullish config = false ->
  (exists v, ToolRegistry.validateToolConfig number_text config = Normal v
             /\ fst v = true)
  <-> prop config (str "tool") = VStr (str "claude")
      /\ known_options (prop config (str "options")).
Proof.
  intros Hnn. unfold ToolRegistry.validateToolConfig, get. rewrite Hnn. cbn [bind].
  destruct (truthy (prop config (str "tool"))) eqn:Htool; cbn [negb].
  - destruct (to_text number_text (prop config (str "tool"))) as [key|e] eqn:Hkey;
      cbn [bind].
    2:{ split; [by intros (v & ? & ?)|]. intros [Hc _]. by rewrite Hc in Hkey. }
    apply to_text_Normal in Hkey as <-.
    destruct (existsb (eqs (toString number_text (prop config (str "tool"))))
                      ToolRegistry.toolNames) eqn:Hex.
    + rewrite <- validate_valid. split; [by intros (v & [= <-] & ?)|eauto].
    + split.
      * destruct (is_inherited _); [by intros (v & ? & ?)|by intros (v & [= <-] & ?)].
      * intros [Hc _]. rewrite Hc in Hex. discriminate Hex.
  - split; [by intros (v & [= <-] & ?)|]. intros [Hc _]. by rewrite Hc in Htool.
Qed.

Lemma validateToolConfig_outspoken
  (number_text : Z -> Z -> jsstring) (config : value) (v : verdict) :
  ToolRegistry.validateToolConfig number_text config = Normal v -> outspoken v.
Proof.
  unfold ToolRegistry.validateToolConfig, get.
  destruct (is_nullish config); [done|]. cbn [bind].
  destruct (negb (truthy (prop config (str "tool")))); [by intros [= <-]|].
  destruct (to_text number_text (prop config (str "tool"))) as [key|e]; cbn [bind];
    [|done].
  repeat case_match; intros [= <-]; try done. apply validate_outspoken.
Qed.

(** The tool configurations of the conversion phase that leave no
    message. *)
Lemma check_conversion_nil
  (number_text : Z -> Z -> jsstring) (index : nat) (props : list (jsstring * value)) :
  check_conversion number_text index (VObj props) = Normal []
  <-> claude_config false (VObj props).
Proof.
  unfold check_conversion, claude_config.
  pose proof (validateToolConfig_valid number_text (VObj props) eq_refl) as Hvalid.
  pose proof (validateToolConfig_outspoken number_text (VObj props)) as Hout.
  destruct (ToolRegistry.validateToolConfig number_text (VObj props)) as [v|e]; cbn [bind];
    cbn [prop] in *.
  - specialize (Hout v eq_refl). split.
    + intros [= H]. apply app_eq_nil in H as [Hv Hschema].
      apply prefixed_nil in Hv; [|done].
      destruct (proj1 Hvalid) as [Htool Hopt]; [by exists v|].
      exists props. split; [done|]. split; [done|]. split; [done|]. split; [|done].
      rewrite Htool in Hschema.
      change (is_str (VStr (str "claude")) (str "claude")) with true in Hschema.
      rewrite andb_true_r in Hschema.
      destruct (truthy (lookup_prop (str "outputSchema") props)) eqn:Hs; [|by left].
      apply validateOutputSchema_valid.
      by apply prefixed_nil in Hschema; [|apply validateOutputSchema_outspoken].
    + intros (props' & _ & Htool & Hopt & Hschema & _).
      destruct (proj2 Hvalid (conj Htool Hopt)) as (v' & [= <-] & Hv).
      f_equal. rewrite (proj2 (prefixed_nil (str "conversion") index v Hout) Hv).
      cbn [app]. destruct (_ && _); [|done].
      apply prefixed_nil; [apply validateOutputSchema_outspoken|].
      by apply validateOutputSchema_valid.
  - split; [done|]. intros (props' & _ & Htool & Hopt & _).
    by destruct (proj2 Hvalid (conj Htool Hopt)) as (v' & ? & _).
Qed.

(** The tool configurations of the task phase that leave no message. *)
Lemma check_task_nil
  (number_text : Z -> Z -> jsstring) (index : nat) (props : list (jsstring * value)) :
  check_task number_text index (VObj props) = Normal []
  <-> claude_config true (VObj props).
Proof.
  unfold check_task, claude_config.
  pose proof (validateToolConfig_valid number_text (VObj props) eq_refl) as Hvalid.
  pose proof (validateToolConfig_outspoken number_text (VObj props)) as Hout.
  pose proof (validateSkipContext_valid (VObj props)) as Hskip.
  pose proof (validateSkipContext_outspoken (VObj props)) as Hskip'.
  destruct (ToolRegistry.validateToolConfig number_text (VObj props)) as [v|e]; cbn [bind];
    cbn [prop] in *.
  - specialize (Hout v eq_refl). split.
    + intros [= H]. apply app_eq_nil in H as [Hv Hrest].
      apply prefixed_nil in Hv; [|done].
      destruct (proj1 Hvalid) as [Htool Hopt]; [by exists v|].
      rewrite Htool in Hrest.
      change (is_str (VStr (str "claude")) (str "claude")) with true in Hrest.
      cbn iota in Hrest. apply app_eq_nil in Hrest as [Hs Hschema].
      apply prefixed_nil in Hs; [|done].
      exists props. split; [done|]. split; [done|]. split; [done|]. split.
      * destruct (truthy (lookup_prop (str "outputSchema") props)) eqn:Hso; [|by left].
        apply validateOutputSchema_valid.
        by apply prefixed_nil in Hschema; [|apply validateOutputSchema_outspoken].
      * intros _. by apply Hskip.
    + intros (props' & _ & Htool & Hopt & Hschema & Hs).
      destruct (proj2 Hvalid (conj Htool Hopt)) as (v' & [= <-] & Hv).
      f_equal. rewrite (proj2 (prefixed_nil (str "task") index v Hout) Hv).
      cbn [app]. rewrite Htool.
      change (is_str (VStr (str "claude")) (str "claude")) with true. cbn iota.
      rewrite (proj2 (prefixed_nil (str "task") index _ Hskip')); [|by apply Hskip, Hs].
      cbn [app]. destruct (truthy _); [|done].
      apply prefixed_nil; [apply validateOutputSchema_outspoken|].
      by apply validateOutputSchema_valid.
  - split; [done|]. intros (props' & _ & Htool & Hopt & _).
    by destruct (proj2 Hvalid (conj Htool Hopt)) as (v' & ? & _).
Qed.

Lemma collect_nil (f : nat -> value -> completion (list jsstring)) (P Q : value -> Prop) :
  (forall i c, Q c -> f i c = Normal [] <-> P c) ->
  forall items i,
    Forall Q items ->
    collect f i items = Normal [] <-> Forall P items.
Proof.
  intros Hf. induction items as [|c items IH]; intros i HQ; simpl.
  - split; [by constructor|done].
  - apply Forall_cons in HQ as [Hc HQ].
    specialize (Hf i c Hc). specialize (IH (S i) HQ).
    destruct (f i c) as [here|e]; cbn [bind].
    + destruct (collect f (S i) items) as [there|e]; cbn [bind].
      * split.
        -- intros [= H]. apply app_eq_nil in H as [-> ->].
           constructor; [by apply Hf|by apply IH].
        -- intros H. apply Forall_cons in H as [Hp Hps].
           apply Hf in Hp as [= ->]. by apply IH in Hps as [= ->].
      * split; [done|]. intros H. apply Forall_cons in H as [_ Hps]. by apply IH in Hps.
    + split; [done|]. intros H. apply Forall_cons in H as [Hp _]. by apply Hf in Hp.
Qed.

Lemma concat_imap_nil {A B} (g : nat -> A -> list B) (P : A -> Prop) (l : list A) :
  (forall i x, g i x = [] <-> P x) ->
  concat (imap g l) = [] <-> Forall P l.
Proof.
  revert g. induction l as [|x l IH]; intros g Hg; simpl.
  - split; [by constructor|done].
  - rewrite Forall_cons, <- (Hg 0 x), <- (IH (g ∘ S)) by (intros i y; apply Hg).
    split; [by intros [? ?]%app_eq_nil|by intros [-> ->]].
Qed.

(** What [#validateConfigArray] accepts: a list of one or more objects,
    each with a [tool]. *)
Lemma validateConfigArray_valid (array : value) (arrayName : jsstring) :
  fst (validateConfigArray array arrayName) = true
  <-> exists items,
        array = VArr items /\ items <> []
        /\ Forall (fun c => exists props, c = VObj props
                                         /\ prop c (str "tool") <> VUndefined) items.
Proof.
  assert (forall i c, check_item arrayName i c = []
                      <-> exists props, c = VObj props
                                        /\ prop c (str "tool") <> VUndefined) as Hitem.
  { intros i c. unfold check_item.
    destruct c as [| | | | | |props]; try (split; [done|by intros (? & ? & _)]).
    cbn [prop]. destruct (lookup_prop (str "tool") props) eqn:Ht;
      split; try done; try (intros _; by exists props).
    by intros (props' & _ & ?). }
  unfold validateConfigArray.
  destruct array as [| | | | |items|]; try (split; [done|by intros (? & ? & _)]).
  destruct items as [|c items]; [split; [done|by intros (? & [= <-] & ? & _)]|].
  rewrite of_messages_valid, (concat_imap_nil _ _ _ Hitem).
  split; [intros H; by exists (c :: items)|by intros (? & [= <-] & _ & ?)].
Qed.

Lemma validateConfigArray_messages (array : value) (arrayName : jsstring) :
  fst (validateConfigArray array arrayName) = true ->
  snd (validateConfigArray array arrayName) = [].
Proof.
  unfold validateConfigArray.
  destruct array as [| | | | |[|c items]|]; try done.
  intros Hvalid. by apply of_messages_valid in Hvalid as ->.
Qed.

Lemma missing_keys_nil (setConfig : value) :
  missing_keys setConfig = []
  <-> prop setConfig (str "name") <> VUndefined
      /\ prop setConfig (str "version") <> VUndefined
      /\ prop setConfig (str "conversion") <> VUndefined
      /\ prop setConfig (str "task") <> VUndefined.
Proof.
  assert (forall (v : value) (m : jsstring) l,
            match v with VUndefined => [m] | _ => [] end ++ l = []
            <-> v <> VUndefined /\ l = []) as Hkey.
  { intros v m l. destruct v; simpl; intuition congruence. }
  unfold missing_keys, requiredKeys. cbn [flat_map]. rewrite !Hkey. tauto.
Qed.

Lemma validateSetConfig_valid
  (number_text : Z -> Z -> jsstring) (setConfig : value) (messages : list jsstring) :
  validateSetConfig number_text setConfig = Normal (true, messages)
  <-> messages = [] /\ well_formed setConfig.
Proof.
  assert (forall i c, (exists props, c = VObj props) ->
            check_conversion number_text i c = Normal [] <-> claude_config false c) as Hconv.
  { intros i c [props ->]. apply check_conversion_nil. }
  assert (forall i c, (exists props, c = VObj props) ->
            check_task number_text i c = Normal [] <-> claude_config true c) as Htask.
  { intros i c [props ->]. apply check_task_nil. }
  assert (forall items,
            Forall (fun c => exists props, c = VObj props
                                           /\ prop c (str "tool") <> VUndefined) items ->
            Forall (fun c => exists props, c = VObj props) items) as Hweak.
  { intros items Hall. eapply Forall_impl; [exact Hall|].
    intros c (props & ? & _). by exists props. }
  unfold validateSetConfig, well_formed.
  destruct (is_nullish setConfig) eqn:Hnn.
  { split; [done|]. intros (_ & Hname & _). by destruct setConfig. }
  pose proof (missing_keys_nil setConfig) as Hkeys.
  destruct (missing_keys setConfig) as [|m ms].
  2: { split; [done|]. intros (_ & Hname & Hversion & cs & ts & Hcs & Hts & _).
       assert (m :: ms = []) as Hnil; [|done].
       apply Hkeys. by rewrite Hcs, Hts. }
  destruct (proj1 Hkeys eq_refl) as (Hname & Hversion & _). clear Hkeys.
  cbv zeta.
  pose proof (validateConfigArray_valid (prop setConfig (str "conversion")) (str "conversion"))
    as Hc.
  pose proof (validateConfigArray_valid (prop setConfig (str "task")) (str "task")) as Ht.
  pose proof (validateConfigArray_messages (prop setConfig (str "conversion"))
                (str "conversion")) as Hcm.
  pose proof (validateConfigArray_messages (prop setConfig (str "task")) (str "task")) as Htm.
  destruct (fst (validateConfigArray (prop setConfig (str "conversion")) (str "conversion"))).
  2: { split; [done|]. intros (_ & _ & _ & cs & ts & Hcs & Hts & Hne & _ & Hall & _).
       assert (false = true) as Hfalse; [|done].
       apply Hc. exists cs. split; [done|]. split; [done|].
       eapply Forall_impl; [exact Hall|]. intros c (props & -> & Htool & _).
       exists props. split; [done|]. by rewrite Htool. }
  destruct (fst (validateConfigArray (prop setConfig (str "task")) (str "task"))).
  2: { split; [done|]. intros (_ & _ & _ & cs & ts & Hcs & Hts & _ & Hne & _ & Hall).
       assert (false = true) as Hfalse; [|done].
       apply Ht. exists ts. split; [done|]. split; [done|].
       eapply Forall_impl; [exact Hall|]. intros c (props & -> & Htool & _).
       exists props. split; [done|]. by rewrite Htool. }
  cbn [negb orb]. rewrite (Hcm eq_refl), (Htm eq_refl). cbn [app].
  destruct (proj1 Hc eq_refl) as (cs & Hcs & Hcne & Hcobj).
  destruct (proj1 Ht eq_refl) as (ts & Hts & Htne & Htobj).
  unfold validateToolConfigs. rewrite Hcs, Hts. cbn [elements].
  pose proof (collect_nil _ _ _ Hconv cs 0 (Hweak _ Hcobj)) as Hcs'.
  pose proof (collect_nil _ _ _ Htask ts 0 (Hweak _ Htobj)) as Hts'.
  destruct (collect (check_conversion number_text) 0 cs) as [l1|e]; cbn [bind].
  2: { split; [done|]. intros (_ & _ & _ & cs' & ts' & [= <-] & _ & _ & _ & Hall & _).
       by apply Hcs' in Hall. }
  destruct (collect (check_task number_text) 0 ts) as [l2|e]; cbn [bind].
  2: { split; [done|]. intros (_ & _ & _ & cs' & ts' & _ & [= <-] & _ & _ & _ & Hall).
       by apply Hts' in Hall. }
  split.
  - intros [= Hvalid Hm].
    assert (l1 ++ l2 = []) as Hnil by (by destruct (l1 ++ l2)).
    rewrite Hnil in Hm. apply app_eq_nil in Hnil as [-> ->].
    split; [done|]. split; [done|]. split; [done|].
    exists cs, ts. split; [done|]. split; [done|]. split; [done|]. split; [done|].
    split; [by apply Hcs'|by apply Hts'].
  - intros (-> & _ & _ & cs' & ts' & [= <-] & [= <-] & _ & _ & Hall1 & Hall2).
    apply Hcs' in Hall1 as [= ->]. by apply Hts' in Hall2 as [= ->].
Qed.

(** X15.  What [validateSetConfig] accepts.  It returns valid exactly for
    a document with the four required keys in which [conversion] and [task]
    each hold a list of one or more objects that name the tool [claude],
    with known options of the right types, an output schema that is left
    out or an object of the expected form and, in the task phase, a
    [skipContext] that is left out or a boolean; a valid verdict carries no
    message. *)
Theorem validateSetConfig_accepts
  (number_text : Z -> Z -> jsstring) (setConfig : value) (messages : list jsstring) :
  validateSetConfig number_text setConfig = Normal (true, messages)
  <-> messages = [] /\ well_formed setConfig.
Proof. apply validateSetConfig_valid. Qed.

(** What [loadSetConfig] returns has passed the validation. *)
Lemma loadSetConfig_valid
  (number_text : Z -> Z -> jsstring) (runtime_message : exn -> jsstring)
  (path : jsstring) (file : completion jsstring) (setConfig : value) :
  loadSetConfig number_text runtime_message path file = Normal setConfig ->
  well_formed setConfig.
Proof.
  unfold loadSetConfig, load_body.
  destruct file as [content|e]; cbn [bind]; [|done].
  destruct (JSON.parse content) as [raw|]; [|done].
  destruct (migrateSetConfig raw) as [[c m]|e]; cbn [bind fst]; [|done].
  destruct (validateSetConfig number_text c) as [[valid messages]|e] eqn:Hv;
    cbn [bind fst snd]; [|done].
  destruct valid; [|done]. intros [= <-].
  by apply validateSetConfig_valid in Hv as [_ ?].
Qed.

Lemma first_tool_config (setConfig : value) (phase : jsstring) (task : bool)
  (configs : list value) :
  is_nullish setConfig = false ->
  prop setConfig phase = VArr configs ->
  configs <> [] ->
  Forall (claude_config task) configs ->
  exists config,
    getToolConfig setConfig phase None = Normal config
    /\ hd_error configs = Some config
    /\ claude_config task config.
Proof.
  intros Hnn Hp Hne Hall. destruct configs as [|c configs]; [done|].
  apply Forall_cons in Hall as [Hc _]. exists c.
  unfold getToolConfig, get. rewrite Hnn, Hp. cbn [bind or_else truthy first_element].
  destruct Hc as (props & -> & Hrest). split; [done|]. split; [done|].
  by exists props.
Qed.

(** X16.  A set configuration that was loaded has a tool configuration for
    each phase.  When [loadSetConfig] returns, [getToolConfig] without a tool
    name returns for [conversion] and for [task] the first element of the
    list, which is an object naming the tool [claude] that the tool
    validates, never [null]; and the setting [executeTask] reads from the
    task configuration to skip the context is a boolean. *)
Theorem loaded_config_has_tools
  (number_text : Z -> Z -> jsstring) (runtime_message : exn -> jsstring)
  (path : jsstring) (file : completion jsstring) (setConfig : value) :
  loadSetConfig number_text runtime_message path file = Normal setConfig ->
  exists conversion others task more,
    prop setConfig (str "conversion") = VArr (conversion :: others)
    /\ prop setConfig (str "task") = VArr (task :: more)
    /\ getToolConfig setConfig (str "conversion") None = Normal conversion
    /\ getToolConfig setConfig (str "task") None = Normal task
    /\ claude_config false conversion
    /\ claude_config true task
    /\ fst (validate number_text conversion) = true
    /\ fst (validate number_text task) = true
    /\ exists b, skipContext task = VBool b.
Proof.
  intros Hload. apply loadSetConfig_valid in Hload
    as (Hname & _ & cs & ts & Hcs & Hts & Hcne & Htne & Hcall & Htall).
  assert (is_nullish setConfig = false) as Hnn by (by destruct setConfig).
  destruct (first_tool_config setConfig (str "conversion") false cs Hnn Hcs Hcne Hcall)
    as (c & Hc & Hfirst & Hcc).
  destruct (first_tool_config setConfig (str "task") true ts Hnn Hts Htne Htall)
    as (t & Ht & Hfirst' & Htc).
  destruct cs as [|c0 cs]; [done|]. destruct ts as [|t0 ts]; [done|].
  injection Hfirst as ->. injection Hfirst' as ->.
  exists c, cs, t, ts.
  split; [done|]. split; [done|]. split; [done|]. split; [done|].
  split; [done|]. split; [done|].
  split; [|split].
  - destruct Hcc as (props & _ & Htool & Hopt & _). by apply validate_valid.
  - destruct Htc as (props & _ & Htool & Hopt & _). by apply validate_valid.
  - destruct Htc as (props & -> & _ & _ & _ & Hskip). unfold skipContext, get_opt, or_else.
    cbn [is_nullish]. destruct (Hskip eq_refl) as [->|[[] ->]]; cbn; eauto.
Qed.

Lemma loaded_config_has_tools_witness :
  exists conversion others task more,
    prop Samples.small_set (str "conversion") = VArr (conversion :: others)
    /\ prop Samples.small_set (str "task") = VArr (task :: more)
    /\ getToolConfig Samples.small_set (str "conversion") None = Normal conversion
    /\ getToolConfig Samples.small_set (str "task") None = Normal task
    /\ claude_config false conversion
    /\ claude_config true task
    /\ fst (validate Samples.whole_number conversion) = true
    /\ fst (validate Samples.whole_number task) = true
    /\ exists b, skipContext task = VBool b.
Proof.
  apply (loaded_config_has_tools Samples.whole_number Samples.no_message
           Samples.set_json_path (Normal Samples.small_set_text) Samples.small_set).
  vm_compute. reflexivity.
Defined.

End ShapeFacts.

(** ** The command line of the agent *)

Section ArgsFacts.
Import JS ClaudeTool UserConfig.

(** What [buildArgs] reads from options that [validate] accepts. *)
Lemma known_options_read (options : value) (k : jsstring) :
  known_options options ->
  prop (or_else options (VObj [])) k = VUndefined
  \/ ((k = str "dangerouslySkipPermissions" \/ k = str "verbose")
      /\ exists b, prop (or_else options (VObj [])) k = VBool b)
  \/ (k = str "outputFormat"
      /\ exists s, prop (or_else options (VObj [])) k = VStr s
                   /\ s ∈ allowedOutputFormats).
Proof.
  intros [->|(props & -> & H)]; [by left|].
  cbn [or_else truthy prop].
  destruct (lookup_prop_elem k props) as [Hu|Hin]; [by left|].
  destruct (H _ _ Hin) as [[-> Hb]|[[-> Hb]|[-> Hs]]]; right; [left|left|right]; eauto.
Qed.

Lemma stringify_defined (number_text : Z -> Z -> jsstring) (n : nat) (v : value) :
  v <> VUndefined -> exists text, JSON.stringify number_text n v = Some text.
Proof.
  unfold JSON.stringify. destruct v as [| |[]| | | |]; cbn; eauto. done.
Qed.

Lemma truthy_or_else (a b : value) : truthy b = true -> truthy (or_else a b) = true.
Proof. unfold or_else. by destruct (truthy a) eqn:Ha. Qed.

Lemma allowed_format_truthy (s : jsstring) :
  s ∈ allowedOutputFormats -> truthy (VStr s) = true.
Proof.
  unfold allowedOutputFormats. rewrite !elem_of_cons.
  intros [->|[->|[->|H]]]; [done..|by inversion H].
Qed.

(** X17.  The command line of a configuration that [validate] accepts.
    For a tool configuration that [ClaudeTool.validate] accepts and a system
    prompt file that is a text or [null], [buildArgs] does not throw and
    every argument is a text.  In table mode, which both phases use, the
    arguments are [--print], then [--dangerously-skip-permissions] exactly
    when the option of that name is not [false], then always [--verbose]
    and [--output-format] with one of the allowed formats: the configured
    one, or [stream-json] when none is configured. *)
Theorem buildArgs_of_valid_config
  (number_text : Z -> Z -> jsstring) (config tableMode systemPromptFile : value) :
  fst (validate number_text config) = true ->
  (systemPromptFile = VNull \/ exists file, systemPromptFile = VStr file) ->
  exists args,
    buildArgs number_text config tableMode systemPromptFile = Normal args
    /\ Forall (fun a => exists s, a = VStr s) args
    /\ (truthy tableMode = true ->
        exists skip format rest,
          args = [VStr (str "--print")] ++ skip
                 ++ [VStr (str "--verbose"); VStr (str "--output-format"); VStr format]
                 ++ rest
          /\ (prop (prop config (str "options")) (str "dangerouslySkipPermissions")
              = VBool false ->
              skip = [])
          /\ (prop (prop config (str "options")) (str "dangerouslySkipPermissions")
              <> VBool false ->
              skip = [VStr (str "--dangerously-skip-permissions")])
          /\ format ∈ allowedOutputFormats
          /\ (prop (prop config (str "options")) (str "outputFormat") = VUndefined ->
              format = str "stream-json")
          /\ (forall s,
                prop (prop config (str "options")) (str "outputFormat") = VStr s ->
                format = s)).
Proof.
  intros Hvalid Hfile. apply validate_valid in Hvalid as [Htool Hopt].
  assert (is_nullish config = false) as Hnn by (by destruct config).
  unfold buildArgs, get. rewrite Hnn. cbn [bind].
  pose proof (known_options_read _ (str "dangerouslySkipPermissions") Hopt) as Hd.
  pose proof (known_options_read _ (str "outputFormat") Hopt) as Hf.
  assert (forall k, prop (or_else (prop config (str "options")) (VObj [])) k
                    = prop (prop config (str "options")) k) as Hsame.
  { intros k. destruct Hopt as [->|(props & -> & _)]; done. }
  set (options := or_else (prop config (str "options")) (VObj [])) in *.
  assert (exists format,
            or_else (prop options (str "outputFormat")) (VStr (str "stream-json"))
            = VStr format
            /\ format ∈ allowedOutputFormats
            /\ (prop options (str "outputFormat") = VUndefined -> format = str "stream-json")
            /\ (forall s, prop options (str "outputFormat") = VStr s -> format = s))
    as (format & Hformat & Hallowed & Hdefault & Hgiven).
  { destruct Hf as [->|[[[[=]|[=]] _]|[_ (s & -> & Hs)]]].
    - exists (str "stream-json"). split; [done|]. split; [apply list_elem_of_here|done].
    - exists s. unfold or_else. rewrite (allowed_format_truthy s Hs).
      split; [done|]. split; [done|]. split; [done|]. by intros s' [= <-]. }
  assert (exists skip,
            match prop options (str "dangerouslySkipPermissions") with
            | VBool false => []
            | _ => [VStr (str "--dangerously-skip-permissions")]
            end = skip
            /\ (skip = [] \/ skip = [VStr (str "--dangerously-skip-permissions")])
            /\ (prop options (str "dangerouslySkipPermissions") = VBool false -> skip = [])
            /\ (prop options (str "dangerouslySkipPermissions") <> VBool false ->
                skip = [VStr (str "--dangerously-skip-permissions")]))
    as (skip & -> & Hskip & Hoff & Hon).
  { destruct Hd as [->|[[_ [[] ->]]|[[=] _]]]; eexists; (split; [reflexivity|]);
      repeat split; auto; try done. }
  rewrite Hformat.
  assert (exists schema,
            (if truthy (prop config (str "outputSchema"))
             then [VStr (str "--json-schema");
                   match JSON.stringify number_text 0 (prop config (str "outputSchema")) with
                   | Some text => VStr text
                   | None => VUndefined
                   end]
             else []) = schema
            /\ Forall (fun a => exists s, a = VStr s) schema) as (schema & -> & Hschema).
  { destruct (truthy (prop config (str "outputSchema"))) eqn:Hs; [|by exists []].
    destruct (stringify_defined number_text 0 (prop config (str "outputSchema")))
      as [text ->]; [by intros Heq; rewrite Heq in Hs|].
    eexists. split; [reflexivity|]. repeat constructor; eauto. }
  assert (exists prompt,
            (if truthy systemPromptFile
             then [VStr (str "--append-system-prompt-file"); systemPromptFile]
             else []) = prompt
            /\ Forall (fun a => exists s, a = VStr s) prompt) as (prompt & -> & Hprompt).
  { destruct Hfile as [->|[file ->]]; [by exists []|].
    destruct (truthy (VStr file)); eexists; (split; [reflexivity|]);
      repeat constructor; eauto. }
  eexists. split; [reflexivity|]. split.
  - repeat (apply Forall_app; split); try done.
    + repeat constructor; eauto.
    + destruct Hskip as [->| ->]; repeat constructor; eauto.
    + destruct (truthy _); repeat constructor; eauto.
    + destruct (truthy _); repeat constructor; eauto.
  - intros Htable. rewrite !(truthy_or_else _ tableMode Htable).
    exists skip, format, (schema ++ prompt). split; [done|].
    rewrite <- !Hsame. fold options. by repeat split.
Qed.

Lemma buildArgs_of_valid_config_witness :
  exists args,
    buildArgs Samples.whole_number Samples.json_task_config (VStr (str "task"))
              (VStr (str "/home/u/.ralph/sets/demo/system.prompt.md"))
    = Normal args
    /\ Forall (fun a => exists s, a = VStr s) args
    /\ (truthy (VStr (str "task")) = true ->
        exists skip format rest,
          args = [VStr (str "--print")] ++ skip
                 ++ [VStr (str "--verbose"); VStr (str "--output-format"); VStr format]
                 ++ rest
          /\ (prop (prop Samples.json_task_config (str "options"))
                   (str "dangerouslySkipPermissions")
              = VBool false ->
              skip = [])
          /\ (prop (prop Samples.json_task_config (str "options"))
                   (str "dangerouslySkipPermissions")
              <> VBool false ->
              skip = [VStr (str "--dangerously-skip-permissions")])
          /\ format ∈ allowedOutputFormats
          /\ (prop (prop Samples.json_task_config (str "options")) (str "outputFormat")
              = VUndefined ->
              format = str "stream-json")
          /\ (forall s,
                prop (prop Samples.json_task_config (str "options")) (str "outputFormat")
                = VStr s ->
                format = s)).
Proof.
  apply (buildArgs_of_valid_config Samples.whole_number Samples.json_task_config
           (VStr (str "task")) (VStr (str "/home/u/.ralph/sets/demo/system.prompt.md"))).
  - reflexivity.
  - right. eexists. reflexivity.
Defined.

(** The command line of the witness, and one with the option switched
    off. *)
Example buildArgs_of_json_task_config :
  buildArgs Samples.whole_number Samples.json_task_config (VStr (str "task")) VNull
  = Normal [VStr (str "--print"); VStr (str "--dangerously-skip-permissions");
            VStr (str "--verbose"); VStr (str "--output-format"); VStr (str "json")]
  /\ buildArgs Samples.whole_number
       (VObj [(str "tool", VStr (str "claude"));
              (str "options", VObj [(str "dangerouslySkipPermissions", VBool false)])])
       (VStr (str "task")) VNull
     = Normal [VStr (str "--print"); VStr (str "--verbose");
               VStr (str "--output-format"); VStr (str "stream-json")].
Proof. split; reflexivity. Qed.

(** Without the validation an argument need not be a text. *)
Example buildArgs_unvalidated :
  buildArgs Samples.whole_number
            (VObj [(str "tool", VStr (str "claude"));
                   (str "options", VObj [(str "outputFormat", VNum 5 0)])])
            VNull VNull
  = Normal [VStr (str "--print"); VStr (str "--dangerously-skip-permissions");
            VStr (str "--output-format"); VNum 5 0].
Proof. reflexivity. Qed.

End ArgsFacts.

(** ** Migration of the old structures *)

Section MigrationFacts.
Import JS ClaudeTool UserConfig.

(** What [wrap_single] leaves: the other properties as they were, and under
    the key nothing that it would wrap again. *)
Lemma wrap_single_spec (key : jsstring) (setConfig c : value) (m : bool) :
  wrap_single key setConfig = (c, m) ->
  is_nullish c = is_nullish setConfig
  /\ (forall k, eqs key k = false -> prop c k = prop setConfig k)
  /\ truthy (prop c key) = truthy (prop setConfig key)
  /\ truthy (prop c key) && negb (isArray (prop c key)) = false
  /\ (m = false -> c = setConfig).
Proof.
  unfold wrap_single. destruct setConfig as [| | | | | |props];
    try (intros [= <- <-]; by repeat split).
  destruct (truthy (lookup_prop key props) && negb (isArray (lookup_prop key props)))
    eqn:Hwrap; intros [= <- <-]; cbn [prop is_nullish].
  - split; [done|]. split; [by intros k Hk; apply lookup_set_other|].
    rewrite lookup_set_same. apply andb_true_iff in Hwrap as [-> _]. by repeat split.
  - by repeat split.
Qed.

Lemma wrap_single_fixed (key : jsstring) (c : value) :
  truthy (prop c key) && negb (isArray (prop c key)) = false ->
  wrap_single key c = (c, false).
Proof.
  unfold wrap_single. destruct c; try done. cbn [prop]. by intros ->.
Qed.

(** What the migration of the oldest structure builds. *)
Lemma spread_legacy_props (props : list (jsstring * value)) (skipTaskContext : value) :
  let c := spread_legacy (VObj props) skipTaskContext in
  prop c (str "conversion") = legacy_entry []
  /\ prop c (str "task") = legacy_entry [(str "skipContext", skipTaskContext)]
  /\ forall k, eqs (str "conversion") k = false -> eqs (str "task") k = false ->
       prop c k = lookup_prop k props.
Proof.
  unfold spread_legacy. cbn [prop]. split; [|split].
  - by rewrite lookup_set_other, lookup_set_same.
  - by rewrite lookup_set_same.
  - intros k Hc Ht. by rewrite !lookup_set_other.
Qed.

(** X18.  Migration is idempotent.  What [#migrateSetConfig] returns is a
    configuration it leaves as it is: migrated once more, the same
    configuration comes back and [migrated] is false. *)
Theorem migrateSetConfig_idempotent (setConfig c : value) (m : bool) :
  migrateSetConfig setConfig = Normal (c, m) ->
  migrateSetConfig c = Normal (c, false).
Proof.
  unfold migrateSetConfig at 1. unfold get.
  destruct (is_nullish setConfig) eqn:Hnn; [done|]. cbn [bind].
  set (stc := get_opt (prop setConfig (str "options")) (str "skipTaskContext")).
  destruct (match stc with
            | VUndefined => false
            | _ => negb (truthy (prop setConfig (str "task")))
            end) eqn:Hlegacy.
  - intros [= <- <-].
    assert (exists props, setConfig = VObj props) as [props ->].
    { destruct setConfig; try done. by eexists. }
    destruct (spread_legacy_props props stc) as (Hc & Ht & Hk).
    unfold migrateSetConfig, get. cbn [is_nullish spread_legacy bind].
    fold (spread_legacy (VObj props) stc).
    rewrite (Hk (str "options")) by done. fold stc.
    rewrite Ht. cbn [legacy_entry truthy negb].
    assert (forall v : value, match v with VUndefined => false | _ => false end = false)
      as Hm by (by intros []).
    rewrite Hm.
    rewrite (wrap_single_fixed (str "conversion")) by (by rewrite Hc).
    by rewrite (wrap_single_fixed (str "task")) by (by rewrite Ht).
  - destruct (wrap_single (str "conversion") setConfig) as [c1 m1] eqn:H1.
    destruct (wrap_single (str "task") c1) as [c2 m2] eqn:H2.
    intros [= <- <-].
    destruct (wrap_single_spec _ _ _ _ H1) as (Hn1 & Hk1 & Ht1 & Hf1 & _).
    destruct (wrap_single_spec _ _ _ _ H2) as (Hn2 & Hk2 & Ht2 & Hf2 & _).
    unfold migrateSetConfig, get. rewrite Hn2, Hn1, Hnn. cbn [bind].
    rewrite (Hk2 (str "options")), (Hk1 (str "options")) by done. fold stc.
    rewrite Ht2, (Hk1 (str "task")), Hlegacy by done.
    rewrite (wrap_single_fixed (str "conversion") c2)
      by (by rewrite (Hk2 (str "conversion"))).
    by rewrite (wrap_single_fixed (str "task") c2).
Qed.

Lemma migrateSetConfig_idempotent_witness :
  migrateSetConfig (spread_legacy Samples.legacy_set (VBool true))
  = Normal (spread_legacy Samples.legacy_set (VBool true), false).
Proof.
  apply (migrateSetConfig_idempotent Samples.legacy_set
           (spread_legacy Samples.legacy_set (VBool true)) true).
  reflexivity.
Defined.

Lemma claude_options_known : known_options claude_options.
Proof.
  right. eexists. split; [reflexivity|]. intros k v Hin.
  apply elem_of_cons in Hin as [[= -> ->]|Hin]; [left; eauto|].
  apply elem_of_cons in Hin as [[= -> ->]|Hin]; [right; left; eauto|].
  apply elem_of_cons in Hin as [[= -> ->]|Hin]; [|by inversion Hin].
  right. right. split; [done|]. eexists. split; [done|]. apply list_elem_of_here.
Qed.

(** X19.  A set configuration in the oldest structure loads.  For a
    [set.json] that is an object with a name and a version, whose
    [options.skipTaskContext] is a boolean and whose [task] is left out (or
    falsy), [loadSetConfig] returns the migrated configuration: both phases
    hold one tool configuration for [claude] with the default options, the
    task phase skips the context exactly when [skipTaskContext] says so, and
    every other key of the document is kept. *)
Theorem legacy_config_is_migrated
  (number_text : Z -> Z -> jsstring) (runtime_message : exn -> jsstring)
  (path content : jsstring) (props : list (jsstring * value)) (b : bool) :
  JSON.parse content = Some (VObj props) ->
  lookup_prop (str "name") props <> VUndefined ->
  lookup_prop (str "version") props <> VUndefined ->
  prop (lookup_prop (str "options") props) (str "skipTaskContext") = VBool b ->
  truthy (lookup_prop (str "task") props) = false ->
  exists setConfig,
    loadSetConfig number_text runtime_message path (Normal content) = Normal setConfig
    /\ getToolConfig setConfig (str "conversion") None
       = Normal (VObj [(str "tool", VStr (str "claude")); (str "options", claude_options)])
    /\ getToolConfig setConfig (str "task") None
       = Normal (VObj [(str "tool", VStr (str "claude")); (str "options", claude_options);
                       (str "skipContext", VBool b)])
    /\ skipContext (VObj [(str "tool", VStr (str "claude")); (str "options", claude_options);
                          (str "skipContext", VBool b)]) = VBool b
    /\ forall k, eqs (str "conversion") k = false -> eqs (str "task") k = false ->
         prop setConfig k = lookup_prop k props.
Proof.
  intros Hparse Hname Hversion Hskip Htask.
  set (c := spread_legacy (VObj props) (VBool b)).
  destruct (spread_legacy_props props (VBool b)) as (Hc & Ht & Hk). fold c in Hc, Ht, Hk.
  assert (migrateSetConfig (VObj props) = Normal (c, true)) as Hmig.
  { unfold migrateSetConfig, get. cbn [is_nullish bind prop].
    unfold get_opt. destruct (is_nullish (lookup_prop (str "options") props)) eqn:Hn.
    { by destruct (lookup_prop (str "options") props). }
    by rewrite Hskip, Htask. }
  assert (validateSetConfig number_text c = Normal (true, [])) as Hvalid.
  { apply validateSetConfig_valid. split; [done|]. unfold well_formed.
    rewrite !Hk by done. split; [done|]. split; [done|].
    eexists _, _. split; [exact Hc|]. split; [exact Ht|]. split; [done|]. split; [done|].
    split; repeat constructor; eexists; (split; [reflexivity|]); (split; [done|]);
      (split; [apply claude_options_known|]); (split; [by left|]); [done|].
    intros _. right. by exists b. }
  exists c. split; [|split; [|split; [|split]]].
  - unfold loadSetConfig, load_body. cbn [bind]. rewrite Hparse, Hmig. cbn [bind fst].
    by rewrite Hvalid.
  - unfold getToolConfig, get. change (is_nullish c) with false. cbn [bind]. by rewrite Hc.
  - unfold getToolConfig, get. change (is_nullish c) with false. cbn [bind]. by rewrite Ht.
  - by destruct b.
  - exact Hk.
Qed.

Lemma legacy_config_is_migrated_witness :
  exists setConfig,
    loadSetConfig Samples.whole_number Samples.no_message Samples.set_json_path
                  (Normal Samples.legacy_set_text) = Normal setConfig
    /\ getToolConfig setConfig (str "conversion") None
       = Normal (VObj [(str "tool", VStr (str "claude")); (str "options", claude_options)])
    /\ getToolConfig setConfig (str "task") None
       = Normal (VObj [(str "tool", VStr (str "claude")); (str "options", claude_options);
                       (str "skipContext", VBool true)])
    /\ skipContext (VObj [(str "tool", VStr (str "claude")); (str "options", claude_options);
                          (str "skipContext", VBool true)]) = VBool true
    /\ forall k, eqs (str "conversion") k = false -> eqs (str "task") k = false ->
         prop setConfig k
         = lookup_prop k [(str "name", VStr (str "old"));
                          (str "version", VStr (str "1.0.0"));
                          (str "options", VObj [(str "skipTaskContext", VBool true)])].
Proof.
  apply (legacy_config_is_migrated Samples.whole_number Samples.no_message
           Samples.set_json_path Samples.legacy_set_text
           [(str "name", VStr (str "old")); (str "version", VStr (str "1.0.0"));
            (str "options", VObj [(str "skipTaskContext", VBool true)])] true);
    [vm_compute; reflexivity|discriminate|discriminate|reflexivity|reflexivity].
Defined.

(** X20.  The structure the error messages show is one that loads.  When
    the number 1 prints as the digit 1, the text of the expected structure
    that every error of [loadSetConfig] carries, saved as [set.json], parses
    back to the default content, needs no migration, passes the validation
    and is what [loadSetConfig] returns. *)
Theorem expected_structure_loads
  (number_text : Z -> Z -> jsstring) (runtime_message : exn -> jsstring)
  (path : jsstring) :
  number_text 1%Z 0%Z = str "1" ->
  JSON.parse (expectedStructure number_text) = Some defaultSetContent
  /\ migrateSetConfig defaultSetContent = Normal (defaultSetContent, false)
  /\ validateSetConfig number_text defaultSetContent = Normal (true, [])
  /\ loadSetConfig number_text runtime_message path
                   (Normal (expectedStructure number_text))
     = Normal defaultSetContent.
Proof.
  intros Hone.
  assert (JSON.parse (expectedStructure number_text) = Some defaultSetContent) as Hparse.
  { unfold expectedStructure, JSON.stringify. vm_compute JSON.serialize.
    rewrite Hone. vm_compute. reflexivity. }
  assert (validateSetConfig number_text defaultSetContent = Normal (true, [])) as Hvalid.
  { vm_compute. reflexivity. }
  split; [done|]. split; [reflexivity|]. split; [done|].
  unfold loadSetConfig, load_body. cbn [bind]. rewrite Hparse.
  change (migrateSetConfig defaultSetContent) with (Normal (defaultSetContent, false)).
  cbn [bind fst]. by rewrite Hvalid.
Qed.

Lemma expected_structure_loads_witness :
  JSON.parse (expectedStructure Samples.whole_number) = Some defaultSetContent
  /\ migrateSetConfig defaultSetContent = Normal (defaultSetContent, false)
  /\ validateSetConfig Samples.whole_number defaultSetContent = Normal (true, [])
  /\ loadSetConfig Samples.whole_number Samples.no_message Samples.set_json_path
                   (Normal (expectedStructure Samples.whole_number))
     = Normal defaultSetContent.
Proof.
  apply (expected_structure_loads Samples.whole_number Samples.no_message
           Samples.set_json_path).
  reflexivity.
Defined.

End MigrationFacts.

(** ** Lookups and failures of the set configuration *)

Section LookupFacts.
Import JS ClaudeTool UserConfig.

Lemma find_tool_spec (name : jsstring) (configs : list value) :
  Forall (fun c => is_nullish c = false) configs ->
  find_tool name configs
  = Normal match List.find (fun c => is_str (prop c (str "tool")) name) configs with
           | Some c => c
           | None => VUndefined
           end.
Proof.
  induction configs as [|c configs IH]; intros Hall; [done|].
  apply Forall_cons in Hall as [Hc Hall]. cbn [find_tool List.find].
  unfold get. rewrite Hc. cbn [bind].
  destruct (is_str (prop c (str "tool")) name); [done|by apply IH].
Qed.

(** X21.  The lookup of a tool configuration by name.  For a phase that
    holds a list without [null] in it (or that is left out, for the empty
    list), [getToolConfig] with a tool name returns the first element of the
    list whose [tool] is that name, and [null] when there is none; it does
    not throw. *)
Theorem getToolConfig_by_name
  (setConfig : value) (phase name : jsstring) (configs : list value) :
  is_nullish setConfig = false ->
  or_else (prop setConfig phase) (VArr []) = VArr configs ->
  Forall (fun c => is_nullish c = false) configs ->
  name <> [] ->
  getToolConfig setConfig phase (Some name)
  = Normal match List.find (fun c => is_str (prop c (str "tool")) name) configs with
           | Some c => c
           | None => VNull
           end.
Proof.
  intros Hnn Hphase Hall Hname. unfold getToolConfig, get. rewrite Hnn. cbn [bind].
  rewrite Hphase. destruct name as [|x name]; [done|].
  rewrite (find_tool_spec _ _ Hall). cbn [bind].
  destruct (List.find _ configs) as [c|] eqn:Hfind; [|done].
  apply find_some in Hfind as [_ Htool]. unfold or_else.
  destruct c; try done.
Qed.

Lemma getToolConfig_by_name_witness :
  getToolConfig Samples.two_tools (str "conversion") (Some (str "claude"))
  = Normal match List.find (fun c => is_str (prop c (str "tool")) (str "claude"))
                   [VObj [(str "tool", VStr (str "other"));
                          (str "options", VObj [(str "a", VNum 1 0)])];
                    VObj [(str "tool", VStr (str "claude"));
                          (str "options", VObj [(str "b", VNum 2 0)])]] with
           | Some c => c
           | None => VNull
           end.
Proof.
  apply (getToolConfig_by_name Samples.two_tools (str "conversion") (str "claude")).
  - reflexivity.
  - reflexivity.
  - repeat constructor.
  - discriminate.
Defined.

(** X22.  What an error of [loadSetConfig] tells.  Every error it throws
    names the path of [set.json] and ends with the hint to copy the
    examples.  When the file cannot be read, the message of that failure is
    in it.  When the validation fails, every message of the validation is
    in it, under the heading of the failed validation with the path. *)
Theorem load_error_tells
  (number_text : Z -> Z -> jsstring) (runtime_message : exn -> jsstring)
  (path : jsstring) :
  (forall file e,
     loadSetConfig number_text runtime_message path file = Throw e ->
     exists text,
       e = Error text
       /\ includes text (str "Set config not found or invalid: " ++ path)
       /\ exists before,
            text = before ++ [LF] ++ str "Copy examples/.ralph/ to ~/.ralph/")
  /\ (forall e0,
        exists text,
          loadSetConfig number_text runtime_message path (Throw e0) = Throw (Error text)
          /\ includes text (str "Error: " ++ Adapter.message_of runtime_message e0))
  /\ (forall content raw c migrated messages,
        JSON.parse content = Some raw ->
        migrateSetConfig raw = Normal (c, migrated) ->
        validateSetConfig number_text c = Normal (false, messages) ->
        exists text,
          loadSetConfig number_text runtime_message path (Normal content)
          = Throw (Error text)
          /\ includes text (str "Set config validation failed: " ++ path)
          /\ forall m, m ∈ messages -> includes text m).
Proof.
  split; [|split].
  - intros file e. unfold loadSetConfig.
    destruct (load_body number_text path file) as [v|e0]; [done|].
    intros [= <-]. eexists. split; [reflexivity|]. unfold not_found_or_invalid. split.
    + rewrite app_assoc. apply includes_here.
    + eexists. rewrite !app_assoc. reflexivity.
  - intros e0. eexists. split; [reflexivity|]. unfold not_found_or_invalid.
    do 3 apply includes_app_r. rewrite (app_assoc (str "Error: ")).
    apply includes_here.
  - intros content raw c migrated messages Hparse Hmig Hvalid.
    eexists. split.
    + unfold loadSetConfig, load_body. cbn [bind]. rewrite Hparse, Hmig. cbn [bind fst].
      rewrite Hvalid. cbn [bind fst snd]. reflexivity.
    + cbn [Adapter.message_of]. unfold not_found_or_invalid, validation_failed. split.
      * do 4 apply includes_app_r. apply includes_app_l.
        rewrite app_assoc. apply includes_here.
      * intros m Hm. do 4 apply includes_app_r. apply includes_app_l.
        do 6 apply includes_app_r. apply includes_app_l. by apply includes_join.
Qed.

(** X23.  A tool named after a method that every object has makes the
    validation throw.  For a set configuration with the four keys and
    well-formed lists, whose first conversion entry names as its tool a
    method inherited from [Object.prototype] ([toString], [constructor],
    ...), [validateSetConfig] returns no verdict: it throws a TypeError,
    and [loadSetConfig] reports the set as not found or invalid, with the
    runtime's message of that error and none about an unknown tool. *)
Theorem inherited_tool_name_throws
  (number_text : Z -> Z -> jsstring) (runtime_message : exn -> jsstring)
  (setConfig c : value) (rest : list value) (name : jsstring) :
  missing_keys setConfig = [] ->
  fst (validateConfigArray (prop setConfig (str "conversion")) (str "conversion")) = true ->
  fst (validateConfigArray (prop setConfig (str "task")) (str "task")) = true ->
  prop setConfig (str "conversion") = VArr (c :: rest) ->
  prop c (str "tool") = VStr name ->
  is_inherited name = true ->
  validateSetConfig number_text setConfig = Throw TypeError
  /\ forall path content,
       JSON.parse content = Some setConfig ->
       migrateSetConfig setConfig = Normal (setConfig, false) ->
       loadSetConfig number_text runtime_message path (Normal content)
       = Throw (Error (not_found_or_invalid number_text runtime_message path TypeError)).
Proof.
  intros Hkeys Hconv Htask Hcs Htool Hname.
  assert (is_nullish setConfig = false) as Hnn.
  { destruct setConfig; try done; by rewrite Hcs in Hconv. }
  assert (validateSetConfig number_text setConfig = Throw TypeError) as Hthrow.
  { unfold validateSetConfig. rewrite Hnn, Hkeys. cbv zeta. rewrite Hconv, Htask.
    cbn [negb orb]. unfold validateToolConfigs. rewrite Hcs. cbn [elements collect].
    unfold check_conversion at 1. unfold ToolRegistry.validateToolConfig, get.
    assert (is_nullish c = false) as -> by (destruct c; try done).
    cbn [bind]. rewrite Htool. cbn [to_text toString].
    assert (truthy (VStr name) = true) as -> by (by destruct name).
    cbn [negb bind].
    assert (existsb (eqs name) ToolRegistry.toolNames = false) as ->.
    { unfold ToolRegistry.toolNames. cbn [existsb]. rewrite orb_false_r.
      destruct (eqs name (str "claude")) eqn:Heq; [|done].
      apply eqs_eq in Heq as ->. discriminate Hname. }
    by rewrite Hname. }
  split; [done|]. intros path content Hparse Hmig.
  unfold loadSetConfig, load_body. cbn [bind]. rewrite Hparse, Hmig. cbn [bind fst].
  by rewrite Hthrow.
Qed.

Lemma inherited_tool_name_throws_witness :
  validateSetConfig Samples.whole_number Samples.inherited_tool_set = Throw TypeError
  /\ forall path content,
       JSON.parse content = Some Samples.inherited_tool_set ->
       migrateSetConfig Samples.inherited_tool_set
       = Normal (Samples.inherited_tool_set, false) ->
       loadSetConfig Samples.whole_number Samples.no_message path (Normal content)
       = Throw (Error (not_found_or_invalid Samples.whole_number Samples.no_message
                                            path TypeError)).
Proof.
  apply (inherited_tool_name_throws Samples.whole_number Samples.no_message
           Samples.inherited_tool_set
           (VObj [(str "tool", VStr (str "toString"))]) [] (str "toString"));
    reflexivity.
Defined.

End LookupFacts.

(** ** The stream of events *)

Section StreamFacts.
Import JS Print.

Lemma split_nonempty (sep : char) (s : jsstring) : split sep s <> [].
Proof.
  destruct s as [|c s]; simpl; [done|].
  destruct (N.eqb c sep); [done|]. by destruct (split sep s).
Qed.

(** The lines of a text are the lines before the last one and the last
    one. *)
Lemma split_init_last (sep : char) (s : jsstring) :
  split sep s = removelast (split sep s) ++ [List.last (split sep s) []].
Proof. apply app_removelast_last, split_nonempty. Qed.

Lemma split_cons (sep c : char) (s : jsstring) :
  split sep (c :: s)
  = if N.eqb c sep then [] :: split sep s
    else (c :: hd [] (split sep s)) :: tl (split sep s).
Proof.
  simpl. destruct (N.eqb c sep); [done|].
  pose proof (split_nonempty sep s). by destruct (split sep s).
Qed.

(** The lines of two texts put together: the last line of the first goes
    on in the first line of the second. *)
Lemma split_app (sep : char) (a b : jsstring) :
  split sep (a ++ b)
  = removelast (split sep a)
    ++ (List.last (split sep a) [] ++ hd [] (split sep b)) :: tl (split sep b).
Proof.
  induction a as [|c a IH].
  - simpl. pose proof (split_nonempty sep b). by destruct (split sep b).
  - rewrite <- app_comm_cons, !split_cons.
    pose proof (split_nonempty sep a) as Hne.
    destruct (N.eqb c sep).
    + rewrite IH. destruct (split sep a) as [|l ls] eqn:Hs; [done|].
      by destruct ls.
    + rewrite IH. destruct (split sep a) as [|l [|l' ls]] eqn:Hs; [done| |]; simpl.
      * done.
      * done.
Qed.

(** A text without the separator is one line. *)
Lemma split_one (sep : char) (s : jsstring) : sep ∉ s -> split sep s = [s].
Proof.
  induction s as [|c s IH]; [done|]. intros Hs.
  apply not_elem_of_cons in Hs as [Hne Hs]. rewrite split_cons, (IH Hs).
  by assert (N.eqb c sep = false) as -> by (apply N.eqb_neq; congruence).
Qed.

(** No line holds the separator. *)
Lemma split_lines (sep : char) (s line : jsstring) :
  line ∈ split sep s -> sep ∉ line.
Proof.
  revert line. induction s as [|c s IH]; intros line.
  - simpl. intros ->%list_elem_of_singleton. by intros H; inversion H.
  - rewrite split_cons. pose proof (split_nonempty sep s) as Hne.
    destruct (N.eqb c sep) eqn:Hc.
    + intros [->|Hin]%elem_of_cons; [by intros H; inversion H|by apply IH].
    + destruct (split sep s) as [|l ls]; [done|]. simpl.
      intros [->|Hin]%elem_of_cons.
      * apply not_elem_of_cons. split; [apply N.eqb_neq in Hc; congruence|].
        apply IH, list_elem_of_here.
      * by apply IH, list_elem_of_further.
Qed.

Lemma last_elem {A} (l : list A) (d : A) : l <> [] -> List.last l d ∈ l.
Proof.
  intros Hne. rewrite (app_removelast_last d Hne) at 2.
  apply elem_of_app. right. apply list_elem_of_here.
Qed.

Lemma removelast_last_app {A} (l k : list A) (d : A) :
  k <> [] ->
  removelast (l ++ k) = l ++ removelast k /\ List.last (l ++ k) d = List.last k d.
Proof.
  intros Hk. split; [by apply removelast_app|].
  induction l as [|x l IH]; [done|]. cbn [app List.last]. rewrite IH.
  destruct (l ++ k) eqn:Heq; [|done]. by apply app_eq_nil in Heq as [_ ?].
Qed.

(** The buffer that is handed on holds no line feed. *)
Lemma buffer_one_line (chunk buffer : jsstring) :
  LF ∉ snd (parseStreamChunk chunk buffer).
Proof.
  unfold parseStreamChunk. cbn [snd].
  apply (split_lines LF (buffer ++ chunk)), last_elem, split_nonempty.
Qed.

(** Two chunks one after the other are as the two in one. *)
Lemma parseStreamChunk_app (c1 c2 buffer : jsstring) :
  parseStreamChunk (c1 ++ c2) buffer
  = (fst (parseStreamChunk c1 buffer)
     ++ fst (parseStreamChunk c2 (snd (parseStreamChunk c1 buffer))),
     snd (parseStreamChunk c2 (snd (parseStreamChunk c1 buffer)))).
Proof.
  pose proof (buffer_one_line c1 buffer) as Hone.
  unfold parseStreamChunk in *. cbn [fst snd] in *.
  set (a := buffer ++ c1) in *. rewrite app_assoc. fold a.
  assert (split LF (a ++ c2)
          = removelast (split LF a) ++ split LF (List.last (split LF a) [] ++ c2)) as ->.
  { rewrite (split_app LF a c2), (split_app LF (List.last (split LF a) []) c2).
    by rewrite (split_one LF _ Hone). }
  destruct (removelast_last_app (removelast (split LF a))
              (split LF (List.last (split LF a) [] ++ c2)) [] (split_nonempty _ _))
    as [-> ->].
  by rewrite flat_map_app.
Qed.

(** X24.  How the output is cut into chunks plays no part, as long as no
    cut falls inside a character.  Fed chunk by chunk through the stream
    buffer, from a buffer without a line feed (it is empty at the start),
    the output yields the events and leaves the buffer that the texts of
    the chunks yield in one; so two ways of cutting the same output yield
    the same events when in both the chunks decode, one by one, to the text
    of the whole. *)
Theorem stream_chunking_is_immaterial (decode : list Byte.byte -> jsstring) :
  (forall chunks buffer,
     LF ∉ buffer ->
     feed decode chunks buffer = parseStreamChunk (concat (map decode chunks)) buffer)
  /\ (forall chunks chunks',
        concat chunks = concat chunks' ->
        concat (map decode chunks) = decode (concat chunks) ->
        concat (map decode chunks') = decode (concat chunks') ->
        feed decode chunks [] = feed decode chunks' []
        /\ feed decode chunks [] = parseStreamChunk (decode (concat chunks)) []).
Proof.
  assert (forall chunks buffer,
            LF ∉ buffer ->
            feed decode chunks buffer
            = parseStreamChunk (concat (map decode chunks)) buffer) as Hfeed.
  { induction chunks as [|chunk chunks IH]; intros buffer Hb.
    - unfold parseStreamChunk. simpl. rewrite app_nil_r. by rewrite (split_one LF _ Hb).
    - cbn [feed concat map]. rewrite parseStreamChunk_app.
      pose proof (buffer_one_line (decode chunk) buffer) as Hone.
      destruct (parseStreamChunk (decode chunk) buffer) as [events buffer'].
      cbn [fst snd] in *. rewrite (IH buffer' Hone).
      by destruct (parseStreamChunk (concat (map decode chunks)) buffer'). }
  split; [done|]. intros chunks chunks' Heq Hd Hd'.
  assert (LF ∉ ([] : jsstring)) as Hnil by (by intros H; inversion H).
  rewrite !Hfeed by done. by rewrite Hd, Hd', Heq.
Qed.

(** A cut inside a character: the line has the same bytes, and another
    text. *)
Example cut_inside_a_character :
  let whole := Samples.accent_head ++ Samples.accent_tail in
  fst (feed Samples.utf8 [whole] [])
  = [VObj [(str "type", VStr (str "assistant"));
           (str "text", VStr (str "caf" ++ [233%N]))]]
  /\ fst (feed Samples.utf8 [Samples.accent_head; Samples.accent_tail] [])
     = [VObj [(str "type", VStr (str "assistant"));
              (str "text", VStr (str "caf" ++ [65533%N; 65533%N]))]].
Proof. split; by vm_compute. Qed.

(** X25.  Only lines that end in a line feed are parsed.  For an output
    that ends, after its last line feed, in a text without one, the events
    are those of the lines before that line feed, whatever the text after
    it is: it is kept in the buffer, and no later step of [callClaude] parses
    the buffer. *)
Theorem unfinished_line_is_held_back (text rest : jsstring) :
  LF ∉ rest ->
  parseStreamChunk (text ++ [LF] ++ rest) []
  = (flat_map line_events (split LF text), rest).
Proof.
  intros Hrest. unfold parseStreamChunk. cbn [app].
  assert (split LF (text ++ LF :: rest) = split LF text ++ [rest]) as ->.
  { rewrite split_app, split_cons, N.eqb_refl, (split_one LF rest Hrest). cbn [hd tl].
    rewrite app_nil_r.
    change (List.last (split LF text) [] :: [rest])
      with ([List.last (split LF text) []] ++ [rest]).
    by rewrite app_assoc, <- split_init_last. }
  by rewrite removelast_last, last_last.
Qed.

Lemma unfinished_line_is_held_back_witness :
  parseStreamChunk (Samples.first_message ++ [LF] ++ Samples.second_message) []
  = (flat_map line_events (split LF Samples.first_message), Samples.second_message).
Proof.
  apply (unfinished_line_is_held_back Samples.first_message Samples.second_message).
  apply (bool_decide_unpack _). by vm_compute.
Defined.

(** A message that arrives in two chunks, cut in the middle of its line,
    is one event, once the line feed has come. *)
Example feed_cut_in_a_line :
  let m := Samples.first_message in
  parseStreamChunk (take 10 m) [] = ([], take 10 m)
  /\ JSON.parse m <> None
  /\ feed Samples.utf8 [Samples.bytes_of (take 10 m); Samples.bytes_of (drop 10 m ++ [LF])] []
     = (option_list (JSON.parse m), []).
Proof. by vm_compute. Qed.

End StreamFacts.

(** ** The prompt *)

Section PromptFacts.
Import JS Prompt.

Lemma getSubstitution_app (matched before after x r : jsstring) :
  dollar ∉ x ->
  getSubstitution matched before after (x ++ r)
  = x ++ getSubstitution matched before after r.
Proof.
  induction x as [|c x IH]; intros Hx; [done|].
  apply not_elem_of_cons in Hx as [Hc Hx]. cbn [app getSubstitution].
  assert (N.eqb c dollar = false) as -> by (apply N.eqb_neq; congruence).
  by rewrite IH.
Qed.

(** A replacement without a dollar sign stands for itself. *)
Lemma getSubstitution_plain (matched before after r : jsstring) :
  dollar ∉ r -> getSubstitution matched before after r = r.
Proof.
  intros Hr. rewrite <- (app_nil_r r) at 1. rewrite getSubstitution_app by done.
  by rewrite app_nil_r.
Qed.

Lemma replace_from_skip (search r before x s : jsstring) :
  replace_from search r before (length x) (x ++ s)
  = replace_from search r (before ++ x) 0 s.
Proof.
  revert before. induction x as [|c x IH]; intros before; simpl.
  - by rewrite app_nil_r.
  - rewrite IH. by rewrite <- app_assoc.
Qed.

Lemma find_sub_unfold (p s : jsstring) :
  find_sub p s
  = match strip_prefix p s with
    | Some rest => Some ([], rest)
    | None =>
        match s with
        | [] => None
        | c :: s' =>
            match find_sub p s' with
            | Some (pre, rest) => Some (c :: pre, rest)
            | None => None
            end
        end
    end.
Proof. by destruct s. Qed.

(** Where the pattern does not occur, nothing is replaced. *)
Lemma replace_from_none (search r before s : jsstring) :
  find_sub search s = None -> replace_from search r before 0 s = s.
Proof.
  revert before. induction s as [|c s IH]; intros before; [done|].
  rewrite find_sub_unfold. cbn [replace_from].
  destruct (strip_prefix search (c :: s)); [done|].
  destruct (find_sub search s) as [[pre rest]|]; [done|].
  intros _. by rewrite IH.
Qed.

(** At the first occurrence of the pattern: the text before it, what the
    replacement stands for there, and the rest replaced in the same way. *)
Lemma replace_from_some (search r before s a b : jsstring) :
  search <> [] ->
  find_sub search s = Some (a, b) ->
  replace_from search r before 0 s
  = a ++ getSubstitution search (before ++ a) b r
    ++ replace_from search r (before ++ a ++ search) 0 b.
Proof.
  intros Hsearch. revert before a.
  induction s as [|c s IH]; intros before a; rewrite find_sub_unfold.
  - destruct search; [done|]. discriminate.
  - cbn [replace_from].
    destruct (strip_prefix search (c :: s)) as [rest|] eqn:Hstrip.
    + intros [= <- <-]. rewrite app_nil_r. cbn [app]. f_equal.
      apply strip_prefix_Some in Hstrip.
      destruct search as [|c' search]; [done|]. injection Hstrip as <- ->.
      cbn [length].
      replace (S (length search) - 1) with (length search) by lia.
      rewrite replace_from_skip. by rewrite <- app_assoc.
    + destruct (find_sub search s) as [[pre rest]|] eqn:Hfind; [|done].
      intros [= <- <-]. rewrite (IH (before ++ [c]) pre eq_refl).
      cbn [app]. by rewrite <- !app_assoc.
Qed.

Lemma replace_from_before (search r before before' : jsstring) (n : nat) (s : jsstring) :
  dollar ∉ r ->
  replace_from search r before n s = replace_from search r before' n s.
Proof.
  intros Hr. revert before before' n.
  induction s as [|c s IH]; intros before before' n; [done|].
  cbn [replace_from]. destruct n as [|n]; [|apply IH].
  destruct (strip_prefix search (c :: s)).
  - rewrite !getSubstitution_plain by done. f_equal. apply IH.
  - f_equal. apply IH.
Qed.

Lemma placeholder_nonempty (key : jsstring) : placeholder key <> [].
Proof. done. Qed.

Lemma own_entries_singleton {A} (k : jsstring) (v : A) : own_entries [(k, v)] = [(k, v)].
Proof.
  unfold own_entries. cbn [fold_right List.filter fst].
  by destruct (index_of_key k).
Qed.

(** One key: the value is converted, then the placeholder replaced. *)
Lemma buildPrompt_singleton
  (number_text : Z -> Z -> jsstring) (template key : jsstring) (v : value) :
  buildPrompt number_text template [(key, v)]
  = let* replacement := to_text number_text v in
    Normal (replaceAll (placeholder key) replacement template).
Proof.
  unfold buildPrompt. rewrite own_entries_singleton. cbn [replace_each].
  by destruct (to_text number_text v).
Qed.

(** The loop throws where the value of an entry does not convert. *)
Lemma replace_each_throws
  (number_text : Z -> Z -> jsstring) (entries : list (jsstring * value))
  (prompt : jsstring) (e : exn) :
  replace_each number_text prompt entries = Throw e
  <-> e = TypeError
      /\ exists k v, (k, v) ∈ entries /\ to_text number_text v = Throw TypeError.
Proof.
  revert prompt. induction entries as [|[k v] l IH]; intros prompt.
  - split; [discriminate|]. intros (_ & k & v & Hin & _). by inversion Hin.
  - cbn [replace_each]. destruct (to_text number_text v) as [s|e'] eqn:Hv.
    + cbn [bind]. rewrite IH. split.
      * intros (-> & k' & v' & Hin & Hthrow). split; [done|].
        exists k', v'. split; [by apply list_elem_of_further|done].
      * intros (-> & k' & v' & Hin & Hthrow). split; [done|].
        apply elem_of_cons in Hin as [[= -> ->]|Hin]; [congruence|].
        by exists k', v'.
    + cbn [bind]. pose proof (to_text_throws _ _ _ Hv) as ->. split.
      * intros [= <-]. split; [done|]. exists k, v.
        split; [apply list_elem_of_here|done].
      * by intros (-> & _).
Qed.

(** X26.  What [buildPrompt] replaces.  The values of the entries are
    converted to texts, in the order of the entries, and the prompt is
    built exactly when each of them converts: a value that does not (an
    object with a [toString] property of its own, or an array that holds
    one) throws a TypeError, wherever the placeholder occurs or not.  A
    template in which the placeholder of no key occurs comes back as it is.
    For one key whose value converts to a text without a dollar sign, and a
    template in which the placeholder occurs: the prompt is the text before
    the first occurrence, the value as it is, and the rest of the template
    with its placeholders replaced in the same way. *)
Theorem buildPrompt_replaces_placeholders
  (number_text : Z -> Z -> jsstring) (template : jsstring) :
  (forall replacements e,
     buildPrompt number_text template replacements = Throw e
     <-> e = TypeError
         /\ exists k v, (k, v) ∈ own_entries replacements
                        /\ to_text number_text v = Throw TypeError)
  /\ (forall replacements,
        (forall k v, (k, v) ∈ replacements -> find_sub (placeholder k) template = None) ->
        (forall k v, (k, v) ∈ own_entries replacements ->
                     to_text number_text v <> Throw TypeError) ->
        buildPrompt number_text template replacements = Normal template)
  /\ (forall key v s a b,
        to_text number_text v = Normal s ->
        dollar ∉ s ->
        find_sub (placeholder key) template = Some (a, b) ->
        exists rest,
          buildPrompt number_text b [(key, v)] = Normal rest
          /\ buildPrompt number_text template [(key, v)] = Normal (a ++ s ++ rest))
  /\ buildPrompt number_text template [(str "KEY", Samples.no_text)] = Throw TypeError.
Proof.
  split; [|split; [|split]].
  - intros replacements e. apply replace_each_throws.
  - intros replacements Hnone Hconv. unfold buildPrompt.
    assert (forall kv, kv ∈ own_entries replacements ->
              find_sub (placeholder (fst kv)) template = None) as Hall.
    { intros [k v] Hin. apply (Hnone k v). by apply own_entries_elem. }
    clear Hnone. revert Hconv Hall.
    generalize (own_entries replacements) as entries.
    induction entries as [|[k v] l IH]; intros Hconv Hall; [done|].
    cbn [replace_each].
    destruct (to_text number_text v) as [s|e] eqn:Hv.
    + cbn [bind]. unfold replaceAll.
      rewrite replace_from_none by apply (Hall (k, v)), list_elem_of_here.
      apply IH.
      * intros k' v' Hin. by apply (Hconv k' v'), list_elem_of_further.
      * intros kv' Hin. by apply Hall, list_elem_of_further.
    + pose proof (to_text_throws _ _ _ Hv) as ->.
      by destruct (Hconv k v (list_elem_of_here _ _)).
  - intros key v s a b Hv Hs Hfind. rewrite !buildPrompt_singleton, Hv. cbn [bind].
    eexists. split; [done|]. unfold replaceAll.
    rewrite (replace_from_some _ _ _ _ a b (placeholder_nonempty key) Hfind).
    rewrite getSubstitution_plain by done. do 3 f_equal.
    by apply replace_from_before.
  - by rewrite buildPrompt_singleton.
Qed.

(** X27.  A dollar sign in a value is not copied as it is.  For one key
    whose placeholder occurs once in the template, and a value whose text
    holds, between two texts without a dollar sign, one of the four
    patterns of a replacement text: two dollar signs come out as one; a
    dollar sign with an ampersand comes out as the placeholder itself; with
    a backquote, as the template before the placeholder; with an
    apostrophe, as the template after it.  (The prompt is built once the
    value has been converted; a value that does not convert throws.) *)
Theorem dollar_patterns_are_expanded
  (number_text : Z -> Z -> jsstring) (template key : jsstring) (v : value)
  (a b x y : jsstring) :
  find_sub (placeholder key) template = Some (a, b) ->
  find_sub (placeholder key) b = None ->
  dollar ∉ x ->
  dollar ∉ y ->
  (toString number_text v = x ++ str "$$" ++ y ->
   buildPrompt number_text template [(key, v)]
   = let* _ := to_text number_text v in Normal (a ++ (x ++ str "$" ++ y) ++ b))
  /\ (toString number_text v = x ++ str "$&" ++ y ->
      buildPrompt number_text template [(key, v)]
      = let* _ := to_text number_text v in
        Normal (a ++ (x ++ placeholder key ++ y) ++ b))
  /\ (toString number_text v = x ++ str "$`" ++ y ->
      buildPrompt number_text template [(key, v)]
      = let* _ := to_text number_text v in Normal (a ++ (x ++ a ++ y) ++ b))
  /\ (toString number_text v = x ++ str "$'" ++ y ->
      buildPrompt number_text template [(key, v)]
      = let* _ := to_text number_text v in Normal (a ++ (x ++ b ++ y) ++ b)).
Proof.
  intros Hfind Hnone Hx Hy.
  assert (buildPrompt number_text template [(key, v)]
          = let* _ := to_text number_text v in
            Normal (a ++ getSubstitution (placeholder key) a b (toString number_text v)
                      ++ b))
    as Hprompt.
  { rewrite buildPrompt_singleton.
    destruct (to_text number_text v) as [s|e] eqn:Hv; [|done]. cbn [bind].
    rewrite (to_text_Normal _ _ _ Hv). unfold replaceAll.
    rewrite (replace_from_some _ _ _ _ a b (placeholder_nonempty key) Hfind).
    by rewrite replace_from_none. }
  repeat split; intros Hv; rewrite Hprompt, Hv;
    destruct (to_text number_text v); [|done| |done| |done| |done];
    cbn [bind]; do 3 f_equal;
    rewrite getSubstitution_app by done; f_equal;
    cbn [str map list_ascii_of_string app getSubstitution];
    change (N_of_ascii "$") with dollar; rewrite ?N.eqb_refl;
    cbn -[getSubstitution placeholder]; by rewrite getSubstitution_plain.
Qed.

Lemma dollar_patterns_are_expanded_witness :
  let template := str "Run: {{CMD}}!" in
  let v := VStr (str "echo $$ now") in
  (toString Samples.whole_number v = str "echo " ++ str "$$" ++ str " now" ->
   buildPrompt Samples.whole_number template [(str "CMD", v)]
   = Normal (str "Run: " ++ (str "echo " ++ str "$" ++ str " now") ++ str "!"))
  /\ (toString Samples.whole_number v = str "echo " ++ str "$&" ++ str " now" ->
      buildPrompt Samples.whole_number template [(str "CMD", v)]
      = Normal (str "Run: " ++ (str "echo " ++ placeholder (str "CMD") ++ str " now")
                  ++ str "!"))
  /\ (toString Samples.whole_number v = str "echo " ++ str "$`" ++ str " now" ->
      buildPrompt Samples.whole_number template [(str "CMD", v)]
      = Normal (str "Run: " ++ (str "echo " ++ str "Run: " ++ str " now") ++ str "!"))
  /\ (toString Samples.whole_number v = str "echo " ++ str "$'" ++ str " now" ->
      buildPrompt Samples.whole_number template [(str "CMD", v)]
      = Normal (str "Run: " ++ (str "echo " ++ str "!" ++ str " now") ++ str "!")).
Proof.
  intros template v.
  apply (dollar_patterns_are_expanded Samples.whole_number template (str "CMD") v
           (str "Run: ") (str "!") (str "echo ") (str " now")).
  - reflexivity.
  - reflexivity.
  - apply (bool_decide_unpack _). by vm_compute.
  - apply (bool_decide_unpack _). by vm_compute.
Defined.

(** The process id of a shell command, as the prompt shows it. *)
Example buildPrompt_dollars :
  buildPrompt Samples.whole_number (str "Run: {{CMD}}!")
              [(str "CMD", VStr (str "echo $$ now"))]
  = Normal (str "Run: echo $ now!").
Proof. reflexivity. Qed.

End PromptFacts.

(** ** The batch of work items *)

Section BatchFacts.
Import JS CLI.

Variable World : Type.
Variable run : string -> World -> completion Z * World.

Lemma reduce_stopped (acc : Acc) (prdPaths : list string) (w : World) :
  stopped acc = true -> CLI.reduce World run acc prdPaths w = (Normal acc, w).
Proof.
  intros Hs. induction prdPaths as [|p rest IH]; [done|].
  simpl. unfold step. by rewrite Hs.
Qed.

(** What the chain of callbacks comes to, from an accumulator that has not
    stopped: every file was run and succeeded, or the files were run up to
    the first that did not succeed, whatever comes after it. *)
Lemma reduce_spec (prdPaths : list string) (acc : Acc) (w : World)
  (acc' : Acc) (w' : World) :
  stopped acc = false ->
  CLI.reduce World run acc prdPaths w = (Normal acc', w') ->
  exists ran,
    results acc' = results acc ++ ran
    /\ ((stopped acc' = false /\ finalExitCode acc' = finalExitCode acc
         /\ map fst ran = prdPaths /\ Forall succeeded ran)
        \/ (stopped acc' = true
            /\ exists ok p later,
                 ran = ok ++ [(p, finalExitCode acc')]
                 /\ prdPaths = map fst ran ++ later
                 /\ finalExitCode acc' <> EXIT_CODES.SUCCESS
                 /\ Forall succeeded ok
                 /\ forall others,
                      CLI.reduce World run acc (map fst ran ++ others) w
                      = (Normal acc', w'))).
Proof.
  revert acc w. induction prdPaths as [|p rest IH]; intros acc w Hs.
  - intros [= <- <-]. exists []. rewrite app_nil_r. split; [done|]. left. by repeat split.
  - cbn [CLI.reduce]. unfold step. rewrite Hs.
    destruct (run p w) as [[code|e] w1] eqn:Hrun; [|done].
    destruct (Z.eqb code EXIT_CODES.SUCCESS) eqn:Hcode; cbn [negb].
    + apply Z.eqb_eq in Hcode as ->. intros Hred.
      apply IH in Hred as (ran & Hres & Hcases); [|done]. cbn [results] in Hres.
      exists ((p, EXIT_CODES.SUCCESS) :: ran).
      split; [by rewrite Hres, <- app_assoc|].
      destruct Hcases as [(Hst & Hcode & Hmap & Hall)
                         |(Hst & ok & q & later & -> & -> & Hne & Hall & Hothers)].
      * left. split; [done|]. split; [done|]. split; [by rewrite <- Hmap|].
        by constructor.
      * right. split; [done|]. exists ((p, EXIT_CODES.SUCCESS) :: ok), q, later.
        split; [done|]. split; [done|]. split; [done|]. split; [by constructor|].
        intros others. cbn [map fst app CLI.reduce]. unfold step.
        rewrite Hs, Hrun. cbn [negb Z.eqb EXIT_CODES.SUCCESS]. apply Hothers.
    + rewrite reduce_stopped by done. intros [= <- <-]. cbn [results finalExitCode stopped].
      exists [(p, code)]. split; [done|]. right. split; [done|].
      exists [], p, rest. split; [done|]. split; [done|].
      split; [by apply Z.eqb_neq|]. split; [constructor|].
      intros others. cbn [map fst app CLI.reduce]. unfold step.
      rewrite Hs, Hrun, Hcode. cbn [negb]. by rewrite reduce_stopped.
Qed.

(** X28.  The batch stops at the first work item that does not succeed.
    When [#executeRun] returns, the results are those of the files run, in
    order, and they are a first part of the list.  The exit code is SUCCESS
    exactly when every result is: then every file was run.  Otherwise the
    exit code is that of the last file run, all before it succeeded, and
    the files after it were not run: with any other files in their place
    the results, the exit code and the world afterwards are the same. *)
Theorem batch_stops_at_first_failure
  (prdPaths : list string) (w : World) (outcome : list (string * Z)) (code : Z)
  (w' : World) :
  CLI.executeRun World run prdPaths w = (Normal (outcome, code), w') ->
  map fst outcome `prefix_of` prdPaths
  /\ (code = EXIT_CODES.SUCCESS <-> Forall succeeded outcome)
  /\ (code = EXIT_CODES.SUCCESS -> map fst outcome = prdPaths)
  /\ (code <> EXIT_CODES.SUCCESS ->
      exists ok p,
        outcome = ok ++ [(p, code)]
        /\ Forall succeeded ok
        /\ forall others,
             CLI.executeRun World run (map fst outcome ++ others) w
             = (Normal (outcome, code), w')).
Proof.
  unfold CLI.executeRun.
  destruct (CLI.reduce World run start prdPaths w) as [[acc|e] w1] eqn:Hred; [|done].
  intros [= <- <- <-].
  apply reduce_spec in Hred as (ran & Hres & Hcases); [|done].
  cbn [results start app] in Hres. rewrite Hres.
  destruct Hcases as [(Hst & Hcode & Hmap & Hall)
                     |(Hst & ok & q & later & -> & -> & Hne & Hall & Hothers)].
  - cbn [finalExitCode start] in Hcode. rewrite Hcode, Hmap.
    split; [done|]. split; [done|]. split; [done|]. done.
  - split; [by eexists|]. split; [|split; [done|]].
    + split; [done|]. intros Hall'. apply Forall_app in Hall' as [_ Hlast].
      by apply Forall_cons in Hlast as [? _].
    + intros _. exists ok, q. split; [done|]. split; [done|].
      intros others. by rewrite Hothers, Hres.
Qed.

End BatchFacts.

Lemma batch_stops_at_first_failure_witness :
  let outcome := [("a.md", EXIT_CODES.SUCCESS); ("b.md", EXIT_CODES.TASK_FAILED)] in
  let code := EXIT_CODES.TASK_FAILED in
  map fst outcome `prefix_of` ["a.md"; "b.md"; "c.md"]
  /\ (code = EXIT_CODES.SUCCESS <-> Forall CLI.succeeded outcome)
  /\ (code = EXIT_CODES.SUCCESS -> map fst outcome = ["a.md"; "b.md"; "c.md"])
  /\ (code <> EXIT_CODES.SUCCESS ->
      exists ok p,
        outcome = ok ++ [(p, code)]
        /\ Forall CLI.succeeded ok
        /\ forall others,
             CLI.executeRun nat Samples.second_fails (map fst outcome ++ others) 0
             = (JS.Normal (outcome, code), 2)).
Proof.
  intros outcome code.
  apply (batch_stops_at_first_failure nat Samples.second_fails
           ["a.md"; "b.md"; "c.md"] 0 outcome code 2).
  reflexivity.
Defined.
